(** * reaction-cut: the persisted state layout and the control surface

    A shallow embedding of the parts of the application that its
    specification talks about and that live in this repository:

    - the SQLite schema script (src/unnamed/part_005): the tables, their
      column and table constraints, and the way the engine enforces them
      on INSERT, UPDATE and DELETE;
    - lib/tauri.js (second half of src/unnamed/part_003):
      [invokeCommand], the one door to the backend;
    - lib/format.js (first half of src/unnamed/part_003):
      [formatDuration];
    - sections/DownloadSection.jsx (src/unnamed/part_001):
      [timeToSeconds], [isValidTimeFormat], [buildWorkflowConfig] and
      [validateIntegrationForm]; the helpers [formatDurationHms],
      [sanitizeFilename], [normalizePath], [toFolderPath],
      [buildVideoKey] and [buildPartKey]; the selection of parts
      ([togglePart], [toggleSelectAll], [updatePartConfig],
      [buildSelectedPartsConfig], [buildExpectedFilePath] and the effect
      that realigns the file paths); the tags; the estimate of the
      number of segments; and the handlers [ensureDownloadPathReady],
      [handleDownload], [validateDownloadConfig] and
      [handleIntegrationDownload] with the calls they send;
    - sections/SettingsSection.jsx: [loadSettings] and the normalisation
      of the download settings in [handleSave];
    - sections/SubmissionSyncSection.jsx: the tabs, the progress and the
      remote path shown for a sync task, and the actions offered for it.

    Part I holds the definitions, one module per source file, followed
    by the properties the specification states and the sample data the
    examples use.  Part II holds the theorems. *)

From Stdlib Require Import ZArith QArith Qround Lqa Ascii String List Bool Lia Sorted.
From stdpp Require Import base option list gmap strings.

Local Open Scope string_scope.
Local Open Scope list_scope.

(* ===================================================================== *)
(** * Part I: definitions                                                 *)
(* ===================================================================== *)

(** ** SQLite: values, table declarations and constraint enforcement

    The engine is modelled as far as the schema uses it: NOT NULL,
    UNIQUE, PRIMARY KEY, DEFAULT, CHECK (column = literal), and FOREIGN
    KEY ... ON DELETE CASCADE with enforcement switched on.  A value is
    stored as it is given: the conversions that a column affinity
    applies on the way in are not modelled. *)

Module Sqlite.

(** A stored value.  Reals are kept as the rational they denote. *)
Inductive value :=
| Null
| Int (z : Z)
| Real (q : Q)
| Text (s : string).

#[global] Instance Q_eq_dec : EqDecision Q.
Proof. solve_decision. Defined.

#[global] Instance value_eq_dec : EqDecision value.
Proof. solve_decision. Defined.

Definition is_null (v : value) : bool :=
  match v with Null => true | _ => false end.

Definition is_int (v : value) : bool :=
  match v with Int _ => true | _ => false end.

(** Declared column types of the schema (they only give an affinity). *)
Inductive affinity := INTEGER | TEXT | REAL.

(** Column constraints, as they appear after the type in a column
    definition.  [CHECK_EQ v] is [CHECK (<column> = v)]. *)
Inductive constraint :=
| PRIMARY_KEY
| AUTOINCREMENT
| NOT_NULL
| UNIQUE
| DEFAULT (v : value)
| CHECK_EQ (v : value).

Record column := Col {
  col_name : string;
  col_affinity : affinity;
  col_constraints : list constraint
}.

(** Table constraints.  Every foreign key of the schema is declared
    [ON DELETE CASCADE], so the action is not a parameter. *)
Inductive table_constraint :=
| UNIQUE_KEY (cols : list string)
| FOREIGN_KEY (col : string) (parent : string) (parent_col : string).

Record table := Table {
  tbl_name : string;
  tbl_columns : list column;
  tbl_constraints : list table_constraint
}.

Definition column_names (T : table) : list string :=
  map col_name (tbl_columns T).

(** *** Rows and databases *)

(** A row maps column names to values; a column that is not bound
    reads as NULL.  A database maps table names to their rows, oldest
    first. *)
Abbreviation row := (gmap string value).
Abbreviation database := (gmap string (list (gmap string value))).

Definition field (r : row) (c : string) : value := default Null (r !! c).

Definition rows_of (db : database) (t : string) : list row :=
  default [] (db !! t).

(** *** Reading the constraints of a column *)

Definition is_primary_key (c : column) : bool :=
  existsb (fun k => match k with PRIMARY_KEY => true | _ => false end)
          (col_constraints c).

Definition is_not_null (c : column) : bool :=
  existsb (fun k => match k with NOT_NULL => true | _ => false end)
          (col_constraints c).

Definition is_unique (c : column) : bool :=
  existsb (fun k => match k with UNIQUE => true | _ => false end)
          (col_constraints c).

(** [INTEGER PRIMARY KEY]: the column is an alias of the rowid. *)
Definition is_rowid_alias (c : column) : bool :=
  match col_affinity c with
  | INTEGER => is_primary_key c
  | _ => false
  end.

Fixpoint default_in (ks : list constraint) : value :=
  match ks with
  | [] => Null
  | DEFAULT v :: _ => v
  | _ :: ks' => default_in ks'
  end.

Definition default_of (c : column) : value := default_in (col_constraints c).

Definition check_ok (k : constraint) (v : value) : bool :=
  match k with
  | CHECK_EQ w => is_null v || bool_decide (v = w)
  | _ => true
  end.

(** What one column demands of the value stored in it. *)
Definition col_ok (c : column) (v : value) : bool :=
  (negb (is_not_null c) || negb (is_null v))
  && (negb (is_rowid_alias c) || is_int v)
  && forallb (fun k => check_ok k v) (col_constraints c).

Definition row_ok (T : table) (r : row) : bool :=
  forallb (fun c => col_ok c (field r (col_name c))) (tbl_columns T).

(** *** Uniqueness *)

(** The keys that must be unique in a table: each PRIMARY KEY or UNIQUE
    column, and each UNIQUE table constraint. *)
Definition column_keys (T : table) : list (list string) :=
  flat_map (fun c => if is_primary_key c || is_unique c
                     then [[col_name c]] else [])
           (tbl_columns T).

Definition table_keys (T : table) : list (list string) :=
  flat_map (fun k => match k with
                     | UNIQUE_KEY cols => [cols]
                     | FOREIGN_KEY _ _ _ => []
                     end)
           (tbl_constraints T).

Definition unique_keys (T : table) : list (list string) :=
  column_keys T ++ table_keys T.

(** Two rows collide on a key when every key column is non-NULL and
    equal in both: NULLs never collide. *)
Definition key_conflict (cols : list string) (r1 r2 : row) : bool :=
  forallb (fun c => negb (is_null (field r1 c))
                    && bool_decide (field r1 c = field r2 c))
          cols.

Fixpoint all_distinct (cols : list string) (rows : list row) : bool :=
  match rows with
  | [] => true
  | r :: rest =>
      forallb (fun r' => negb (key_conflict cols r r')) rest
      && all_distinct cols rest
  end.

(** *** Foreign keys *)

Definition foreign_keys (T : table) : list (string * string * string) :=
  flat_map (fun k => match k with
                     | FOREIGN_KEY c p pc => [(c, p, pc)]
                     | UNIQUE_KEY _ => []
                     end)
           (tbl_constraints T).

(** With [PRAGMA foreign_keys = ON] a non-NULL child key must name an
    existing parent row. *)
Definition fk_ok (db : database) (T : table) (r : row) : bool :=
  forallb (fun '(c, p, pc) =>
             is_null (field r c)
             || existsb (fun pr => bool_decide (field pr pc = field r c))
                        (rows_of db p))
          (foreign_keys T).

Definition table_ok (db : database) (T : table) : bool :=
  let rows := rows_of db (tbl_name T) in
  forallb (row_ok T) rows
  && forallb (fun key => all_distinct key rows) (unique_keys T)
  && forallb (fk_ok db T) rows.

Section Engine.

Variable schema : list table.

Definition find_table (t : string) : option table :=
  find (fun T => String.eqb (tbl_name T) t) schema.

(** Every constraint of every table holds. *)
Definition db_ok (db : database) : bool := forallb (table_ok db) schema.

(** *** Statements *)

Inductive statement :=
| INSERT (t : string) (vals : list (string * value))
| UPDATE (t : string) (set : list (string * value)) (where_ : row -> bool)
| DELETE (t : string) (where_ : row -> bool).

Fixpoint assigned (vals : list (string * value)) (c : string) : option value :=
  match vals with
  | [] => None
  | (c', v) :: rest => if String.eqb c' c then Some v else assigned rest c
  end.

(** The statement may only name columns of the table. *)
Definition names_ok (T : table) (vals : list (string * value)) : bool :=
  forallb (fun '(c, _) => existsb (String.eqb c) (column_names T)) vals.

(** The rowid given to a row inserted without one: one more than the
    largest in the table.  (AUTOINCREMENT also refuses to reuse the
    rowid of a deleted row; that memory is not modelled.) *)
Definition next_rowid (c : string) (rows : list row) : Z :=
  fold_right (fun r acc => match field r c with
                           | Int z => Z.max (z + 1) acc
                           | _ => acc
                           end) 1%Z rows.

(** The value an INSERT stores in column [c]: the one given, else the
    DEFAULT, else NULL; a NULL rowid alias is replaced by the next
    rowid. *)
Definition stored (vals : list (string * value)) (rows : list row)
           (c : column) : value :=
  let v := match assigned vals (col_name c) with
           | Some v => v
           | None => default_of c
           end in
  if is_rowid_alias c && is_null v
  then Int (next_rowid (col_name c) rows)
  else v.

Definition new_row (T : table) (vals : list (string * value))
           (rows : list row) : row :=
  fold_right (fun c r => <[col_name c := stored vals rows c]> r)
             ∅ (tbl_columns T).

Definition assign (set : list (string * value)) (r : row) : row :=
  fold_right (fun '(c, v) r' => <[c := v]> r') r set.

(** ON DELETE CASCADE: child rows whose parent is gone are removed,
    table after table, until nothing changes ([length schema] rounds
    are enough for the chains of this schema). *)
Definition prune_table (db : database) (T : table) : database :=
  <[tbl_name T := List.filter (fk_ok db T) (rows_of db (tbl_name T))]> db.

Definition prune (db : database) : database :=
  fold_left prune_table schema db.

Definition cascade (db : database) : database :=
  Nat.iter (length schema) prune db.

Definition checked (db : database) : option database :=
  if db_ok db then Some db else None.

(** A statement either fails, leaving the database as it was
    ([None]), or yields a database in which every constraint holds. *)
Definition exec (s : statement) (db : database) : option database :=
  match s with
  | INSERT t vals =>
      match find_table t with
      | None => None
      | Some T =>
          if names_ok T vals
          then checked (<[t := rows_of db t ++ [new_row T vals (rows_of db t)]]> db)
          else None
      end
  | UPDATE t set where_ =>
      match find_table t with
      | None => None
      | Some T =>
          if names_ok T set
          then checked (<[t := map (fun r => if where_ r then assign set r else r)
                                   (rows_of db t)]> db)
          else None
      end
  | DELETE t where_ =>
      match find_table t with
      | None => None
      | Some T =>
          checked (cascade (<[t := List.filter (fun r => negb (where_ r))
                                               (rows_of db t)]> db))
      end
  end.

Fixpoint run (prog : list statement) (db : database) : option database :=
  match prog with
  | [] => Some db
  | s :: rest =>
      match exec s db with
      | Some db' => run rest db'
      | None => None
      end
  end.

Definition succeeds (o : option database) : bool :=
  match o with Some _ => true | None => false end.

(** The database a program leaves behind (the empty one if a
    statement fails). *)
Definition result (prog : list statement) : database :=
  default ∅ (run prog ∅).

(** The databases the application can ever see: those produced from
    the empty one by statements that succeed. *)
Inductive reachable : database -> Prop :=
| reach_empty : reachable ∅
| reach_exec db s db' :
    reachable db -> exec s db = Some db' -> reachable db'.

End Engine.

End Sqlite.

(** ** The schema script (src/unnamed/part_005)

    One [table] per CREATE TABLE of the script, columns and constraints
    in the order they are written.  The script opens with
    [PRAGMA foreign_keys = ON], which is why [fk_ok] is part of [db_ok].
    Its CREATE INDEX statements declare no UNIQUE index, so they put no
    condition on the rows; its INSERT OR IGNORE statements are ordinary
    [INSERT]s whose failure is ignored. *)

Module Schema.
Import Sqlite.

Definition anchor : table :=
  Table "anchor"
    [ Col "id" INTEGER [PRIMARY_KEY; AUTOINCREMENT];
      Col "uid" TEXT [NOT_NULL; UNIQUE];
      Col "nickname" TEXT [];
      Col "live_status" INTEGER [DEFAULT (Int 0)];
      Col "last_check_time" TEXT [];
      Col "create_time" TEXT [NOT_NULL];
      Col "update_time" TEXT [NOT_NULL] ]
    [].

Definition login_info : table :=
  Table "login_info"
    [ Col "id" INTEGER [PRIMARY_KEY; AUTOINCREMENT];
      Col "user_id" INTEGER [NOT_NULL; UNIQUE];
      Col "username" TEXT [];
      Col "nickname" TEXT [];
      Col "avatar_url" TEXT [];
      Col "access_token" TEXT [];
      Col "refresh_token" TEXT [];
      Col "cookie_info" TEXT [];
      Col "login_time" TEXT [NOT_NULL];
      Col "expire_time" TEXT [];
      Col "create_time" TEXT [NOT_NULL];
      Col "update_time" TEXT [NOT_NULL] ]
    [].

Definition submission_task : table :=
  Table "submission_task"
    [ Col "task_id" TEXT [PRIMARY_KEY];
      Col "status" TEXT [NOT_NULL];
      Col "title" TEXT [NOT_NULL];
      Col "description" TEXT [];
      Col "cover_url" TEXT [];
      Col "partition_id" INTEGER [NOT_NULL];
      Col "tags" TEXT [];
      Col "video_type" TEXT [NOT_NULL];
      Col "collection_id" INTEGER [];
      Col "bvid" TEXT [];
      Col "aid" INTEGER [];
      Col "remote_state" INTEGER [];
      Col "reject_reason" TEXT [];
      Col "created_at" TEXT [NOT_NULL];
      Col "updated_at" TEXT [NOT_NULL];
      Col "segment_prefix" TEXT [] ]
    [].

Definition merged_video : table :=
  Table "merged_video"
    [ Col "id" INTEGER [PRIMARY_KEY; AUTOINCREMENT];
      Col "task_id" TEXT [NOT_NULL];
      Col "file_name" TEXT [];
      Col "video_path" TEXT [];
      Col "duration" INTEGER [];
      Col "status" INTEGER [DEFAULT (Int 0)];
      Col "upload_progress" REAL [DEFAULT (Real 0)];
      Col "upload_uploaded_bytes" INTEGER [DEFAULT (Int 0)];
      Col "upload_total_bytes" INTEGER [DEFAULT (Int 0)];
      Col "upload_cid" INTEGER [];
      Col "upload_file_name" TEXT [];
      Col "upload_session_id" TEXT [];
      Col "upload_biz_id" INTEGER [DEFAULT (Int 0)];
      Col "upload_endpoint" TEXT [];
      Col "upload_auth" TEXT [];
      Col "upload_uri" TEXT [];
      Col "upload_chunk_size" INTEGER [DEFAULT (Int 0)];
      Col "upload_last_part_index" INTEGER [DEFAULT (Int 0)];
      Col "create_time" TEXT [NOT_NULL];
      Col "update_time" TEXT [NOT_NULL] ]
    [ FOREIGN_KEY "task_id" "submission_task" "task_id" ].

Definition task_output_segment : table :=
  Table "task_output_segment"
    [ Col "segment_id" TEXT [PRIMARY_KEY];
      Col "task_id" TEXT [NOT_NULL];
      Col "part_name" TEXT [NOT_NULL];
      Col "segment_file_path" TEXT [NOT_NULL];
      Col "part_order" INTEGER [NOT_NULL];
      Col "upload_status" TEXT [NOT_NULL];
      Col "cid" INTEGER [];
      Col "file_name" TEXT [];
      Col "upload_progress" REAL [DEFAULT (Real 0)];
      Col "upload_uploaded_bytes" INTEGER [DEFAULT (Int 0)];
      Col "upload_total_bytes" INTEGER [DEFAULT (Int 0)];
      Col "upload_session_id" TEXT [];
      Col "upload_biz_id" INTEGER [DEFAULT (Int 0)];
      Col "upload_endpoint" TEXT [];
      Col "upload_auth" TEXT [];
      Col "upload_uri" TEXT [];
      Col "upload_chunk_size" INTEGER [DEFAULT (Int 0)];
      Col "upload_last_part_index" INTEGER [DEFAULT (Int 0)] ]
    [ FOREIGN_KEY "task_id" "submission_task" "task_id" ].

Definition task_source_video : table :=
  Table "task_source_video"
    [ Col "id" TEXT [PRIMARY_KEY];
      Col "task_id" TEXT [NOT_NULL];
      Col "source_file_path" TEXT [NOT_NULL];
      Col "sort_order" INTEGER [NOT_NULL];
      Col "start_time" TEXT [];
      Col "end_time" TEXT [] ]
    [ FOREIGN_KEY "task_id" "submission_task" "task_id" ].

Definition video_clip : table :=
  Table "video_clip"
    [ Col "id" INTEGER [PRIMARY_KEY; AUTOINCREMENT];
      Col "task_id" TEXT [NOT_NULL];
      Col "file_name" TEXT [NOT_NULL];
      Col "start_time" TEXT [];
      Col "end_time" TEXT [];
      Col "clip_path" TEXT [];
      Col "sequence" INTEGER [];
      Col "status" INTEGER [DEFAULT (Int 0)];
      Col "create_time" TEXT [NOT_NULL];
      Col "update_time" TEXT [NOT_NULL] ]
    [].

Definition video_download : table :=
  Table "video_download"
    [ Col "id" INTEGER [PRIMARY_KEY; AUTOINCREMENT];
      Col "bvid" TEXT [];
      Col "aid" TEXT [];
      Col "title" TEXT [];
      Col "download_url" TEXT [];
      Col "local_path" TEXT [];
      Col "status" INTEGER [DEFAULT (Int 0)];
      Col "progress" INTEGER [DEFAULT (Int 0)];
      Col "progress_total" INTEGER [DEFAULT (Int 0)];
      Col "progress_done" INTEGER [DEFAULT (Int 0)];
      Col "create_time" TEXT [NOT_NULL];
      Col "update_time" TEXT [NOT_NULL];
      Col "resolution" TEXT [];
      Col "codec" TEXT [];
      Col "format" TEXT [];
      Col "part_title" TEXT [];
      Col "part_count" INTEGER [];
      Col "current_part" INTEGER [];
      Col "cid" INTEGER [];
      Col "content" TEXT [] ]
    [].

Definition video_process_task : table :=
  Table "video_process_task"
    [ Col "id" INTEGER [PRIMARY_KEY; AUTOINCREMENT];
      Col "task_name" TEXT [];
      Col "status" INTEGER [DEFAULT (Int 0)];
      Col "progress" INTEGER [DEFAULT (Int 0)];
      Col "input_files" TEXT [];
      Col "output_path" TEXT [];
      Col "upload_status" INTEGER [DEFAULT (Int 0)];
      Col "bilibili_url" TEXT [];
      Col "create_time" TEXT [NOT_NULL];
      Col "update_time" TEXT [NOT_NULL] ]
    [].

Definition task_relations : table :=
  Table "task_relations"
    [ Col "id" INTEGER [PRIMARY_KEY; AUTOINCREMENT];
      Col "download_task_id" INTEGER [NOT_NULL];
      Col "submission_task_id" TEXT [NOT_NULL];
      Col "relation_type" TEXT [NOT_NULL; DEFAULT (Text "INTEGRATED")];
      Col "status" TEXT [NOT_NULL; DEFAULT (Text "ACTIVE")];
      Col "created_at" TEXT [NOT_NULL];
      Col "updated_at" TEXT [NOT_NULL];
      Col "workflow_instance_id" TEXT [];
      Col "workflow_status" TEXT [DEFAULT (Text "PENDING_DOWNLOAD")];
      Col "workflow_started_at" TEXT [];
      Col "last_error_message" TEXT [];
      Col "retry_count" INTEGER [DEFAULT (Int 0)] ]
    [ UNIQUE_KEY ["download_task_id"; "submission_task_id"];
      FOREIGN_KEY "download_task_id" "video_download" "id";
      FOREIGN_KEY "submission_task_id" "submission_task" "task_id" ].

Definition workflow_instances : table :=
  Table "workflow_instances"
    [ Col "instance_id" TEXT [PRIMARY_KEY];
      Col "task_id" TEXT [NOT_NULL];
      Col "workflow_type" TEXT [NOT_NULL; DEFAULT (Text "VIDEO_SUBMISSION")];
      Col "status" TEXT [NOT_NULL; DEFAULT (Text "PENDING")];
      Col "current_step" TEXT [];
      Col "progress" REAL [DEFAULT (Real 0)];
      Col "configuration_id" INTEGER [];
      Col "error_message" TEXT [];
      Col "started_at" TEXT [];
      Col "completed_at" TEXT [];
      Col "created_at" TEXT [NOT_NULL];
      Col "updated_at" TEXT [NOT_NULL] ]
    [ FOREIGN_KEY "task_id" "submission_task" "task_id" ].

Definition workflow_steps : table :=
  Table "workflow_steps"
    [ Col "step_id" TEXT [PRIMARY_KEY];
      Col "instance_id" TEXT [NOT_NULL];
      Col "step_name" TEXT [NOT_NULL];
      Col "step_type" TEXT [NOT_NULL];
      Col "step_order" INTEGER [NOT_NULL];
      Col "status" TEXT [NOT_NULL; DEFAULT (Text "PENDING")];
      Col "progress" REAL [DEFAULT (Real 0)];
      Col "input_data" TEXT [];
      Col "output_data" TEXT [];
      Col "error_message" TEXT [];
      Col "retry_count" INTEGER [DEFAULT (Int 0)];
      Col "max_retries" INTEGER [DEFAULT (Int 3)];
      Col "started_at" TEXT [];
      Col "completed_at" TEXT [];
      Col "created_at" TEXT [NOT_NULL];
      Col "updated_at" TEXT [NOT_NULL] ]
    [ UNIQUE_KEY ["instance_id"; "step_order"];
      FOREIGN_KEY "instance_id" "workflow_instances" "instance_id" ].

Definition workflow_configurations : table :=
  Table "workflow_configurations"
    [ Col "config_id" INTEGER [PRIMARY_KEY; AUTOINCREMENT];
      Col "config_name" TEXT [NOT_NULL];
      Col "config_type" TEXT [NOT_NULL; DEFAULT (Text "INSTANCE_SPECIFIC")];
      Col "user_id" INTEGER [];
      Col "workflow_type" TEXT [NOT_NULL; DEFAULT (Text "VIDEO_SUBMISSION")];
      Col "configuration_data" TEXT [NOT_NULL];
      Col "description" TEXT [];
      Col "is_active" INTEGER [NOT_NULL; DEFAULT (Int 1)];
      Col "version" INTEGER [NOT_NULL; DEFAULT (Int 1)];
      Col "created_by" INTEGER [];
      Col "created_at" TEXT [NOT_NULL];
      Col "updated_at" TEXT [NOT_NULL] ]
    [].

Definition workflow_execution_logs : table :=
  Table "workflow_execution_logs"
    [ Col "log_id" INTEGER [PRIMARY_KEY; AUTOINCREMENT];
      Col "instance_id" TEXT [NOT_NULL];
      Col "step_id" TEXT [];
      Col "log_level" TEXT [NOT_NULL; DEFAULT (Text "INFO")];
      Col "log_message" TEXT [NOT_NULL];
      Col "log_data" TEXT [];
      Col "source_component" TEXT [];
      Col "execution_context" TEXT [];
      Col "created_at" TEXT [NOT_NULL] ]
    [ FOREIGN_KEY "instance_id" "workflow_instances" "instance_id";
      FOREIGN_KEY "step_id" "workflow_steps" "step_id" ].

Definition workflow_performance_metrics : table :=
  Table "workflow_performance_metrics"
    [ Col "metric_id" INTEGER [PRIMARY_KEY; AUTOINCREMENT];
      Col "instance_id" TEXT [NOT_NULL];
      Col "step_id" TEXT [];
      Col "metric_name" TEXT [NOT_NULL];
      Col "metric_value" REAL [NOT_NULL];
      Col "metric_unit" TEXT [];
      Col "metric_type" TEXT [NOT_NULL];
      Col "measurement_time" TEXT [NOT_NULL];
      Col "additional_data" TEXT [];
      Col "created_at" TEXT [NOT_NULL] ]
    [ FOREIGN_KEY "instance_id" "workflow_instances" "instance_id";
      FOREIGN_KEY "step_id" "workflow_steps" "step_id" ].

Definition live_settings : table :=
  Table "live_settings"
    [ Col "id" INTEGER [PRIMARY_KEY; CHECK_EQ (Int 1)];
      Col "file_name_template" TEXT [NOT_NULL];
      Col "record_path" TEXT [];
      Col "write_metadata" INTEGER [NOT_NULL];
      Col "save_cover" INTEGER [NOT_NULL];
      Col "recording_quality" TEXT [NOT_NULL];
      Col "record_mode" INTEGER [NOT_NULL];
      Col "cutting_mode" INTEGER [NOT_NULL];
      Col "cutting_number" INTEGER [NOT_NULL];
      Col "cutting_by_title" INTEGER [NOT_NULL];
      Col "danmaku_transport" INTEGER [NOT_NULL];
      Col "record_danmaku" INTEGER [NOT_NULL];
      Col "record_danmaku_raw" INTEGER [NOT_NULL];
      Col "record_danmaku_superchat" INTEGER [NOT_NULL];
      Col "record_danmaku_gift" INTEGER [NOT_NULL];
      Col "record_danmaku_guard" INTEGER [NOT_NULL];
      Col "stream_retry_ms" INTEGER [NOT_NULL];
      Col "stream_retry_no_qn_sec" INTEGER [NOT_NULL];
      Col "stream_connect_timeout_ms" INTEGER [NOT_NULL];
      Col "check_interval_sec" INTEGER [NOT_NULL];
      Col "flv_fix_split_on_missing" INTEGER [NOT_NULL];
      Col "flv_fix_disable_on_annexb" INTEGER [NOT_NULL];
      Col "create_time" TEXT [NOT_NULL];
      Col "update_time" TEXT [NOT_NULL] ]
    [].

Definition live_room_settings : table :=
  Table "live_room_settings"
    [ Col "room_id" TEXT [PRIMARY_KEY];
      Col "auto_record" INTEGER [NOT_NULL; DEFAULT (Int 1)];
      Col "update_time" TEXT [NOT_NULL] ]
    [].

Definition live_record_task : table :=
  Table "live_record_task"
    [ Col "id" INTEGER [PRIMARY_KEY; AUTOINCREMENT];
      Col "room_id" TEXT [NOT_NULL];
      Col "status" TEXT [NOT_NULL];
      Col "file_path" TEXT [NOT_NULL];
      Col "segment_index" INTEGER [NOT_NULL];
      Col "start_time" TEXT [NOT_NULL];
      Col "end_time" TEXT [];
      Col "file_size" INTEGER [DEFAULT (Int 0)];
      Col "title" TEXT [];
      Col "error_message" TEXT [];
      Col "create_time" TEXT [NOT_NULL];
      Col "update_time" TEXT [NOT_NULL] ]
    [].

Definition app_settings : table :=
  Table "app_settings"
    [ Col "key" TEXT [PRIMARY_KEY];
      Col "value" TEXT [NOT_NULL];
      Col "updated_at" TEXT [NOT_NULL] ]
    [].

Definition schema : list table :=
  [ anchor;
    login_info;
    submission_task;
    merged_video;
    task_output_segment;
    task_source_video;
    video_clip;
    video_download;
    video_process_task;
    task_relations;
    workflow_instances;
    workflow_steps;
    workflow_configurations;
    workflow_execution_logs;
    workflow_performance_metrics;
    live_settings;
    live_room_settings;
    live_record_task;
    app_settings ].

End Schema.

(** ** JavaScript: the values and built-ins the sources use *)

Module JS.

(** *** Strings

    A JavaScript string is a sequence of 16-bit code units.  It is
    modelled by [string], one [ascii] per code unit, which covers the
    code units 0 to 255. *)

Definition code (c : ascii) : nat := nat_of_ascii c.

(** WhiteSpace and LineTerminator code points (below 256): TAB, LF, VT,
    FF, CR, SP and NBSP. *)
Definition is_white (c : ascii) : bool :=
  let n := code c in
  (n =? 9)%nat || (n =? 10)%nat || (n =? 11)%nat || (n =? 12)%nat
  || (n =? 13)%nat || (n =? 32)%nat || (n =? 160)%nat.

Fixpoint drop_white (cs : list ascii) : list ascii :=
  match cs with
  | c :: rest => if is_white c then drop_white rest else cs
  | [] => []
  end.

Definition trim_chars (cs : list ascii) : list ascii :=
  rev (drop_white (rev (drop_white cs))).

(** [String.prototype.trim] *)
Definition trim (s : string) : string :=
  string_of_list_ascii (trim_chars (list_ascii_of_string s)).

(** [s.split(sep)] for a separator of one code unit. *)
Fixpoint split (sep : ascii) (s : string) : list string :=
  match s with
  | EmptyString => [EmptyString]
  | String c rest =>
      if Ascii.eqb c sep then EmptyString :: split sep rest
      else match split sep rest with
           | h :: t => String c h :: t
           | [] => [String c EmptyString]
           end
  end.

(** No code unit of [s] is the separator. *)
Fixpoint free_of (sep : ascii) (s : string) : bool :=
  match s with
  | EmptyString => true
  | String c rest => negb (Ascii.eqb c sep) && free_of sep rest
  end.

(** *** Numbers

    A Number is NaN, an infinity or a finite value.  A finite value is
    kept as the rational number it denotes, so arithmetic is exact and
    never rounds or overflows: this agrees with IEEE binary64 where
    every operand and result is an integer of magnitude below 2^53,
    and comparisons agree on all binary64 numbers.  A statement that
    adds or multiplies therefore bounds its numbers by 2^53.  The sign
    of zero is not kept: no function below tells the two zeros
    apart. *)
Inductive number :=
| NaN
| Infinity (negative : bool)
| Finite (q : Q).

Definition of_Z (z : Z) : number := Finite (inject_Z z).

Definition is_nan (n : number) : bool :=
  match n with NaN => true | _ => false end.

Definition Qlt_b (p q : Q) : bool := negb (Qle_bool q p).

(** [a < b] *)
Definition lt (a b : number) : bool :=
  match a, b with
  | NaN, _ | _, NaN => false
  | Infinity true, Infinity true => false
  | Infinity true, _ => true
  | _, Infinity true => false
  | Infinity false, _ => false
  | Finite _, Infinity false => true
  | Finite p, Finite q => Qlt_b p q
  end.

(** [a > b] *)
Definition gt (a b : number) : bool := lt b a.

(** [a >= b]: false when either side is NaN, else the negation of
    [a < b]. *)
Definition ge (a b : number) : bool :=
  match a, b with
  | NaN, _ | _, NaN => false
  | _, _ => negb (lt a b)
  end.

(** [a === b] on numbers *)
Definition num_eq (a b : number) : bool :=
  match a, b with
  | Infinity s, Infinity t => Bool.eqb s t
  | Finite p, Finite q => Qeq_bool p q
  | _, _ => false
  end.

Definition is_zero (n : number) : bool := num_eq n (of_Z 0).

Definition add (a b : number) : number :=
  match a, b with
  | NaN, _ | _, NaN => NaN
  | Infinity s, Infinity t => if Bool.eqb s t then Infinity s else NaN
  | Infinity s, Finite _ | Finite _, Infinity s => Infinity s
  | Finite p, Finite q => Finite (Qred (p + q))
  end.

Definition is_negative (n : number) : bool := lt n (of_Z 0).

Definition mul (a b : number) : number :=
  match a, b with
  | NaN, _ | _, NaN => NaN
  | Infinity s, Infinity t => Infinity (xorb s t)
  | Infinity s, (Finite _ as f) | (Finite _ as f), Infinity s =>
      if is_zero f then NaN else Infinity (xorb s (is_negative f))
  | Finite p, Finite q => Finite (Qred (p * q))
  end.

(** [Math.max(a, b)] and [Math.min(a, b)] *)
Definition max (a b : number) : number :=
  if is_nan a || is_nan b then NaN else if lt a b then b else a.

Definition min (a b : number) : number :=
  if is_nan a || is_nan b then NaN else if lt b a then b else a.

(** *** From strings to numbers: [Number(s)] (StringToNumber) *)

Definition digit_in (base : Z) (c : ascii) : option Z :=
  let n := Z.of_nat (code c) in
  let d := if (48 <=? n)%Z && (n <=? 57)%Z then (n - 48)%Z
           else if (97 <=? n)%Z && (n <=? 102)%Z then (n - 87)%Z
           else if (65 <=? n)%Z && (n <=? 70)%Z then (n - 55)%Z
           else 16%Z in
  if (d <? base)%Z then Some d else None.

(** The longest prefix of digits, and what follows it. *)
Fixpoint digits (base : Z) (cs : list ascii) : list Z * list ascii :=
  match cs with
  | [] => ([], [])
  | c :: rest =>
      match digit_in base c with
      | Some d => let '(ds, tl) := digits base rest in (d :: ds, tl)
      | None => ([], cs)
      end
  end.

Definition digits_value (base : Z) (ds : list Z) : Z :=
  fold_left (fun acc d => (acc * base + d)%Z) ds 0%Z.

(** [m * 10^k] *)
Definition scaled (m k : Z) : Q :=
  if (0 <=? k)%Z then inject_Z (m * 10 ^ k)
  else Qred (Qmake m (Z.to_pos (10 ^ (- k)))).

(** ExponentPart_opt at the end of a literal: the exponent, if the
    rest of the input is one. *)
Definition exponent (cs : list ascii) : option Z :=
  match cs with
  | [] => Some 0%Z
  | e :: rest =>
      if Ascii.eqb e "e" || Ascii.eqb e "E" then
        let '(neg, body) :=
          match rest with
          | s :: body' =>
              if Ascii.eqb s "-" then (true, body')
              else if Ascii.eqb s "+" then (false, body')
              else (false, rest)
          | [] => (false, rest)
          end in
        match digits 10 body with
        | (d :: ds, []) =>
            let v := digits_value 10 (d :: ds) in
            Some (if neg then (- v)%Z else v)
        | _ => None
        end
      else None
  end.

(** StrUnsignedDecimalLiteral *)
Definition unsigned_decimal (cs : list ascii) : number :=
  if bool_decide (cs = list_ascii_of_string "Infinity") then Infinity false
  else
    let '(ip, r1) := digits 10 cs in
    let '(fp, r2) :=
      match r1 with
      | dot :: r => if Ascii.eqb dot "." then digits 10 r else ([], r1)
      | [] => ([], r1)
      end in
    match ip ++ fp with
    | [] => NaN
    | ds =>
        match exponent r2 with
        | Some e => Finite (scaled (digits_value 10 ds) (e - Z.of_nat (length fp)))
        | None => NaN
        end
    end.

Definition negate (n : number) : number :=
  match n with
  | NaN => NaN
  | Infinity s => Infinity (negb s)
  | Finite q => Finite (Qopp q)
  end.

(** NonDecimalIntegerLiteral: [0x], [0o] and [0b] literals *)
Definition radix_of (c : ascii) : option Z :=
  if Ascii.eqb c "x" || Ascii.eqb c "X" then Some 16%Z
  else if Ascii.eqb c "o" || Ascii.eqb c "O" then Some 8%Z
  else if Ascii.eqb c "b" || Ascii.eqb c "B" then Some 2%Z
  else None.

Definition non_decimal (cs : list ascii) : option number :=
  match cs with
  | z :: r :: body =>
      if Ascii.eqb z "0" then
        match radix_of r with
        | Some base =>
            Some match digits base body with
                 | (d :: ds, []) => of_Z (digits_value base (d :: ds))
                 | _ => NaN
                 end
        | None => None
        end
      else None
  | _ => None
  end.

(** StrNumericLiteral *)
Definition numeric_literal (cs : list ascii) : number :=
  match non_decimal cs with
  | Some n => n
  | None =>
      match cs with
      | s :: body =>
          if Ascii.eqb s "-" then negate (unsigned_decimal body)
          else if Ascii.eqb s "+" then unsigned_decimal body
          else unsigned_decimal cs
      | [] => NaN
      end
  end.

(** [Number(s)] for a string [s]: white space around the literal is
    dropped, and the empty literal is 0.  The literal is read as the
    exact number it writes: the language rounds that number to
    binary64, which changes nothing for an integer below 2^53, and it
    gives NaN for the same strings. *)
Definition StringToNumber (s : string) : number :=
  match trim_chars (list_ascii_of_string s) with
  | [] => of_Z 0
  | cs => numeric_literal cs
  end.

(** *** Values

    Objects are kept as the finite map of their own properties; arrays
    and functions, which the functions below never inspect, have no
    constructor of their own. *)

#[warnings="-register-all"]
Inductive value :=
| Undefined
| Null
| Bool (b : bool)
| Num (n : number)
| Str (s : string)
| Obj (props : gmap string value).

(** ToBoolean *)
Definition truthy (v : value) : bool :=
  match v with
  | Undefined | Null => false
  | Bool b => b
  | Num n => negb (is_nan n || is_zero n)
  | Str s => negb (String.eqb s "")
  | Obj _ => true
  end.

(** [a || b] *)
Definition or_ (a b : value) : value := if truthy a then a else b.

(** [typeof v === "number"] *)
Definition is_number (v : value) : bool :=
  match v with Num _ => true | _ => false end.

(** [v.k] for a value that is neither [null] nor [undefined] and a name
    [k] that the built-in prototypes do not define: an own property of
    an object, [undefined] otherwise. *)
Definition get (v : value) (k : string) : value :=
  match v with
  | Obj props => default Undefined (props !! k)
  | _ => Undefined
  end.

(** [a === b] between a value and a primitive. *)
Definition strict_eq (a b : value) : bool :=
  match a, b with
  | Undefined, Undefined | Null, Null => true
  | Bool x, Bool y => Bool.eqb x y
  | Num x, Num y => num_eq x y
  | Str x, Str y => String.eqb x y
  | _, _ => false
  end.

(** [Array.prototype.includes] on an array of strings: the comparison
    is SameValueZero, which on a string is equality of the code units
    and fails for every value that is not a string. *)
Definition includes (xs : list string) (v : value) : bool :=
  match v with
  | Str s => existsb (String.eqb s) xs
  | _ => false
  end.

(** [Number(v)] (ToNumber); a plain object converts to NaN. *)
Definition Number (v : value) : number :=
  match v with
  | Undefined => NaN
  | Null => of_Z 0
  | Bool b => of_Z (if b then 1 else 0)
  | Num n => n
  | Str s => StringToNumber s
  | Obj _ => NaN
  end.

(** [Boolean(v)] *)
Definition Boolean (v : value) : bool := truthy v.

(** *** Regular expressions

    The fragment the sources use: literal code units, classes given by
    a range, sequence, alternation and [?].  Matching follows the
    continuation semantics of the language definition: [matches r s k]
    tries to match [r] at the front of [s] and hands the rest to [k],
    backtracking into the alternatives of [r] when [k] fails. *)
Inductive regex :=
| Chr (c : ascii)
| Range (lo hi : ascii)
| Seq (r1 r2 : regex)
| Alt (r1 r2 : regex)
| Opt (r : regex).

Definition in_range (lo hi c : ascii) : bool :=
  (code lo <=? code c)%nat && (code c <=? code hi)%nat.

Fixpoint matches (r : regex) (s : string) (k : string -> bool) : bool :=
  match r with
  | Chr c =>
      match s with
      | String x rest => Ascii.eqb x c && k rest
      | EmptyString => false
      end
  | Range lo hi =>
      match s with
      | String x rest => in_range lo hi x && k rest
      | EmptyString => false
      end
  | Seq r1 r2 => matches r1 s (fun rest => matches r2 rest k)
  | Alt r1 r2 => matches r1 s k || matches r2 s k
  | Opt r1 => matches r1 s k || k s
  end.

Definition at_end (s : string) : bool :=
  match s with EmptyString => true | _ => false end.

(** [/^r$/.test(s)] *)
Definition test_anchored (r : regex) (s : string) : bool := matches r s at_end.

(** The language of a regular expression: the strings it matches from
    end to end. *)
Fixpoint lang (r : regex) (s : string) : Prop :=
  match r with
  | Chr c => s = String c EmptyString
  | Range lo hi => exists x, s = String x EmptyString /\ in_range lo hi x = true
  | Seq r1 r2 => exists s1 s2, s = (s1 ++ s2)%string /\ lang r1 s1 /\ lang r2 s2
  | Alt r1 r2 => lang r1 s \/ lang r2 s
  | Opt r1 => lang r1 s \/ s = EmptyString
  end.

End JS.

(** ** lib/tauri.js (src/unnamed/part_003, lines 50-61) *)

Module Tauri.

(** What a thrown value is: [new Error(message)] built by
    [invokeCommand] itself, or whatever [invoke] rejected with. *)
Inductive exception :=
| Error (message : JS.value)
| Rejection (reason : JS.value).

Inductive outcome :=
| Return (v : JS.value)
| Throw (e : exception).

(** [invokeCommand(command, payload)], given the outcome of
    [await invoke(command, payload)].  A rejection of [invoke] passes
    through; a response is checked and unwrapped. *)
Definition invokeCommand (invoked : outcome) : outcome :=
  match invoked with
  | Throw e => Throw e
  | Return response =>
      if negb (JS.truthy response) then
        Throw (Error (JS.Str "Empty response"))
      else if JS.is_number (JS.get response "code")
              && negb (JS.strict_eq (JS.get response "code") (JS.Num (JS.of_Z 0))) then
        Throw (Error (JS.or_ (JS.get response "message") (JS.Str "Request failed")))
      else
        Return (JS.get response "data")
  end.

End Tauri.

(** ** sections/DownloadSection.jsx (src/unnamed/part_001) *)

Module Download.
Import JS.

(** [workflowConfig] *)
Record segmentation_settings := {
  segmentDurationSeconds : number;
  preserveOriginal : bool
}.

Record workflow_config := {
  segmentationConfig : segmentation_settings
}.

Definition defaultWorkflowConfig : workflow_config :=
  {| segmentationConfig :=
       {| segmentDurationSeconds := of_Z 133; preserveOriginal := true |} |}.

(** [downloadConfig] *)
Record download_config := {
  downloadName : string;
  downloadPath : string;
  resolution : string;
  codec : string;
  format : string;
  content : string
}.

(** [submissionConfig] *)
Record submission_config := {
  title : string;
  description : string;
  partitionId : string;
  videoType : string;
  collectionId : string;
  segmentPrefix : string;
  baiduSyncEnabled : bool;
  baiduSyncPath : string;
  baiduSyncFilename : string
}.

(** One entry of [selectedPartsConfig] *)
Record part_config := {
  key : string;
  cid : value;
  part_title : string;
  filePath : string;
  startTime : string;
  endTime : string
}.

(** The state of the component that the functions below read. *)
Record form := {
  selectedCount : nat;
  downloadConfig : download_config;
  submissionConfig : submission_config;
  tags : list string;
  tagInput : string;
  segmentationEnabled : bool;
  workflowConfig : workflow_config;
  selectedPartsConfig : list part_config
}.

(** [!s] for a string *)
Definition empty (s : string) : bool := negb (truthy (Str s)).

Definition timeToSeconds (value : string) : number :=
  if empty value then of_Z 0
  else
    let parts := map StringToNumber (split ":" value) in
    if negb (length parts =? 3)%nat || existsb is_nan parts then of_Z 0
    else
      add (add (mul (nth 0 parts NaN) (of_Z 3600))
               (mul (nth 1 parts NaN) (of_Z 60)))
          (nth 2 parts NaN).

Definition buildWorkflowConfig (st : form) : value :=
  Obj (<["enableSegmentation" := Bool (segmentationEnabled st)]>
       (<["segmentationConfig" :=
            Obj (<["enabled" := Bool (segmentationEnabled st)]>
                 (<["segmentDurationSeconds" :=
                      Num (segmentDurationSeconds (segmentationConfig (workflowConfig st)))]>
                  (<["preserveOriginal" :=
                       Bool (preserveOriginal (segmentationConfig (workflowConfig st)))]>
                   ∅)))]>
        ∅)).

(** [/^([0-1]?[0-9]|2[0-3]):[0-5][0-9]:[0-5][0-9]$/] *)
Definition time_regex : regex :=
  Seq (Alt (Seq (Opt (Range "0" "1")) (Range "0" "9"))
           (Seq (Chr "2") (Range "0" "3")))
 (Seq (Chr ":")
 (Seq (Range "0" "5") (Seq (Range "0" "9")
 (Seq (Chr ":")
 (Seq (Range "0" "5") (Range "0" "9")))))).

Definition isValidTimeFormat (value : string) : bool :=
  if empty value then true else test_anchored time_regex value.

(** The messages of [validateIntegrationForm], in the order of its
    checks; the three about a part carry [index + 1]. *)
Inductive message :=
| SelectAPart
| ChooseResolution
| ChooseCodec
| ChooseFormat
| EnterTitle
| TitleTooLong
| ChoosePartition
| ChooseVideoType
| DescriptionTooLong
| EnterATag
| SegmentDurationOutOfRange
| BadStartTime (position : nat)
| BadEndTime (position : nat)
| StartNotBeforeEnd (position : nat).

(** [{ valid: false, message }] or [{ valid: true }] *)
Inductive validation :=
| Invalid (m : message)
| Valid.


(** [Array.from(new Set(xs))]: the first occurrence of each element. *)
Fixpoint unique (xs : list string) : list string :=
  match xs with
  | [] => []
  | x :: rest => x :: List.filter (fun y => negb (String.eqb x y)) (unique rest)
  end.

(** The loop over [selectedPartsConfig], from [index]. *)
Fixpoint validateParts (index : nat) (parts : list part_config) : validation :=
  match parts with
  | [] => Valid
  | part :: rest =>
      if negb (isValidTimeFormat (startTime part)) then
        Invalid (BadStartTime (index + 1))
      else if negb (isValidTimeFormat (endTime part)) then
        Invalid (BadEndTime (index + 1))
      else if negb (empty (startTime part)) && negb (empty (endTime part))
              && ge (timeToSeconds (startTime part)) (timeToSeconds (endTime part)) then
        Invalid (StartNotBeforeEnd (index + 1))
      else validateParts (index + 1) rest
  end.

Definition validateIntegrationForm (st : form) : validation :=
  if (selectedCount st =? 0)%nat then Invalid SelectAPart
  else if empty (resolution (downloadConfig st)) then Invalid ChooseResolution
  else if empty (codec (downloadConfig st)) then Invalid ChooseCodec
  else if empty (format (downloadConfig st)) then Invalid ChooseFormat
  else if empty (trim (title (submissionConfig st))) then Invalid EnterTitle
  else if (80 <? String.length (title (submissionConfig st)))%nat then Invalid TitleTooLong
  else if empty (partitionId (submissionConfig st)) then Invalid ChoosePartition
  else if empty (videoType (submissionConfig st)) then Invalid ChooseVideoType
  else if negb (empty (description (submissionConfig st)))
          && (2000 <? String.length (description (submissionConfig st)))%nat
       then Invalid DescriptionTooLong
  else
    let normalizedTags :=
      if empty (trim (tagInput st)) then tags st
      else tags st ++ [trim (tagInput st)] in
    let uniqueTags := unique normalizedTags in
    if (length uniqueTags =? 0)%nat then Invalid EnterATag
    else if segmentationEnabled st
            && (lt (segmentDurationSeconds (segmentationConfig (workflowConfig st))) (of_Z 30)
                || gt (segmentDurationSeconds (segmentationConfig (workflowConfig st))) (of_Z 600))
         then Invalid SegmentDurationOutOfRange
    else validateParts 0 (selectedPartsConfig st).

End Download.

(** ** sections/SettingsSection.jsx, [handleSave] (lines 170-199) *)

Module Settings.
Import JS.

(** The state that [handleSave] reads.  A field that an input element
    writes holds the string typed there; a field loaded from the store
    holds a number. *)
Record settings := {
  threads : value;
  queueSize : value;
  downloadPath : value;
  uploadConcurrency : value;
  submissionRemoteRefreshMinutes : value;
  blockPcdn : value;
  aria2cConnections : value;
  aria2cSplit : value
}.

(** [Number(v) || 1] *)
Definition number_or_1 (v : value) : number :=
  if truthy (Num (Number v)) then Number v else of_Z 1.

Definition normalizedUploadConcurrency (st : settings) : number :=
  min (of_Z 5) (max (of_Z 1) (number_or_1 (uploadConcurrency st))).

Definition normalizedRefreshMinutes (st : settings) : number :=
  max (of_Z 1) (number_or_1 (submissionRemoteRefreshMinutes st)).

Definition normalizedAria2cConnections (st : settings) : number :=
  min (of_Z 32) (max (of_Z 1) (number_or_1 (aria2cConnections st))).

Definition normalizedAria2cSplit (st : settings) : number :=
  min (of_Z 32) (max (of_Z 1) (number_or_1 (aria2cSplit st))).

(** The payload [handleSave] sends with [update_download_settings]. *)
Definition savePayload (st : settings) : value :=
  Obj (<["threads" := Num (Number (threads st))]>
       (<["queueSize" := Num (Number (queueSize st))]>
        (<["downloadPath" := downloadPath st]>
         (<["uploadConcurrency" := Num (normalizedUploadConcurrency st)]>
          (<["submissionRemoteRefreshMinutes" := Num (normalizedRefreshMinutes st)]>
           (<["blockPcdn" := Bool (Boolean (blockPcdn st))]>
            (<["aria2cConnections" := Num (normalizedAria2cConnections st)]>
             (<["aria2cSplit" := Num (normalizedAria2cSplit st)]>
              (<["enableAria2c" := Bool true]> ∅))))))))).

End Settings.

(** ** sections/SubmissionSyncSection.jsx *)

Module Sync.
Import JS.

(** A row of the list returned by [baidu_sync_list]. *)
Record task := {
  id : value;
  status : value;
  progress : value;
  localPath : value;
  remoteDir : value;
  remoteName : value;
  createdAt : value
}.

(** [syncTabs]: key and statuses (the labels are display text). *)
Definition syncTabs : list (string * list string) :=
  [ ("pending", ["PENDING"; "PAUSED"]);
    ("uploading", ["UPLOADING"]);
    ("completed", ["SUCCESS"]);
    ("failed", ["FAILED"; "CANCELLED"]) ].

Definition filteredTasks (tasks : list task) (syncTab : string) : list task :=
  match find (fun item => String.eqb (fst item) syncTab) syncTabs with
  | None => tasks
  | Some current => List.filter (fun t => includes (snd current) (status t)) tasks
  end.

Definition canPause (t : task) : bool :=
  includes ["PENDING"; "UPLOADING"] (status t).

Definition canRetry (t : task) : bool :=
  includes ["FAILED"; "CANCELLED"; "PAUSED"; "SUCCESS"] (status t).

(** The buttons of a row; each carries the task id its handler is
    called with. *)
Inductive button :=
| RetryButton (taskId : value)
| PauseButton (taskId : value)
| DeleteButton (taskId : value).

(** The backend command behind a button ([handleRetry], [handlePause],
    [handleDelete]). *)
Definition command (b : button) : string * value :=
  match b with
  | RetryButton i => ("baidu_sync_retry", i)
  | PauseButton i => ("baidu_sync_pause", i)
  | DeleteButton i => ("baidu_sync_delete", i)
  end.

Definition buttons (t : task) : list button :=
  (if canRetry t then [RetryButton (id t)] else [])
  ++ (if canPause t then [PauseButton (id t)] else [])
  ++ [DeleteButton (id t)].

(** The rows shown for the selected tab, each with its buttons. *)
Definition rendered (tasks : list task) (syncTab : string) : list (task * list button) :=
  map (fun t => (t, buttons t)) (filteredTasks tasks syncTab).

End Sync.

(** ** What the specification asks of the layout

    The properties below are written from the words of the specification;
    the theorems compare them with the schema. *)

Module Layout.
Import Sqlite.

(** No two rows of table [t] agree on all the columns [key]. *)
Definition no_two_rows_share (t : string) (key : list string)
           (db : database) : Prop :=
  forall i j (r1 r2 : row),
    rows_of db t !! i = Some r1 ->
    rows_of db t !! j = Some r2 ->
    (forall c, In c key -> field r1 c = field r2 c) ->
    i = j.

(** "[upload_uploaded_bytes ≤ upload_total_bytes]" for one row. *)
Definition upload_within_total (r : row) : Prop :=
  forall a b,
    field r "upload_uploaded_bytes" = Int a ->
    field r "upload_total_bytes" = Int b ->
    (a <= b)%Z.

(** The same for every merged_video and task_output_segment row. *)
Definition upload_bytes_bounded (db : database) : Prop :=
  forall r,
    In r (rows_of db "merged_video") \/ In r (rows_of db "task_output_segment") ->
    upload_within_total r.

(** [needle] occurs in [s]. *)
Fixpoint mentions (needle s : string) : bool :=
  String.prefix needle s
  || match s with
     | EmptyString => false
     | String _ rest => mentions needle rest
     end.

(** A table keeps the sync-mirror setting of a room: it has a column
    for the path and another for the enabled flag. *)
Definition keeps_sync_mirror (T : table) : Prop :=
  exists path flag,
    In path (column_names T) /\ In flag (column_names T) /\ path <> flag
    /\ mentions "sync" path = true /\ mentions "sync" flag = true.

End Layout.

(** ** What the specification asks of the trim times *)

Module TimeFormat.

(** The code unit of a decimal digit. *)
Definition digit_char (d : nat) : ascii := ascii_of_nat (48 + d).

Definition one_digit (n : nat) : string := String (digit_char n) EmptyString.

Definition two_digits (n : nat) : string :=
  String (digit_char (n / 10)) (String (digit_char (n mod 10)) EmptyString).

Definition clock (hours : string) (m sec : nat) : string :=
  (hours ++ ":" ++ two_digits m ++ ":" ++ two_digits sec)%string.

(** "HH:MM:SS (hours 00-23, minutes and seconds 00-59)" *)
Definition HHMMSS (s : string) : Prop :=
  exists h m sec,
    (h <= 23 /\ m <= 59 /\ sec <= 59)%nat /\ s = clock (two_digits h) m sec.

(** The same with the hour written as one digit. *)
Definition HMMSS (s : string) : Prop :=
  exists h m sec,
    (h <= 9 /\ m <= 59 /\ sec <= 59)%nat /\ s = clock (one_digit h) m sec.

(** The strings [isValidTimeFormat] lets through, read off its regular
    expression: nothing at all, or a clock reading whose hour has one or
    two digits. *)
Definition well_formed (s : string) : Prop := s = "" \/ HHMMSS s \/ HMMSS s.

(** The two halves of [time_regex]. *)
Definition hours_regex : JS.regex :=
  JS.Alt (JS.Seq (JS.Opt (JS.Range "0" "1")) (JS.Range "0" "9"))
         (JS.Seq (JS.Chr "2") (JS.Range "0" "3")).

Definition minutes_seconds_regex : JS.regex :=
  JS.Seq (JS.Chr ":")
 (JS.Seq (JS.Range "0" "5") (JS.Seq (JS.Range "0" "9")
 (JS.Seq (JS.Chr ":")
 (JS.Seq (JS.Range "0" "5") (JS.Range "0" "9"))))).

(** The number of seconds a clock reading stands for. *)
Definition seconds (h m sec : nat) : Z :=
  (3600 * Z.of_nat h + 60 * Z.of_nat m + Z.of_nat sec)%Z.

(** What is asked of the trim times of one part, for a given notion of
    a time in the right format. *)
Definition trim_times_ok (format : string -> Prop) (p : Download.part_config) : Prop :=
  (Download.startTime p = "" \/ format (Download.startTime p))
  /\ (Download.endTime p = "" \/ format (Download.endTime p))
  /\ (Download.startTime p <> "" -> Download.endTime p <> "" ->
      JS.lt (Download.timeToSeconds (Download.startTime p))
            (Download.timeToSeconds (Download.endTime p)) = true).

(** The checks of the loop of [validateIntegrationForm] on one part. *)
Definition part_checks (p : Download.part_config) : Prop :=
  Download.isValidTimeFormat (Download.startTime p) = true
  /\ Download.isValidTimeFormat (Download.endTime p) = true
  /\ (negb (Download.empty (Download.startTime p))
       && negb (Download.empty (Download.endTime p))
       && JS.ge (Download.timeToSeconds (Download.startTime p))
                (Download.timeToSeconds (Download.endTime p))) = false.


End TimeFormat.

(** ** Intervals of numbers *)

Module Interval.
Import JS.

(** [n] is a number below, above, or between integer bounds; NaN is
    none of these. *)
Definition below (n : number) (bound : Z) : Prop :=
  match n with
  | NaN => False
  | Infinity negative => negative = true
  | Finite q => (q < inject_Z bound)%Q
  end.

Definition above (n : number) (bound : Z) : Prop :=
  match n with
  | NaN => False
  | Infinity negative => negative = false
  | Finite q => (inject_Z bound < q)%Q
  end.

Definition within (n : number) (lo hi : Z) : Prop :=
  match n with
  | Finite q => (inject_Z lo <= q /\ q <= inject_Z hi)%Q
  | _ => False
  end.

End Interval.

(** ** What the specification asks of the responses and the settings *)

Module Contract.
Import JS Interval.

(** The response is absent: [undefined] or [null]. *)
Definition absent (response : value) : Prop :=
  response = Undefined \/ response = Null.

(** The response carries a numeric code field different from 0. *)
Definition bad_code (response : value) : Prop :=
  exists n, get response "code" = Num n /\ num_eq n (of_Z 0) = false.

(** [sent] is [input] clamped into the interval from 1 to [hi]: inside
    the interval, 1 for an input that is not a number or lies below,
    [hi] for an input above, and the input itself when that is inside. *)
Definition clamped (hi : Z) (input : value) (sent : number) : Prop :=
  within sent 1 hi
  /\ (Number input = NaN -> sent = of_Z 1)
  /\ (below (Number input) 1 -> sent = of_Z 1)
  /\ (above (Number input) hi -> sent = of_Z hi)
  /\ (within (Number input) 1 hi -> num_eq sent (Number input) = true).

End Contract.

(** ** Sample inputs *)

Module Inputs.

(** A form that passes every check, given its parts, its toggle and its
    segment duration. *)
Definition sample_form (enabled : bool) (duration : JS.number)
           (parts : list Download.part_config) : Download.form :=
  {| Download.selectedCount := length parts;
     Download.downloadConfig :=
       {| Download.downloadName := ""; Download.downloadPath := "/downloads";
          Download.resolution := "80"; Download.codec := "avc1.640032";
          Download.format := "dash"; Download.content := "audio_video" |};
     Download.submissionConfig :=
       {| Download.title := "stream highlights"; Download.description := "";
          Download.partitionId := "17"; Download.videoType := "ORIGINAL";
          Download.collectionId := ""; Download.segmentPrefix := "";
          Download.baiduSyncEnabled := false; Download.baiduSyncPath := "";
          Download.baiduSyncFilename := "" |};
     Download.tags := ["live"];
     Download.tagInput := "";
     Download.segmentationEnabled := enabled;
     Download.workflowConfig :=
       {| Download.segmentationConfig :=
            {| Download.segmentDurationSeconds := duration;
               Download.preserveOriginal := true |} |};
     Download.selectedPartsConfig := parts |}.

Definition sample_part (start finish : string) : Download.part_config :=
  {| Download.key := "BV1xx411c7mD:1"; Download.cid := JS.Num (JS.of_Z 1);
     Download.part_title := "P1"; Download.filePath := "/downloads/v/P1.mp4";
     Download.startTime := start; Download.endTime := finish |}.

(** Two responses of the backend: a failure and a success. *)
Definition failure_response : JS.value :=
  JS.Obj (<["code" := JS.Num (JS.of_Z 500)]>
       (<["message" := JS.Str "disk full"]>
        (<["data" := JS.Null]> ∅))).

Definition success_response : JS.value :=
  JS.Obj (<["code" := JS.Num (JS.of_Z 0)]>
       (<["message" := JS.Str "ok"]>
        (<["data" := JS.Str "payload"]> ∅))).

(** What the settings inputs hold after the user typed 9 for the
    upload concurrency, nothing for the connections and 16 for the
    split. *)
Definition typed_settings : Settings.settings :=
  {| Settings.threads := JS.Num (JS.of_Z 3);
     Settings.queueSize := JS.Num (JS.of_Z 10);
     Settings.downloadPath := JS.Str "/downloads";
     Settings.uploadConcurrency := JS.Str "9";
     Settings.submissionRemoteRefreshMinutes := JS.Num (JS.of_Z 10);
     Settings.blockPcdn := JS.Bool true;
     Settings.aria2cConnections := JS.Str "";
     Settings.aria2cSplit := JS.Str "16" |}.

(** A sync task with a given id and status. *)
Definition sync_task (i : Z) (st : string) : Sync.task :=
  {| Sync.id := JS.Num (JS.of_Z i); Sync.status := JS.Str st;
     Sync.progress := JS.Num (JS.of_Z 0); Sync.localPath := JS.Str "/rec/a.flv";
     Sync.remoteDir := JS.Str "/rec"; Sync.remoteName := JS.Str "a.flv";
     Sync.createdAt := JS.Str "2025-01-01" |}.

End Inputs.

(** ** Sample databases *)

Module Samples.
Import Sqlite Schema Layout.

(** A task, its workflow instance, and the first two steps of it. *)
Definition two_steps_program : list statement :=
  [ INSERT "submission_task"
      [ ("task_id", Text "task-1"); ("status", Text "PENDING");
        ("title", Text "t"); ("partition_id", Int 17);
        ("video_type", Text "ORIGINAL");
        ("created_at", Text "2025-01-01"); ("updated_at", Text "2025-01-01") ];
    INSERT "workflow_instances"
      [ ("instance_id", Text "wf-1"); ("task_id", Text "task-1");
        ("created_at", Text "2025-01-01"); ("updated_at", Text "2025-01-01") ];
    INSERT "workflow_steps"
      [ ("step_id", Text "s-1"); ("instance_id", Text "wf-1");
        ("step_name", Text "clip"); ("step_type", Text "CLIP");
        ("step_order", Int 1);
        ("created_at", Text "2025-01-01"); ("updated_at", Text "2025-01-01") ];
    INSERT "workflow_steps"
      [ ("step_id", Text "s-2"); ("instance_id", Text "wf-1");
        ("step_name", Text "merge"); ("step_type", Text "MERGE");
        ("step_order", Int 2);
        ("created_at", Text "2025-01-01"); ("updated_at", Text "2025-01-01") ] ].

Definition two_steps_db : database := result schema two_steps_program.

Definition step (i : nat) : row :=
  default ∅ (rows_of two_steps_db "workflow_steps" !! i).

(** Two recordings of one room that carry the same segment index. *)
Definition same_segment_program : list statement :=
  [ INSERT "live_record_task"
      [ ("room_id", Text "12345"); ("status", Text "RECORDING");
        ("file_path", Text "/rec/12345/a.flv"); ("segment_index", Int 1);
        ("start_time", Text "2025-01-01 10:00:00");
        ("create_time", Text "2025-01-01"); ("update_time", Text "2025-01-01") ];
    INSERT "live_record_task"
      [ ("room_id", Text "12345"); ("status", Text "RECORDING");
        ("file_path", Text "/rec/12345/b.flv"); ("segment_index", Int 1);
        ("start_time", Text "2025-01-01 10:02:13");
        ("create_time", Text "2025-01-01"); ("update_time", Text "2025-01-01") ] ].

Definition same_segment_db : database := result schema same_segment_program.

Definition recording (i : nat) : row :=
  default ∅ (rows_of same_segment_db "live_record_task" !! i).

(** A merged video created with the defaults, whose uploaded bytes are
    then set past its total. *)
Definition overrun_program : list statement :=
  [ INSERT "submission_task"
      [ ("task_id", Text "task-1"); ("status", Text "PENDING");
        ("title", Text "t"); ("partition_id", Int 17);
        ("video_type", Text "ORIGINAL");
        ("created_at", Text "2025-01-01"); ("updated_at", Text "2025-01-01") ];
    INSERT "merged_video"
      [ ("task_id", Text "task-1");
        ("create_time", Text "2025-01-01"); ("update_time", Text "2025-01-01") ];
    UPDATE "merged_video" [("upload_uploaded_bytes", Int 5)] (fun _ => true) ].

Definition overrun_db : database := result schema overrun_program.

Definition overrun_row : row :=
  default ∅ (rows_of overrun_db "merged_video" !! 0%nat).

(** A database with one submission task, and a segment to add to it. *)
Definition one_task_db : database :=
  result schema
    [ INSERT "submission_task"
        [ ("task_id", Text "task-1"); ("status", Text "PENDING");
          ("title", Text "t"); ("partition_id", Int 17);
          ("video_type", Text "ORIGINAL");
          ("created_at", Text "2025-01-01"); ("updated_at", Text "2025-01-01") ] ].

Definition fresh_segment : list (string * value) :=
  [ ("segment_id", Text "seg-0"); ("task_id", Text "task-1");
    ("part_name", Text "P1"); ("segment_file_path", Text "/out/p1.mp4");
    ("part_order", Int 0); ("upload_status", Text "PENDING") ].

(** No column of [T] is named after a sync setting. *)
Definition no_sync_column (T : table) : bool :=
  forallb (fun c => negb (mentions "sync" c)) (column_names T).

(** A subscribed room and its settings row. *)
Definition one_room_program : list statement :=
  [ INSERT "anchor"
      [ ("uid", Text "12345"); ("nickname", Text "streamer");
        ("create_time", Text "2025-01-01"); ("update_time", Text "2025-01-01") ];
    INSERT "live_room_settings"
      [ ("room_id", Text "12345"); ("update_time", Text "2025-01-01") ] ].

Definition one_room_db : database := result schema one_room_program.

Definition room_settings : row :=
  default ∅ (rows_of one_room_db "live_room_settings" !! 0%nat).

End Samples.

(** ** JavaScript: more arithmetic, and numbers as text *)

Module Numeric.
Import JS.

(** [Number.isFinite(v)]: no conversion, only a finite number passes. *)
Definition isFinite (v : value) : bool :=
  match v with Num (Finite _) => true | _ => false end.

(** [Math.floor] and [Math.ceil] *)
Definition floor (n : number) : number :=
  match n with Finite q => of_Z (Qfloor q) | _ => n end.

Definition ceil (n : number) : number :=
  match n with Finite q => of_Z (Qceiling q) | _ => n end.

(** [a - b] *)
Definition sub (a b : number) : number := add a (negate b).

(** [a / b].  Zero has no sign here, so a division by zero takes the
    sign of the dividend. *)
Definition div (a b : number) : number :=
  match a, b with
  | NaN, _ | _, NaN => NaN
  | Infinity _, Infinity _ => NaN
  | Infinity s, Finite _ => Infinity (xorb s (is_negative b))
  | Finite _, Infinity _ => of_Z 0
  | Finite p, Finite q =>
      if is_zero b then (if is_zero a then NaN else Infinity (is_negative a))
      else Finite (Qred (p / q))
  end.

(** The integer part of a rational, towards zero. *)
Definition trunc (q : Q) : Z :=
  if Qle_bool 0 q then Qfloor q else Qceiling q.

(** [a % b]: the remainder has the sign of the dividend. *)
Definition rem (a b : number) : number :=
  match a, b with
  | NaN, _ | _, NaN => NaN
  | Infinity _, _ => NaN
  | Finite _, Infinity _ => a
  | Finite p, Finite q =>
      if is_zero b then NaN
      else Finite (Qred (p - q * inject_Z (trunc (p / q))))
  end.

(** *** [String(n)]

    Exact for NaN, the infinities and the integers of magnitude below
    10^21 (from there on the language switches to exponent notation).
    A finite number that is not an integer is written with the digits
    of its exact value, at most 17 after the point. *)

Definition digit_text (d : Z) : ascii := TimeFormat.digit_char (Z.to_nat d).

Fixpoint digits_text (fuel : nat) (n : Z) (acc : string) : string :=
  match fuel with
  | O => acc
  | S fuel' =>
      let acc' := String (digit_text (n mod 10)) acc in
      if (n <? 10)%Z then acc' else digits_text fuel' (n / 10) acc'
  end.

(** The decimal digits of a natural number. *)
Definition natural_text (n : Z) : string :=
  digits_text (S (Z.to_nat (Z.log2 n))) n "".

Fixpoint fraction_text (fuel : nat) (r : Q) : string :=
  match fuel with
  | O => ""
  | S fuel' =>
      if Qeq_bool r 0 then ""
      else String (digit_text (Qfloor (r * 10)))
                  (fraction_text fuel' (r * 10 - inject_Z (Qfloor (r * 10))))
  end.

Definition magnitude_text (q : Q) : string :=
  if Qeq_bool q (inject_Z (Qfloor q)) then natural_text (Qfloor q)
  else (natural_text (Qfloor q) ++ "."
        ++ fraction_text 17 (q - inject_Z (Qfloor q)))%string.

Definition to_string (n : number) : string :=
  match n with
  | NaN => "NaN"
  | Infinity negative => if negative then "-Infinity" else "Infinity"
  | Finite q =>
      if Qlt_b q 0 then ("-" ++ magnitude_text (- q))%string
      else magnitude_text q
  end.

(** [s.padStart(targetLength, padString)] *)
Fixpoint filler (k : nat) (cur pad : string) : string :=
  match k with
  | O => ""
  | S k' =>
      match cur with
      | String c rest => String c (filler k' rest pad)
      | EmptyString =>
          match pad with
          | String c rest => String c (filler k' rest pad)
          | EmptyString => ""
          end
      end
  end.

Definition padStart (targetLength : nat) (pad : string) (s : string) : string :=
  (filler (targetLength - String.length s) pad pad ++ s)%string.

(** [String(v)]; a plain object is written as [[object Object]]. *)
Definition to_text (v : value) : string :=
  match v with
  | Undefined => "undefined"
  | Null => "null"
  | Bool b => if b then "true" else "false"
  | Num n => to_string n
  | Str s => s
  | Obj _ => "[object Object]"
  end.

(** The numeral made of a list of decimal digits. *)
Fixpoint chars (ds : list Z) : string :=
  match ds with
  | [] => ""
  | d :: rest => String (digit_text d) (chars rest)
  end.

Definition is_digit (d : Z) : Prop := (0 <= d <= 9)%Z.

End Numeric.

(** ** lib/format.js (src/unnamed/part_003, lines 8-20) *)

Module Format.
Import JS Numeric.

(** The three fields the two formatters print. *)
Definition hours_of (totalSeconds : number) : number :=
  floor (div totalSeconds (of_Z 3600)).

Definition minutes_of (totalSeconds : number) : number :=
  floor (div (rem totalSeconds (of_Z 3600)) (of_Z 60)).

Definition seconds_of (totalSeconds : number) : number :=
  rem totalSeconds (of_Z 60).

(** [String(n).padStart(2, "0")] *)
Definition two (n : number) : string := padStart 2 "0" (to_string n).

Definition formatDuration (seconds : value) : string :=
  if negb (isFinite seconds) then "00:00"
  else
    let totalSeconds := max (of_Z 0) (floor (Number seconds)) in
    let hrs := hours_of totalSeconds in
    let mins := minutes_of totalSeconds in
    let secs := seconds_of totalSeconds in
    if gt hrs (of_Z 0) then (two hrs ++ ":" ++ two mins ++ ":" ++ two secs)%string
    else (two mins ++ ":" ++ two secs)%string.

End Format.

(** ** sections/DownloadSection.jsx: the helpers above the component
    (src/unnamed/part_001, lines 46-120) *)

Module Helpers.
Import JS Numeric Format.

Definition formatDurationHms (seconds : value) : string :=
  let totalSeconds := max (of_Z 0) (floor (Number (or_ seconds (Num (of_Z 0))))) in
  let hrs := hours_of totalSeconds in
  let mins := minutes_of totalSeconds in
  let secs := seconds_of totalSeconds in
  (two hrs ++ ":" ++ two mins ++ ":" ++ two secs)%string.

End Helpers.

(** ** Names, paths and keys (DownloadSection.jsx, lines 65-105) *)

Module Paths.
Import JS Numeric.

Definition map_chars (f : ascii -> ascii) (s : string) : string :=
  string_of_list_ascii (map f (list_ascii_of_string s)).

(** The class of [sanitizeFilename]: slash, backslash, colon, star,
    question mark, quotation mark (code unit 34), angle brackets and bar. *)
Definition forbidden (ch : ascii) : bool :=
  existsb (Ascii.eqb ch)
    ["/"%char; "\"%char; ":"%char; "*"%char; "?"%char; ascii_of_nat 34;
     "<"%char; ">"%char; "|"%char].

(** A string without any of them. *)
Definition clean (s : string) : Prop :=
  Forall (fun c => forbidden c = false) (list_ascii_of_string s).

(** [Array.from(name)] has an element for each code unit of a string
    and none for a value of another kind the callers can pass. *)
Definition sanitizeFilename (name : value) : string :=
  if negb (truthy name) then ""
  else match name with
       | Str s => map_chars (fun ch => if forbidden ch then "_"%char else ch) s
       | _ => ""
       end.

Definition is_slash (ch : ascii) : bool := Ascii.eqb ch "/".

Fixpoint drop_slashes (cs : list ascii) : list ascii :=
  match cs with
  | c :: rest => if is_slash c then drop_slashes rest else cs
  | [] => []
  end.

(** Replacing [/\/+$/] by the empty string: the match starts where the
    last run of slashes does, when that run ends the string. *)
Definition strip_trailing_slashes (s : string) : string :=
  string_of_list_ascii (rev (drop_slashes (rev (list_ascii_of_string s)))).

Definition normalizePath (path : value) : string :=
  strip_trailing_slashes
    (map_chars (fun ch => if Ascii.eqb ch "\" then "/"%char else ch)
       (to_text (or_ path (Str "")))).

(** The paths [normalizePath] gives: no backslash, and no slash at the
    end. *)
Definition normal (s : string) : Prop :=
  free_of "\" s = true /\ forall s', s <> (s' ++ "/")%string.

(** [parts.join(sep)] *)
Fixpoint join (sep : string) (parts : list string) : string :=
  match parts with
  | [] => ""
  | [p] => p
  | p :: rest => (p ++ sep ++ join sep rest)%string
  end.

Definition toFolderPath (path : value) : string :=
  let normalized := normalizePath path in
  if Download.empty normalized then ""
  else
    let parts := split "/" normalized in
    if (length parts <=? 1)%nat then normalized
    else
      let joined := join "/" (removelast parts) in
      if Download.empty joined then "/" else joined.

(** [buildVideoKey(bvid, aid, index)] *)
Definition buildVideoKey (bvid aid index : value) : string :=
  if truthy bvid then to_text bvid
  else if truthy aid then ("av" ++ to_text aid)%string
  else ("input-" ++ to_text index)%string.

(** [buildPartKey(videoKey, cid)] *)
Definition buildPartKey (videoKey cid : value) : string :=
  (to_text videoKey ++ ":" ++ to_text cid)%string.

End Paths.

(** ** Selecting parts (DownloadSection.jsx, lines 177-203 and 537-631) *)

Module Selection.
Import JS Numeric Paths Helpers.

(** A page of a video, as [video_detail] lists it. *)
Record page := {
  cid : value;
  part : string;
  duration : value
}.

(** An element of [videoItems]; [info_title] is [item.info?.title]. *)
Record video_item := {
  key : string;
  input : string;
  info_title : value;
  parts : list page;
  selectedParts : list page;
  selectedPartsConfig : list Download.part_config
}.

(** [xs.findIndex(p)] *)
Fixpoint findIndex {A : Type} (p : A -> bool) (xs : list A) : Z :=
  match xs with
  | [] => (-1)%Z
  | x :: rest =>
      if p x then 0%Z
      else let i := findIndex p rest in if (i <? 0)%Z then (-1)%Z else (i + 1)%Z
  end.

(** [xs.sort((left, right) => rank(left) - rank(right))]: the sort is
    stable, so elements of the same rank keep their order. *)
Fixpoint insert_by {A : Type} (rank : A -> Z) (x : A) (sorted : list A) : list A :=
  match sorted with
  | [] => [x]
  | y :: rest =>
      if (rank y <? rank x)%Z then y :: insert_by rank x rest else x :: sorted
  end.

Fixpoint sort_by {A : Type} (rank : A -> Z) (xs : list A) : list A :=
  match xs with
  | [] => []
  | x :: rest => insert_by rank x (sort_by rank rest)
  end.

Section Component.

(** The literal that stands in for a missing title is made of two code
    units above 255; it is a parameter here. *)
Variable unknown : string.

(** The state the functions below close over. *)
Variable downloadConfig : Download.download_config.
Variable defaultDownloadPath : string.

Definition buildExpectedFilePath (p : page) (item : video_item) (isMulti : bool) : string :=
  let basePath :=
    normalizePath (or_ (Str (Download.downloadPath downloadConfig))
                       (Str defaultDownloadPath)) in
  let folderName :=
    sanitizeFilename
      (if isMulti then or_ (info_title item) (Str unknown)
       else or_ (or_ (Str (Download.downloadName downloadConfig)) (info_title item))
                (Str unknown)) in
  let fileName := (sanitizeFilename (Str (part p)) ++ ".mp4")%string in
  if Download.empty basePath then (folderName ++ "/" ++ fileName)%string
  else (basePath ++ "/" ++ folderName ++ "/" ++ fileName)%string.

(** [existing?.startTime || fallback] and [existing?.endTime || fallback] *)
Definition time_or (existing : option Download.part_config)
    (field : Download.part_config -> string) (fallback : string) : string :=
  match existing with
  | Some config => if Download.empty (field config) then fallback else field config
  | None => fallback
  end.

Definition buildSelectedPartsConfig (item : video_item) (selected : list page)
    (isMulti : bool) : list Download.part_config :=
  map (fun p =>
         let partKey := buildPartKey (Str (key item)) (cid p) in
         let existing :=
           find (fun config => String.eqb (Download.key config) partKey)
                (selectedPartsConfig item) in
         {| Download.key := partKey;
            Download.cid := cid p;
            Download.part_title := part p;
            Download.filePath := buildExpectedFilePath p item isMulti;
            Download.startTime := time_or existing Download.startTime "00:00:00";
            Download.endTime :=
              time_or existing Download.endTime (formatDurationHms (duration p)) |})
      selected.

(** [{ ...item, selectedParts, selectedPartsConfig }] *)
Definition with_selection (item : video_item) (selected : list page)
    (configs : list Download.part_config) : video_item :=
  {| key := key item;
     input := input item;
     info_title := info_title item;
     parts := parts item;
     selectedParts := selected;
     selectedPartsConfig := configs |}.

(** The position of a part among the parts of its video. *)
Definition position (item : video_item) (p : page) : Z :=
  findIndex (fun target => strict_eq (cid target) (cid p)) (parts item).

Definition togglePart (videoKey : string) (p : page) (prev : list video_item)
    : list video_item :=
  let isMulti := (1 <? length prev)%nat in
  map (fun item =>
         if negb (String.eqb (key item) videoKey) then item
         else
           let exists_ :=
             existsb (fun selected => strict_eq (cid selected) (cid p))
                     (selectedParts item) in
           let nextSelected :=
             if exists_ then
               List.filter (fun selected => negb (strict_eq (cid selected) (cid p)))
                           (selectedParts item)
             else sort_by (position item) (selectedParts item ++ [p]) in
           with_selection item nextSelected
             (buildSelectedPartsConfig item nextSelected isMulti))
      prev.

Definition toggleSelectAll (videoKey : string) (prev : list video_item)
    : list video_item :=
  let isMulti := (1 <? length prev)%nat in
  map (fun item =>
         if negb (String.eqb (key item) videoKey) then item
         else
           let allSelected :=
             (0 <? length (parts item))%nat
             && (length (selectedParts item) =? length (parts item))%nat in
           let nextSelected := if allSelected then [] else parts item in
           with_selection item nextSelected
             (buildSelectedPartsConfig item nextSelected isMulti))
      prev.

(** The two fields the form edits through [updatePartConfig]. *)
Inductive time_field := startTime | endTime.

(** [{ ...part, [field]: value }] *)
Definition with_time (config : Download.part_config) (field : time_field)
    (value : string) : Download.part_config :=
  {| Download.key := Download.key config;
     Download.cid := Download.cid config;
     Download.part_title := Download.part_title config;
     Download.filePath := Download.filePath config;
     Download.startTime :=
       match field with startTime => value | endTime => Download.startTime config end;
     Download.endTime :=
       match field with endTime => value | startTime => Download.endTime config end |}.

Definition updatePartConfig (partKey : string) (field : time_field) (value : string)
    (prev : list video_item) : list video_item :=
  map (fun item =>
         let exists_ :=
           existsb (fun config => String.eqb (Download.key config) partKey)
                   (selectedPartsConfig item) in
         if negb exists_ then item
         else
           with_selection item (selectedParts item)
             (map (fun config =>
                     if String.eqb (Download.key config) partKey
                     then with_time config field value else config)
                  (selectedPartsConfig item)))
      prev.

(** [{ ...partConfig, filePath: nextPath }] *)
Definition with_filePath (config : Download.part_config) (nextPath : string)
    : Download.part_config :=
  {| Download.key := Download.key config;
     Download.cid := Download.cid config;
     Download.part_title := Download.part_title config;
     Download.filePath := nextPath;
     Download.startTime := Download.startTime config;
     Download.endTime := Download.endTime config |}.

(** The effect that follows a change of the download path or name
    (lines 301-336): the file path of every selected part is brought in
    line with it. *)
Definition refreshFilePaths (prev : list video_item) : list video_item :=
  let isMulti := (1 <? length prev)%nat in
  map (fun item =>
         if (length (selectedPartsConfig item) =? 0)%nat then item
         else
           with_selection item (selectedParts item)
             (map (fun partConfig =>
                     match find (fun p => strict_eq (cid p) (Download.cid partConfig))
                                (parts item) with
                     | None => partConfig
                     | Some targetPart =>
                         let nextPath := buildExpectedFilePath targetPart item isMulti in
                         if String.eqb nextPath (Download.filePath partConfig)
                         then partConfig
                         else with_filePath partConfig nextPath
                     end)
                  (selectedPartsConfig item)))
      prev.

End Component.

(** What a search leaves in [videoItems] ([handleSearch], lines 458-506):
    videos with different keys and nothing selected. *)
Definition searched (videoItems : list video_item) : Prop :=
  NoDup (map key videoItems)
  /\ Forall (fun item => selectedParts item = [] /\ selectedPartsConfig item = [])
            videoItems.

(** The states of [videoItems] between two searches: the page calls
    [togglePart] with a part of the video, [toggleSelectAll] with the key
    of a video, [updatePartConfig] with the key of a row of the table of
    selected parts, and runs the effect above whenever the download path
    or name changes. *)
Inductive reachable (unknown : string) (initial : list video_item)
    : list video_item -> Prop :=
| reach_search : reachable unknown initial initial
| reach_togglePart downloadConfig defaultDownloadPath s item p :
    reachable unknown initial s -> In item s -> In p (parts item) ->
    reachable unknown initial
      (togglePart unknown downloadConfig defaultDownloadPath (key item) p s)
| reach_toggleSelectAll downloadConfig defaultDownloadPath s item :
    reachable unknown initial s -> In item s ->
    reachable unknown initial
      (toggleSelectAll unknown downloadConfig defaultDownloadPath (key item) s)
| reach_updatePartConfig s config field value :
    reachable unknown initial s -> In config (flat_map selectedPartsConfig s) ->
    reachable unknown initial (updatePartConfig (Download.key config) field value s)
| reach_refreshFilePaths downloadConfig defaultDownloadPath s :
    reachable unknown initial s ->
    reachable unknown initial
      (refreshFilePaths unknown downloadConfig defaultDownloadPath s).

(** The selected parts and their rows go together: same order, same
    cid and title, and the key of a row is the key of its part. *)
Definition row_of (item : video_item) (p : page) : string * value * string :=
  (buildPartKey (Str (key item)) (cid p), cid p, part p).

Definition row (config : Download.part_config) : string * value * string :=
  (Download.key config, Download.cid config, Download.part_title config).

Definition aligned (item : video_item) : Prop :=
  map row (selectedPartsConfig item) = map (row_of item) (selectedParts item).

(** Parts whose cids are natural numbers, all different. *)
Definition numbered (ps : list page) : Prop :=
  exists ns : list Z,
    map cid ps = map (fun n => Num (of_Z n)) ns
    /\ NoDup ns /\ Forall (fun n => (0 <= n < 2 ^ 53)%Z) ns.

(** The position of a part in a list of parts. *)
Definition position_in (ps : list page) (p : page) : Z :=
  findIndex (fun target => strict_eq (cid target) (cid p)) ps.

(** Parts in the order of [ps]. *)
Definition in_order (ps : list page) (selected : list page) : Prop :=
  StronglySorted (fun x y => (position_in ps x < position_in ps y)%Z) selected.

(** What the form reads of the list of videos: [selectedParts],
    [selectedPartsConfig] (without the two fields added for display) and
    [selectedCount] (lines 177-201). *)
Definition all_selectedParts (videoItems : list video_item) : list page :=
  flat_map selectedParts videoItems.

Definition all_selectedPartsConfig (videoItems : list video_item)
    : list Download.part_config :=
  flat_map selectedPartsConfig videoItems.

Definition selectedCount (videoItems : list video_item) : nat :=
  length (all_selectedParts videoItems).

(** A video whose selected parts are parts of it, in their order. *)
Definition orderly (item : video_item) : Prop :=
  numbered (parts item)
  /\ Forall (fun p => In p (parts item)) (selectedParts item)
  /\ in_order (parts item) (selectedParts item).

End Selection.

(** Sample videos for the statements about selections. *)
Module SelectionSamples.
Import JS Selection.

Definition page_1 : page :=
  {| cid := Num (of_Z 101); part := "intro"; duration := Num (of_Z 95) |}.

Definition page_2 : page :=
  {| cid := Num (of_Z 102); part := "a/b"; duration := Num (of_Z 4000) |}.

Definition video : video_item :=
  {| key := "BV1xx411c7mD";
     input := "https://www.bilibili.com/video/BV1xx411c7mD";
     info_title := Str "talk";
     parts := [page_1; page_2];
     selectedParts := [];
     selectedPartsConfig := [] |}.

Definition settings : Download.download_config :=
  {| Download.downloadName := "";
     Download.downloadPath := "D:\videos\";
     Download.resolution := "80";
     Download.codec := "avc1";
     Download.format := "dash";
     Download.content := "" |}.

(** The second part selected, then the first. *)
Definition both_selected : list video_item :=
  togglePart "unknown" settings "" "BV1xx411c7mD" page_1
    (togglePart "unknown" settings "" "BV1xx411c7mD" page_2 [video]).

(** The start of the second part set to ten minutes; then the first
    part deselected. *)
Definition edited : list video_item :=
  updatePartConfig "BV1xx411c7mD:102" startTime "00:10:00" both_selected.

Definition edited_video : video_item := nth 0 edited video.

Definition edited_row : Download.part_config :=
  {| Download.key := "BV1xx411c7mD:102";
     Download.cid := Num (of_Z 102);
     Download.part_title := "a/b";
     Download.filePath := "D:/videos/talk/a_b.mp4";
     Download.startTime := "00:10:00";
     Download.endTime := "01:06:40" |}.

Definition first_deselected : video_item :=
  nth 0 (togglePart "unknown" settings "" "BV1xx411c7mD" page_1 edited) video.

End SelectionSamples.

(** ** Submission tags (DownloadSection.jsx, lines 633-652 and 693-713) *)

Module Tags.
Import JS Numeric Paths.

Definition addTag (value : string) (tags : list string) : list string :=
  let nextTag := trim value in
  if Download.empty nextTag || includes tags (Str nextTag) then tags
  else tags ++ [nextTag].

Definition removeTag (target : string) (tags : list string) : list string :=
  List.filter (fun tag => negb (String.eqb tag target)) tags.

(** [handleTagKeyDown] on the Enter key: the new [tags] and [tagInput]. *)
Definition handleTagKeyDown (tags : list string) (tagInput : string)
    : list string * string :=
  (addTag tagInput tags, "").

(** [tagList] of [handleQuickFillSelect], from [task.tags]. *)
Definition tagList (task_tags : value) : list string :=
  List.filter (fun tag => Boolean (Str tag))
    (map trim (split "," (to_text (or_ task_tags (Str ""))))).

(** [uniqueTags] of [validateIntegrationForm] and
    [handleIntegrationDownload] (lines 846-850 and 917-921). *)
Definition uniqueTags (tags : list string) (tagInput : string) : list string :=
  Download.unique
    (if Download.empty (trim tagInput) then tags else tags ++ [trim tagInput]).

(** [tags: uniqueTags.join(",")] of the submission request. *)
Definition submittedTags (tags : list string) (tagInput : string) : string :=
  join "," (uniqueTags tags tagInput).

(** A list of tags without empty tag and without white space around a
    tag. *)
Definition tidy (tags : list string) : Prop :=
  Forall (fun tag => tag <> "" /\ trim tag = tag) tags.

End Tags.

(** ** The estimate of the number of segments (DownloadSection.jsx,
    lines 1105-1116) *)

Module Estimate.
Import JS Numeric Download.

Definition totalClipSeconds (st : form) : number :=
  fold_left
    (fun acc part =>
       let start := timeToSeconds (startTime part) in
       let end_ := timeToSeconds (endTime part) in
       let clipped := max (of_Z 0) (sub end_ start) in
       add acc clipped)
    (selectedPartsConfig st) (of_Z 0).

(** [Number(n) || 0] *)
Definition number_or_0 (n : number) : number :=
  if truthy (Num n) then n else of_Z 0.

Definition segmentDurationSeconds (st : form) : number :=
  number_or_0
    (Download.segmentDurationSeconds (segmentationConfig (workflowConfig st))).

Definition estimatedSegments (st : form) : number :=
  if segmentationEnabled st && gt (segmentDurationSeconds st) (of_Z 0)
  then ceil (div (totalClipSeconds st) (segmentDurationSeconds st))
  else of_Z 0.

End Estimate.

(** ** Loading the settings (SettingsSection.jsx, lines 53-83 and
    200-214) *)

Module SettingsLoad.
Import JS Settings.

(** [Math.min(hi, Math.max(1, Number(v || fallback)))] *)
Definition clamp (hi : Z) (v : value) (fallback : Z) : number :=
  min (of_Z hi) (max (of_Z 1) (Number (or_ v (Num (of_Z fallback))))).

(** The state [loadSettings] sets from the data of
    [get_download_settings]. *)
Definition loaded (data : value) : settings :=
  {| threads := get data "threads";
     queueSize := get data "queueSize";
     downloadPath := or_ (get data "downloadPath") (Str "");
     uploadConcurrency := Num (clamp 5 (get data "uploadConcurrency") 3);
     submissionRemoteRefreshMinutes :=
       Num (max (of_Z 1)
              (Number (or_ (get data "submissionRemoteRefreshMinutes") (Num (of_Z 10)))));
     blockPcdn := Bool (Boolean (get data "blockPcdn"));
     aria2cConnections := Num (clamp 32 (get data "aria2cConnections") 4);
     aria2cSplit := Num (clamp 32 (get data "aria2cSplit") 4) |}.

(** The state [handleSave] sets from the data of
    [update_download_settings]. *)
Definition saved (data : value) : settings :=
  {| threads := get data "threads";
     queueSize := get data "queueSize";
     downloadPath := or_ (get data "downloadPath") (Str "");
     uploadConcurrency :=
       Num (Number (or_ (get data "uploadConcurrency") (Num (of_Z 3))));
     submissionRemoteRefreshMinutes :=
       Num (max (of_Z 1)
              (Number (or_ (get data "submissionRemoteRefreshMinutes") (Num (of_Z 10)))));
     blockPcdn := Bool (Boolean (get data "blockPcdn"));
     aria2cConnections := Num (clamp 32 (get data "aria2cConnections") 4);
     aria2cSplit := Num (clamp 32 (get data "aria2cSplit") 4) |}.

(** [loadSettings], given the outcome of [invoke]: the state is set
    when the command returns data, and left alone otherwise. *)
Definition loadSettings (invoked : Tauri.outcome) (st : settings) : settings :=
  match Tauri.invokeCommand invoked with
  | Tauri.Return data => if truthy data then loaded data else st
  | Tauri.Throw _ => st
  end.

(** A setting that is a number from 1 to [hi], or not a number. *)
Definition shown_in (hi : Z) (v : value) : Prop :=
  exists n, v = Num n /\ (n = NaN \/ Interval.within n 1 hi).

(** A response of [get_download_settings] that reports an upload
    concurrency of 9. *)
Definition sample_data : value :=
  Obj (<["uploadConcurrency" := Num (of_Z 9)]>
       (<["downloadPath" := Str "/downloads"]> ∅)).

Definition sample_response : value :=
  Obj (<["code" := Num (of_Z 0)]> (<["data" := sample_data]> ∅)).

End SettingsLoad.

(** ** The rows of the sync list (SubmissionSyncSection.jsx, lines
    136-148) *)

Module SyncView.
Import JS Numeric Paths Sync.

(** Replacing every match of [/\/+/g] by one slash: a slash is dropped
    when another one follows it. *)
Fixpoint collapse_slashes (s : string) : string :=
  match s with
  | EmptyString => EmptyString
  | String c rest =>
      if is_slash c then
        match rest with
        | String d _ => if is_slash d then collapse_slashes rest
                        else String "/" (collapse_slashes rest)
        | EmptyString => String "/" EmptyString
        end
      else String c (collapse_slashes rest)
  end.

Definition remotePath (t : task) : string :=
  collapse_slashes (to_text (remoteDir t) ++ "/" ++ to_text (remoteName t)).

Definition progressValue (t : task) : number :=
  min (of_Z 100) (max (of_Z 0) (Number (or_ (progress t) (Num (of_Z 0))))).

(** The keys of the tabs, and the statuses that have a tab. *)
Definition tab_keys : list string := map fst syncTabs.

Definition known_statuses : list string := flat_map snd syncTabs.

(** No slash follows a slash. *)
Fixpoint single_slashes (s : string) : Prop :=
  match s with
  | String c (String d _ as rest) =>
      ~ (is_slash c = true /\ is_slash d = true) /\ single_slashes rest
  | _ => True
  end.

End SyncView.

(** Sample rows for the statements about the schema. *)
Module SchemaSamples.
Import Sqlite Schema Samples.

(** The record of the recording settings, stored without an id. *)
Definition live_settings_program : list statement :=
  [ INSERT "live_settings"
      [ ("file_name_template", Text "live/{{ roomId }}/{{ title }}.flv");
        ("write_metadata", Int 1); ("save_cover", Int 0);
        ("recording_quality", Text "avc10000,hevc10000");
        ("record_mode", Int 0); ("cutting_mode", Int 0);
        ("cutting_number", Int 100); ("cutting_by_title", Int 0);
        ("danmaku_transport", Int 0); ("record_danmaku", Int 0);
        ("record_danmaku_raw", Int 0); ("record_danmaku_superchat", Int 1);
        ("record_danmaku_gift", Int 0); ("record_danmaku_guard", Int 1);
        ("stream_retry_ms", Int 6000); ("stream_retry_no_qn_sec", Int 90);
        ("stream_connect_timeout_ms", Int 5000); ("check_interval_sec", Int 180);
        ("flv_fix_split_on_missing", Int 0); ("flv_fix_disable_on_annexb", Int 0);
        ("create_time", Text "2025-01-01"); ("update_time", Text "2025-01-01") ] ].

Definition live_settings_db : database := result schema live_settings_program.

End SchemaSamples.

(** ** ON DELETE CASCADE along the REFERENCES clauses of the script *)

Module Cascade.
Import Sqlite.

(** The place of a table in the script, counted from 0; the number of
    tables for a name the script does not create. *)
Fixpoint position (tables : list table) (t : string) : nat :=
  match tables with
  | [] => 0
  | T :: rest => if String.eqb (tbl_name T) t then 0 else S (position rest t)
  end.

Definition parent_of (fk : string * string * string) : string := snd (fst fk).

(** Every REFERENCES clause names a table created earlier in the
    script. *)
Definition parents_first (tables : list table) : bool :=
  forallb (fun T =>
             forallb (fun fk => position tables (parent_of fk)
                                <? position tables (tbl_name T))%nat
                     (foreign_keys T))
          tables.

(** No two tables of the script have the same name. *)
Fixpoint names_differ (names : list string) : bool :=
  match names with
  | [] => true
  | t :: rest => negb (existsb (String.eqb t) rest) && names_differ rest
  end.

(** Every row of [T] has its parents in [db]. *)
Definition kept_whole (db : database) (T : table) : Prop :=
  forallb (fk_ok db T) (rows_of db (tbl_name T)) = true.

(** The tables before place [k] have no orphan left. *)
Definition settled (tables : list table) (k : nat) (db : database) : Prop :=
  forall T, In T tables -> (position tables (tbl_name T) < k)%nat -> kept_whole db T.

(** [db'] keeps some of the rows of [db], in their order. *)
Definition thinner (db' db : database) : Prop :=
  forall t, exists keep, rows_of db' t = List.filter keep (rows_of db t).

(** [db'] comes from [db] by removing orphans, a table at a time. *)
Inductive pruned (tables : list table) : database -> database -> Prop :=
| pruned_refl db : pruned tables db db
| pruned_step db T db' :
    In T tables -> pruned tables (prune_table db T) db' -> pruned tables db db'.

(** What a DELETE leaves when it succeeds. *)
Definition deleted (tables : list table) (t : string) (where_ : row -> bool)
    (db : database) : database :=
  cascade tables (<[t := List.filter (fun r => negb (where_ r)) (rows_of db t)]> db).

End Cascade.

(** ** Sending a download (DownloadSection.jsx, lines 164-170, 732-798
    and 879-982) *)

Module Page.
Import JS Numeric Paths Selection.

(** *** What goes to the backend *)

(** [{ cid, title, duration }] *)
Record part_request := {
  part_cid : value;
  part_title : string;
  part_duration : value
}.

(** [{ ...baseConfig, downloadName }]: each field is a string or [null]. *)
Record request_config := {
  downloadPath : value;
  resolution : value;
  codec : value;
  format : value;
  content : value;
  downloadName : value
}.

(** [{ videoUrl, parts, config }] *)
Record download_request := {
  videoUrl : string;
  parts : list part_request;
  config : request_config
}.

(** An element of [videoParts] *)
Record video_part := {
  originalTitle : string;
  filePath : string;
  startTime : value;
  endTime : value;
  cid : value
}.

(** [submissionRequest] *)
Record submission_request := {
  title : string;
  description : value;
  partitionId : number;
  tags : string;
  videoType : string;
  collectionId : value;
  segmentPrefix : value;
  baiduSyncEnabled : bool;
  baiduSyncPath : value;
  baiduSyncFilename : value;
  videoParts : list video_part
}.

(** The payload of an integrated download *)
Record integration_payload := {
  enableSubmission : bool;
  workflowConfig : value;
  downloadRequests : list download_request;
  submissionRequest : submission_request
}.

(** The two shapes of [{ payload }] that go with [download_video]. *)
Inductive download_payload :=
| Plain (request : download_request)
| Integrated (payload : integration_payload).

(** A text shown or logged: a value, or one of the texts that are
    written with code units above 255, by what they say. *)
Inductive text :=
| Value (v : value)
| Words (m : Download.message)
| PathWords
| FailedWords
| TypeErrorWords.

(** The commands the functions below invoke, each with its payload;
    the message of [auth_client_log] is given by its pieces. *)
Inductive call :=
| auth_client_log (message : list text)
| validate_directory (path : string)
| download_video (payload : download_payload)
| download_list_by_status (status : number).

Definition command (c : call) : string :=
  match c with
  | auth_client_log _ => "auth_client_log"
  | validate_directory _ => "validate_directory"
  | download_video _ => "download_video"
  | download_list_by_status _ => "download_list_by_status"
  end.

(** *** Asynchronous functions

    A function that awaits the backend is the tree of its calls, each
    followed by what it does with the outcome; it also reads and sets
    the message the page shows. *)

Inductive proc (A : Type) : Type :=
| Done (a : A)
| Invoke (c : call) (k : Tauri.outcome -> proc A).

Arguments Done {A} a.
Arguments Invoke {A} c k.

Fixpoint bind_proc {A B : Type} (p : proc A) (f : A -> proc B) : proc B :=
  match p with
  | Done a => f a
  | Invoke c k => Invoke c (fun o => bind_proc (k o) f)
  end.

Definition M (A : Type) : Type := text -> proc (A * text).

Definition ret {A : Type} (a : A) : M A := fun message => Done (a, message).

Definition bind {A B : Type} (m : M A) (f : A -> M B) : M B :=
  fun message => bind_proc (m message) (fun r => f (fst r) (snd r)).

Notation "x <- m ;; f" := (bind m (fun x => f))
  (at level 100, m at next level, right associativity).
Notation "m ;; f" := (bind m (fun _ => f))
  (at level 100, right associativity).

Definition setMessage (t : text) : M unit := fun _ => Done (tt, t).

(** [await invoke(command, payload)] *)
Definition invoke (c : call) : M Tauri.outcome :=
  fun message => Invoke c (fun o => Done (o, message)).

(** [await invokeCommand(command, payload)], with what it throws as a
    value. *)
Definition invokeCommand (c : call) : M Tauri.outcome :=
  o <- invoke c ;; ret (Tauri.invokeCommand o).

(** What a [catch] receives: what [invokeCommand] threw, or the
    TypeError of a property read on [null] or [undefined]. *)
Inductive thrown :=
| Raised (e : Tauri.exception)
| TypeError.

(** [new Error(v).message] is [String(v)]. *)
Definition message_of (e : Tauri.exception) : value :=
  match e with
  | Tauri.Error v => Str (to_text v)
  | Tauri.Rejection reason => get reason "message"
  end.

(** [String(error)] *)
Definition error_text (e : Tauri.exception) : string :=
  match e with
  | Tauri.Error v =>
      if Download.empty (to_text v) then "Error" else ("Error: " ++ to_text v)%string
  | Tauri.Rejection reason => to_text reason
  end.

(** [error?.message || String(error) || "请求失败"] *)
Definition errorMessage (error : thrown) : text :=
  match error with
  | TypeError => TypeErrorWords
  | Raised e =>
      if truthy (message_of e) then Value (message_of e)
      else if Download.empty (error_text e) then FailedWords
      else Value (Str (error_text e))
  end.

(** *** The backend, and what a function makes of it *)

(** The backend answers a call knowing the calls before it. *)
Definition backend : Type := list (call * Tauri.outcome) -> call -> Tauri.outcome.

Fixpoint run {A : Type} (b : backend) (history : list (call * Tauri.outcome))
    (p : proc A) : A * list (call * Tauri.outcome) :=
  match p with
  | Done a => (a, history)
  | Invoke c k => let o := b history c in run b (history ++ [(c, o)]) (k o)
  end.

(** [loadDownloadList(status)] for a status other than 1, where one
    call goes out (lines 225-247; the list it stores is read by no
    function here).  Its [catch] reads [error.message], which throws in
    its turn when the backend rejected with [null] or [undefined]. *)
Definition loadDownloadList_for (status : number) : M (option thrown) :=
  bind (setMessage (Value (Str ""))) (fun _ =>
  bind (invokeCommand (download_list_by_status status)) (fun listed =>
  match listed with
  | Tauri.Return _ => ret None
  | Tauri.Throw (Tauri.Rejection Null) | Tauri.Throw (Tauri.Rejection Undefined) =>
      ret (Some TypeError)
  | Tauri.Throw error => bind (setMessage (Value (message_of error))) (fun _ => ret None)
  end)).

(** *** The page *)

(** What the handlers read of the page.  [form] gathers the values the
    validation reads; the component computes its [selectedCount] and
    [selectedPartsConfig] from [videoItems] (lines 177-201), and the
    handlers are modelled for any values of them. *)
Record state := {
  form : Download.form;
  videoItems : list video_item;
  defaultDownloadPath : string;
  integrationEnabled : bool;
  mainTab : string
}.

(** [selectedVideoItems] and [isMultiVideo] (lines 197-203) *)
Definition selectedVideoItems (st : state) : list video_item :=
  List.filter (fun item => (0 <? length (selectedParts item))%nat) (videoItems st).

Definition isMultiVideo (st : state) : bool := (1 <? length (videoItems st))%nat.

Section Handlers.

(** [loadDownloadList()], which reloads the list of records: a function
    of the page that may set the message and may throw. *)
Variable loadDownloadList : M (option thrown).

Variable st : state.

(** [logClient(text)]: whatever [invokeCommand] returns or throws is
    ignored. *)
Definition logClient (pieces : list text) : M unit :=
  _ <- invoke (auth_client_log pieces) ;; ret tt.

Definition line (s : string) : list text := [Value (Str s)].

Definition effectivePath : value :=
  or_ (Str (Download.downloadPath (Download.downloadConfig (form st))))
      (Str (defaultDownloadPath st)).

Definition ensureDownloadPathReady : M bool :=
  logClient (line ("download_path_check:start:"
                   ++ to_text (or_ effectivePath (Str "empty")))) ;;
  if negb (truthy effectivePath) then
    setMessage PathWords ;;
    logClient (line "download_path_check:empty") ;;
    ret false
  else
    checked <- invokeCommand (validate_directory (to_text effectivePath)) ;;
    match checked with
    | Tauri.Return _ =>
        logClient (line "download_path_check:ok") ;;
        ret true
    | Tauri.Throw error =>
        setMessage PathWords ;;
        logClient (line ("download_path_check:error:"
                         ++ to_text (or_ (message_of error) (Str "unknown")))) ;;
        ret false
    end.

(** [value || null] for a string *)
Definition or_null (s : string) : value := or_ (Str s) Null.

Definition baseConfig (downloadName : value) : request_config :=
  let dc := Download.downloadConfig (form st) in
  {| downloadPath := or_null (Download.downloadPath dc);
     resolution := or_null (Download.resolution dc);
     codec := or_null (Download.codec dc);
     format := or_null (Download.format dc);
     content := or_null (Download.content dc);
     downloadName := downloadName |}.

Definition downloadName_sent : value :=
  if isMultiVideo st then Null
  else or_null (Download.downloadName (Download.downloadConfig (form st))).

(** [requests] of [handleDownload], [downloadRequests] of
    [handleIntegrationDownload] *)
Definition requests : list download_request :=
  map (fun item =>
         {| videoUrl := input item;
            parts := map (fun p => {| part_cid := Selection.cid p;
                                      part_title := part p;
                                      part_duration := duration p |})
                         (selectedParts item);
            config := baseConfig downloadName_sent |})
      (selectedVideoItems st).

(** The loop over the requests: the first one that fails ends it. *)
Fixpoint send (rs : list download_request) : M (option thrown) :=
  match rs with
  | [] => ret None
  | request :: rest =>
      sent <- invokeCommand (download_video (Plain request)) ;;
      match sent with
      | Tauri.Return _ => send rest
      | Tauri.Throw error => ret (Some (Raised error))
      end
  end.

(** A text inside a template literal. *)
Definition with_text (prefix : string) (t : text) : list text :=
  match t with
  | Value v => line (prefix ++ to_text v)
  | _ => [Value (Str prefix); t]
  end.

(** The end of both handlers after the requests went out: the list of
    records is reloaded when it is on show. *)
Definition finish (ok : string) (error : string) (sent : option thrown) : M bool :=
  after <-
    match sent with
    | Some e => ret (Some e)
    | None =>
        logClient (line ok) ;;
        if String.eqb (mainTab st) "records" then loadDownloadList else ret None
    end ;;
  match after with
  | None => ret true
  | Some e =>
      logClient (with_text error (errorMessage e)) ;;
      setMessage (errorMessage e) ;;
      ret false
  end.

Definition count_text (n : nat) : string := to_string (of_Z (Z.of_nat n)).

Definition handleDownload : M bool :=
  logClient (line ("download_submit:normal:start parts="
                   ++ count_text (Download.selectedCount (form st)))) ;;
  if (Download.selectedCount (form st) =? 0)%nat then
    setMessage (Words Download.SelectAPart) ;;
    logClient (line "download_submit:normal:empty_parts") ;;
    ret false
  else
    setMessage (Value (Str "")) ;;
    ready <- ensureDownloadPathReady ;;
    if negb ready then
      logClient (line "download_submit:normal:invalid_path") ;;
      ret false
    else
      sent <- send requests ;;
      finish "download_submit:normal:ok" "download_submit:normal:error:" sent.

Definition validateDownloadConfig : M bool :=
  let dc := Download.downloadConfig (form st) in
  if (Download.selectedCount (form st) =? 0)%nat then
    setMessage (Words Download.SelectAPart) ;; ret false
  else if Download.empty (Download.resolution dc) then
    setMessage (Words Download.ChooseResolution) ;; ret false
  else if Download.empty (Download.codec dc) then
    setMessage (Words Download.ChooseCodec) ;; ret false
  else if Download.empty (Download.format dc) then
    setMessage (Words Download.ChooseFormat) ;; ret false
  else
    ready <- ensureDownloadPathReady ;;
    ret ready.

(** [Number(s)] for a field that is sent only when it is not empty. *)
Definition number_or_null (s : string) : value :=
  if Download.empty s then Null else Num (StringToNumber s).

Definition payload : integration_payload :=
  let sc := Download.submissionConfig (form st) in
  {| enableSubmission := true;
     workflowConfig := Download.buildWorkflowConfig (form st);
     downloadRequests := requests;
     submissionRequest :=
       {| title := Download.title sc;
          description := or_null (Download.description sc);
          partitionId := StringToNumber (Download.partitionId sc);
          tags := Tags.submittedTags (Download.tags (form st)) (Download.tagInput (form st));
          videoType := Download.videoType sc;
          collectionId := number_or_null (Download.collectionId sc);
          segmentPrefix := or_null (Download.segmentPrefix sc);
          baiduSyncEnabled := Download.baiduSyncEnabled sc;
          baiduSyncPath := or_null (Download.baiduSyncPath sc);
          baiduSyncFilename := or_null (Download.baiduSyncFilename sc);
          videoParts :=
            map (fun p => {| originalTitle := Download.part_title p;
                             filePath := Download.filePath p;
                             startTime := or_null (Download.startTime p);
                             endTime := or_null (Download.endTime p);
                             cid := Download.cid p |})
                (Download.selectedPartsConfig (form st)) |} |}.

Definition handleIntegrationDownload : M bool :=
  logClient (line ("download_submit:integration:start parts="
                   ++ count_text (Download.selectedCount (form st)))) ;;
  if negb (integrationEnabled st) then handleDownload
  else
    match Download.validateIntegrationForm (form st) with
    | Download.Invalid m =>
        setMessage (Words m) ;;
        logClient [Value (Str "download_submit:integration:invalid:"); Words m] ;;
        ret false
    | Download.Valid =>
        ready <- ensureDownloadPathReady ;;
        if negb ready then
          logClient (line "download_submit:integration:invalid_path") ;;
          ret false
        else
          setMessage (Value (Str "")) ;;
          sent <- invokeCommand (download_video (Integrated payload)) ;;
          finish "download_submit:integration:ok" "download_submit:integration:error:"
            match sent with
            | Tauri.Return _ => None
            | Tauri.Throw error => Some (Raised error)
            end
    end.

End Handlers.

(** The calls of a trace, and those that send a download. *)
Definition is_download (c : call) : bool :=
  match c with download_video _ => true | _ => false end.

Definition is_log (c : call) : bool :=
  match c with auth_client_log _ => true | _ => false end.

(** [invokeCommand] returned: the response was not empty and carried
    no error code. *)
Definition accepted (o : Tauri.outcome) : bool :=
  match Tauri.invokeCommand o with Tauri.Return _ => true | Tauri.Throw _ => false end.

(** [m], started with [history] behind it and [message] on show,
    returns [a], leaves [message'] on show and adds the calls [added]. *)
Definition runs {A : Type} (m : M A) (b : backend)
    (history : list (call * Tauri.outcome)) (message : text)
    (a : A) (message' : text) (added : list (call * Tauri.outcome)) : Prop :=
  run b history (m message) = ((a, message'), history ++ added).

(** Every download of [added] comes after a directory check that the
    backend accepted. *)
Definition guarded (added : list (call * Tauri.outcome)) : Prop :=
  forall before c o after,
    added = before ++ (c, o) :: after -> is_download c = true ->
    exists path o',
      In (validate_directory path, o') before /\ accepted o' = true /\ path <> "".

(** The downloads among the calls of a trace. *)
Definition downloads (added : list (call * Tauri.outcome)) : list (call * Tauri.outcome) :=
  List.filter (fun entry => is_download (fst entry)) added.

(** A function that sends no download. *)
Definition sends_no_download {A : Type} (m : M A) : Prop :=
  forall (b : backend) history message,
    exists added,
      snd (run b history (m message)) = history ++ added
      /\ Forall (fun entry => is_download (fst entry) = false) added.

End Page.

(** A page and a backend for the statements about the handlers. *)
Module PageSamples.
Import JS Selection SelectionSamples Page.

(** Both parts of the sample video selected, the form filled in, and
    the list of records on show. *)
Definition sample_state : state :=
  {| form := Inputs.sample_form true (of_Z 133)
               (all_selectedPartsConfig both_selected);
     videoItems := both_selected;
     defaultDownloadPath := "";
     integrationEnabled := true;
     mainTab := "records" |}.

(** The same page with the title of the submission left empty. *)
Definition untitled_form : Download.form :=
  let f := form sample_state in
  {| Download.selectedCount := Download.selectedCount f;
     Download.downloadConfig := Download.downloadConfig f;
     Download.submissionConfig :=
       {| Download.title := "  ";
          Download.description := "";
          Download.partitionId := "17";
          Download.videoType := "ORIGINAL";
          Download.collectionId := "";
          Download.segmentPrefix := "";
          Download.baiduSyncEnabled := false;
          Download.baiduSyncPath := "";
          Download.baiduSyncFilename := "" |};
     Download.tags := Download.tags f;
     Download.tagInput := Download.tagInput f;
     Download.segmentationEnabled := Download.segmentationEnabled f;
     Download.workflowConfig := Download.workflowConfig f;
     Download.selectedPartsConfig := Download.selectedPartsConfig f |}.

Definition untitled_state : state :=
  {| form := untitled_form;
     videoItems := videoItems sample_state;
     defaultDownloadPath := "";
     integrationEnabled := true;
     mainTab := "records" |}.

(** A backend that accepts every call. *)
Definition always_ok : backend := fun _ _ => Tauri.Return Inputs.success_response.

(** The list of pending records is reloaded. *)
Definition reload : M (option thrown) := loadDownloadList_for (of_Z 0).


Definition integrated_run : bool * text * list (call * Tauri.outcome) :=
  run always_ok [] (handleIntegrationDownload reload sample_state (Value (Str ""))).

End PageSamples.

(* ===================================================================== *)
(** * Part II: theorems                                                   *)
(* ===================================================================== *)

(** ** The constraint engine *)

Section EngineFacts.
Import Sqlite.

Variable schema : list table.

Lemma rows_of_empty t : rows_of ∅ t = [].
Proof. unfold rows_of. now rewrite lookup_empty. Qed.

Lemma all_distinct_nil key : all_distinct key [] = true.
Proof. reflexivity. Qed.

Lemma table_ok_empty T : table_ok ∅ T = true.
Proof.
  unfold table_ok. rewrite rows_of_empty. cbn.
  rewrite andb_true_r. apply forallb_forall. intros key _. reflexivity.
Qed.

Lemma db_ok_empty : db_ok schema ∅ = true.
Proof.
  unfold db_ok. apply forallb_forall. intros T _. apply table_ok_empty.
Qed.

Lemma checked_ok db db' : checked schema db = Some db' -> db_ok schema db' = true.
Proof.
  unfold checked. destruct (db_ok schema db) eqn:E; [|discriminate].
  intros [= <-]. exact E.
Qed.

Lemma exec_ok s db db' : exec schema s db = Some db' -> db_ok schema db' = true.
Proof.
  destruct s as [t vals | t set where_ | t where_]; cbn;
    destruct (find_table schema t) as [T|]; try discriminate.
  - destruct (names_ok T vals); [apply checked_ok | discriminate].
  - destruct (names_ok T set); [apply checked_ok | discriminate].
  - apply checked_ok.
Qed.

(** Every constraint of the schema holds in every reachable database. *)
Lemma reachable_ok db : reachable schema db -> db_ok schema db = true.
Proof.
  induction 1 as [| db s db' _ _ Hexec].
  - apply db_ok_empty.
  - eapply exec_ok; eassumption.
Qed.

Lemma run_reachable prog db db' :
  reachable schema db -> run schema prog db = Some db' -> reachable schema db'.
Proof.
  revert db. induction prog as [| s rest IH]; intros db Hr; cbn.
  - now intros [= <-].
  - destruct (exec schema s db) as [db1|] eqn:E; [|discriminate].
    intros Hrun. apply (IH db1); [|exact Hrun].
    eapply reach_exec; eassumption.
Qed.

Lemma result_reachable prog :
  succeeds (run schema prog ∅) = true -> reachable schema (result schema prog).
Proof.
  unfold result. destruct (run schema prog ∅) as [db|] eqn:E; [|discriminate].
  intros _. apply (run_reachable prog ∅ db); [constructor | exact E].
Qed.

Lemma lookup_default (rows : list row) i :
  (i < length rows)%nat -> rows !! i = Some (default ∅ (rows !! i)).
Proof.
  intros H. destruct (rows !! i) eqn:E; [reflexivity|].
  apply lookup_ge_None in E. lia.
Qed.

Lemma succeeds_default (o : option database) :
  succeeds o = true -> o = Some (default ∅ o).
Proof. destruct o; [reflexivity | discriminate]. Qed.

Lemma db_ok_table db T :
  db_ok schema db = true -> In T schema -> table_ok db T = true.
Proof.
  unfold db_ok. intros H HT. rewrite forallb_forall in H. now apply H.
Qed.

Lemma table_ok_row db T r :
  table_ok db T = true -> In r (rows_of db (tbl_name T)) -> row_ok T r = true.
Proof.
  unfold table_ok. rewrite !andb_true_iff. intros [[H _] _] Hr.
  rewrite forallb_forall in H. now apply H.
Qed.

Lemma table_ok_key db T key :
  table_ok db T = true -> In key (unique_keys T) ->
  all_distinct key (rows_of db (tbl_name T)) = true.
Proof.
  unfold table_ok. rewrite !andb_true_iff. intros [[_ H] _] Hk.
  rewrite forallb_forall in H. now apply H.
Qed.

Lemma row_ok_not_null T r c :
  row_ok T r = true -> In c (tbl_columns T) -> is_not_null c = true ->
  field r (col_name c) <> Null.
Proof.
  unfold row_ok. intros H Hc Hn. rewrite forallb_forall in H.
  specialize (H c Hc). unfold col_ok in H. rewrite Hn in H. cbn in H.
  intros E. rewrite E in H. discriminate.
Qed.

Lemma row_ok_rowid T r c :
  row_ok T r = true -> In c (tbl_columns T) -> is_rowid_alias c = true ->
  exists z, field r (col_name c) = Int z.
Proof.
  unfold row_ok. intros H Hc Hn. rewrite forallb_forall in H.
  specialize (H c Hc). unfold col_ok in H. rewrite Hn in H.
  rewrite !andb_true_iff in H. destruct H as [[_ H] _]. cbn in H.
  destruct (field r (col_name c)); try discriminate. eauto.
Qed.

(** Rows at two different positions never collide on a unique key. *)
Lemma all_distinct_lookup key (rows : list row) i j r1 r2 :
  all_distinct key rows = true -> (i < j)%nat ->
  rows !! i = Some r1 -> rows !! j = Some r2 ->
  key_conflict key r1 r2 = false.
Proof.
  revert i j. induction rows as [| r rest IH]; intros i j Hd Hij Hi Hj.
  - discriminate.
  - cbn in Hd. apply andb_true_iff in Hd as [Hhead Htail].
    destruct i as [|i]; destruct j as [|j]; try lia.
    + cbn in Hi, Hj. injection Hi as <-.
      rewrite forallb_forall in Hhead.
      apply negb_true_iff. apply Hhead.
      apply list_elem_of_In. eapply list_elem_of_lookup_2; eassumption.
    + cbn in Hi, Hj. apply (IH i j); auto. lia.
Qed.

Lemma key_conflict_true key (r1 r2 : row) :
  (forall c, In c key -> field r1 c <> Null /\ field r1 c = field r2 c) ->
  key_conflict key r1 r2 = true.
Proof.
  intros H. unfold key_conflict. apply forallb_forall. intros c Hc.
  destruct (H c Hc) as [Hn He]. apply andb_true_iff. split.
  - destruct (field r1 c); cbn; congruence.
  - now apply bool_decide_eq_true.
Qed.

(** The working form of a uniqueness constraint: two rows of a table
    that agree on a key, with no NULL in it, are the same row. *)
Lemma unique_key_positions db T key i j r1 r2 :
  table_ok db T = true -> In key (unique_keys T) ->
  rows_of db (tbl_name T) !! i = Some r1 ->
  rows_of db (tbl_name T) !! j = Some r2 ->
  (forall c, In c key -> field r1 c <> Null /\ field r1 c = field r2 c) ->
  i = j.
Proof.
  intros Hok Hkey Hi Hj Hagree.
  pose proof (table_ok_key _ _ _ Hok Hkey) as Hd.
  destruct (Nat.lt_trichotomy i j) as [Hlt | [Heq | Hgt]]; [|exact Heq|].
  - pose proof (all_distinct_lookup _ _ _ _ _ _ Hd Hlt Hi Hj) as Hc.
    rewrite (key_conflict_true _ _ _ Hagree) in Hc. discriminate.
  - pose proof (all_distinct_lookup _ _ _ _ _ _ Hd Hgt Hj Hi) as Hc.
    rewrite key_conflict_true in Hc; [discriminate|].
    intros c Hin. destruct (Hagree c Hin) as [Hn He]. split; congruence.
Qed.

End EngineFacts.

(** ** The schema *)

Section SchemaTheorems.
Import Sqlite Schema Layout Samples.

Lemma reachable_table_ok db T :
  reachable schema db -> In T schema -> table_ok db T = true.
Proof.
  intros Hr HT. apply (db_ok_table schema); [|exact HT].
  now apply reachable_ok.
Qed.

Lemma lookup_In (rows : list row) i r : rows !! i = Some r -> In r rows.
Proof.
  intros H. apply list_elem_of_In. eapply list_elem_of_lookup_2; eassumption.
Qed.

(** The value an INSERT stores under a column name. *)
Lemma field_new_row T vals rows name :
  field (new_row T vals rows) name =
  match find (fun c => String.eqb (col_name c) name) (tbl_columns T) with
  | Some c => stored vals rows c
  | None => Null
  end.
Proof.
  unfold new_row, field. induction (tbl_columns T) as [| c cols IH]; cbn.
  - now rewrite lookup_empty.
  - destruct (String.eqb_spec (col_name c) name) as [-> | Hne].
    + now rewrite lookup_insert_eq.
    + rewrite lookup_insert_ne by exact Hne. exact IH.
Qed.

Lemma rows_of_insert (db : database) t rows : rows_of (<[t := rows]> db) t = rows.
Proof. unfold rows_of. now rewrite lookup_insert_eq. Qed.

(** A successful INSERT appends exactly one row, built by [new_row]. *)
Lemma exec_insert_rows t vals db db' T :
  find_table schema t = Some T ->
  exec schema (INSERT t vals) db = Some db' ->
  rows_of db' t = rows_of db t ++ [new_row T vals (rows_of db t)].
Proof.
  intros HT. cbn [exec]. rewrite HT. destruct (names_ok T vals); [|discriminate].
  unfold checked. destruct (db_ok schema _); [|discriminate].
  intros [= <-]. apply rows_of_insert.
Qed.

(** *** workflow_steps *)

Lemma two_steps_reachable : reachable schema two_steps_db.
Proof. apply result_reachable. vm_compute. reflexivity. Qed.

Lemma step_lookup i :
  (i < 2)%nat -> rows_of two_steps_db "workflow_steps" !! i = Some (step i).
Proof.
  intros H. apply lookup_default.
  replace (length (rows_of two_steps_db "workflow_steps")) with 2%nat
    by (vm_compute; reflexivity).
  exact H.
Qed.

(** A third step that reuses order 2 of the same instance is refused,
    and so is moving step s-1 onto order 2. *)
Example duplicate_step_order_refused :
  exec schema
    (INSERT "workflow_steps"
       [ ("step_id", Text "s-3"); ("instance_id", Text "wf-1");
         ("step_name", Text "segment"); ("step_type", Text "SEGMENT");
         ("step_order", Int 2);
         ("created_at", Text "2025-01-01"); ("updated_at", Text "2025-01-01") ])
    two_steps_db = None
  /\ exec schema
       (UPDATE "workflow_steps" [("step_order", Int 2)]
               (fun r => bool_decide (field r "step_id" = Text "s-1")))
       two_steps_db = None.
Proof. split; vm_compute; reflexivity. Qed.

(** Deleting the task takes its workflow instance and both steps with
    it (ON DELETE CASCADE, two levels deep). *)
Example delete_task_cascades :
  match exec schema (DELETE "submission_task" (fun _ => true)) two_steps_db with
  | Some db => (length (rows_of db "workflow_instances"),
                length (rows_of db "workflow_steps"))
  | None => (1%nat, 2%nat)
  end = (0%nat, 0%nat).
Proof. vm_compute. reflexivity. Qed.

(** C1.  In every database the application can reach, two rows of
    workflow_steps with the same instance_id and the same step_order
    are one and the same row: the UNIQUE (instance_id, step_order)
    constraint of the schema holds for every pair of rows, whatever
    INSERT, UPDATE or DELETE statements produced them. *)
Theorem workflow_steps_order_unique db :
  reachable schema db ->
  no_two_rows_share "workflow_steps" ["instance_id"; "step_order"] db.
Proof.
  intros Hr i j r1 r2 Hi Hj Hsame.
  assert (HT : In workflow_steps schema) by (cbn; tauto).
  pose proof (reachable_table_ok db _ Hr HT) as Hok.
  apply (unique_key_positions db workflow_steps
           ["instance_id"; "step_order"] i j r1 r2 Hok);
    [cbn; tauto | exact Hi | exact Hj |].
  pose proof (table_ok_row db workflow_steps r1 Hok (lookup_In _ _ _ Hi)) as Hrow.
  intros c Hc. split; [|now apply Hsame].
  destruct Hc as [<- | [<- | []]].
  - apply (row_ok_not_null workflow_steps r1 (Col "instance_id" TEXT [NOT_NULL]));
      [exact Hrow | cbn; tauto | reflexivity].
  - apply (row_ok_not_null workflow_steps r1 (Col "step_order" INTEGER [NOT_NULL]));
      [exact Hrow | cbn; tauto | reflexivity].
Qed.

Lemma workflow_steps_order_unique_witness :
  reachable schema two_steps_db
  /\ field (step 0) "instance_id" = field (step 1) "instance_id"
  /\ field (step 0) "step_order" <> field (step 1) "step_order".
Proof.
  split; [exact two_steps_reachable|].
  split; [vm_compute; reflexivity|].
  intros E.
  assert (F : 0%nat = 1%nat); [|discriminate F].
  apply (workflow_steps_order_unique two_steps_db two_steps_reachable
           0%nat 1%nat (step 0) (step 1)
           (step_lookup 0 ltac:(lia)) (step_lookup 1 ltac:(lia))).
  intros c [<- | [<- | []]]; [vm_compute; reflexivity | exact E].
Defined.

(** *** live_record_task *)

Lemma same_segment_reachable : reachable schema same_segment_db.
Proof. apply result_reachable. vm_compute. reflexivity. Qed.

Lemma recording_lookup i :
  (i < 2)%nat ->
  rows_of same_segment_db "live_record_task" !! i = Some (recording i).
Proof.
  intros H. apply lookup_default.
  replace (length (rows_of same_segment_db "live_record_task")) with 2%nat
    by (vm_compute; reflexivity).
  exact H.
Qed.

(** C3, as stated, fails: the schema accepts two recordings of room
    12345 that both carry segment_index 1. *)
Lemma live_record_task_segment_index_repeats :
  reachable schema same_segment_db
  /\ ~ no_two_rows_share "live_record_task" ["room_id"; "segment_index"]
        same_segment_db.
Proof.
  split; [exact same_segment_reachable|].
  intros H.
  specialize (H 0%nat 1%nat (recording 0) (recording 1)
                (recording_lookup 0 ltac:(lia)) (recording_lookup 1 ltac:(lia))).
  assert (E : 0%nat = 1%nat); [|discriminate E].
  apply H. intros c [<- | [<- | []]]; vm_compute; reflexivity.
Qed.

(** C3, amended.  What the layout does guarantee for live_record_task:
    every row has a room_id and a segment_index (both NOT NULL), and the
    only key the schema declares for the table is id, so no two rows
    share an id.  Keeping the segment indices of a room increasing and
    free of duplicates is left to whoever writes the rows. *)
Theorem live_record_task_keyed_by_id_only db :
  reachable schema db ->
  unique_keys live_record_task = [["id"]]
  /\ no_two_rows_share "live_record_task" ["id"] db
  /\ (forall r, In r (rows_of db "live_record_task") ->
        field r "room_id" <> Null /\ field r "segment_index" <> Null).
Proof.
  intros Hr.
  assert (HT : In live_record_task schema) by (cbn; tauto).
  pose proof (reachable_table_ok db _ Hr HT) as Hok.
  split; [reflexivity|]. split.
  - intros i j r1 r2 Hi Hj Hsame.
    apply (unique_key_positions db live_record_task ["id"] i j r1 r2 Hok);
      [cbn; tauto | exact Hi | exact Hj |].
    pose proof (table_ok_row db live_record_task r1 Hok (lookup_In _ _ _ Hi)) as Hrow.
    intros c Hc. split; [|now apply Hsame].
    destruct Hc as [<- | []].
    destruct (row_ok_rowid live_record_task r1
                (Col "id" INTEGER [PRIMARY_KEY; AUTOINCREMENT]) Hrow)
      as [z Hz]; [cbn; tauto | reflexivity |].
    cbn in Hz. rewrite Hz. discriminate.
  - intros r Hin.
    pose proof (table_ok_row db live_record_task r Hok Hin) as Hrow. split.
    + apply (row_ok_not_null live_record_task r (Col "room_id" TEXT [NOT_NULL]));
        [exact Hrow | cbn; tauto | reflexivity].
    + apply (row_ok_not_null live_record_task r (Col "segment_index" INTEGER [NOT_NULL]));
        [exact Hrow | cbn; tauto | reflexivity].
Qed.

Lemma live_record_task_keyed_by_id_only_witness :
  reachable schema same_segment_db
  /\ field (recording 0) "id" <> field (recording 1) "id".
Proof.
  split; [exact same_segment_reachable|].
  destruct (live_record_task_keyed_by_id_only same_segment_db same_segment_reachable)
    as (_ & Hid & _).
  intros E.
  specialize (Hid 0%nat 1%nat (recording 0) (recording 1)
                  (recording_lookup 0 ltac:(lia)) (recording_lookup 1 ltac:(lia))).
  assert (F : 0%nat = 1%nat); [|discriminate F].
  apply Hid. intros c [<- | []]. exact E.
Defined.

(** *** merged_video and task_output_segment *)

(** The script puts no constraint between the two columns: it takes a
    merged_video row whose upload_uploaded_bytes is set to 5 while
    upload_total_bytes is still 0.  Keeping the first below the second
    is left to the code that writes them, the uploader, which is not
    among the sources. *)
Lemma upload_bytes_not_enforced :
  reachable schema overrun_db /\ ~ upload_bytes_bounded overrun_db.
Proof.
  split; [apply result_reachable; vm_compute; reflexivity|].
  intros H.
  assert (Hin : In overrun_row (rows_of overrun_db "merged_video")).
  { apply (lookup_In _ 0%nat). apply lookup_default. vm_compute. lia. }
  specialize (H overrun_row (or_introl Hin) 5%Z 0%Z).
  assert (5 <= 0)%Z; [|lia].
  apply H; vm_compute; reflexivity.
Qed.

Lemma find_upload_tables t :
  t = "merged_video" \/ t = "task_output_segment" ->
  exists T, find_table schema t = Some T
    /\ find (fun c => String.eqb (col_name c) "upload_uploaded_bytes") (tbl_columns T)
       = Some (Col "upload_uploaded_bytes" INTEGER [DEFAULT (Int 0)])
    /\ find (fun c => String.eqb (col_name c) "upload_total_bytes") (tbl_columns T)
       = Some (Col "upload_total_bytes" INTEGER [DEFAULT (Int 0)]).
Proof.
  intros [-> | ->]; [exists merged_video | exists task_output_segment];
    repeat split; reflexivity.
Qed.

(** A merged_video or task_output_segment row created without a value
    for the two columns gets upload_uploaded_bytes = 0 and
    upload_total_bytes = 0 from their DEFAULTs, so
    upload_uploaded_bytes ≤ upload_total_bytes holds for it. *)
Theorem fresh_upload_bytes_default t vals db db' :
  t = "merged_video" \/ t = "task_output_segment" ->
  assigned vals "upload_uploaded_bytes" = None ->
  assigned vals "upload_total_bytes" = None ->
  exec schema (INSERT t vals) db = Some db' ->
  exists r, rows_of db' t = rows_of db t ++ [r]
    /\ field r "upload_uploaded_bytes" = Int 0
    /\ field r "upload_total_bytes" = Int 0
    /\ upload_within_total r.
Proof.
  intros Ht Hup Htot Hexec.
  destruct (find_upload_tables t Ht) as (T & HT & Hcu & Hct).
  exists (new_row T vals (rows_of db t)).
  assert (Eu : field (new_row T vals (rows_of db t)) "upload_uploaded_bytes" = Int 0).
  { rewrite field_new_row, Hcu. unfold stored. cbn. now rewrite Hup. }
  assert (Et : field (new_row T vals (rows_of db t)) "upload_total_bytes" = Int 0).
  { rewrite field_new_row, Hct. unfold stored. cbn. now rewrite Htot. }
  split; [now apply exec_insert_rows|]. split; [exact Eu|]. split; [exact Et|].
  intros a b Ha Hb. rewrite Eu in Ha. rewrite Et in Hb.
  injection Ha as <-. injection Hb as <-. lia.
Qed.

Lemma fresh_upload_bytes_default_witness :
  exists r,
    rows_of (default ∅ (exec schema (INSERT "task_output_segment" fresh_segment)
                             one_task_db)) "task_output_segment"
    = rows_of one_task_db "task_output_segment" ++ [r]
    /\ field r "upload_uploaded_bytes" = Int 0
    /\ field r "upload_total_bytes" = Int 0
    /\ upload_within_total r.
Proof.
  apply (fresh_upload_bytes_default "task_output_segment" fresh_segment one_task_db).
  - right; reflexivity.
  - reflexivity.
  - reflexivity.
  - apply succeeds_default. vm_compute. reflexivity.
Defined.

(** *** anchor and live_room_settings *)

(** No table of the script has a column for a sync-mirror path or a
    sync-mirror flag; no column name of the script even mentions sync.
    (AnchorSection.jsx saves these settings of a room through the
    backend and reads them back from it: where the backend keeps them
    the sources do not show.) *)
Lemma no_table_keeps_sync_mirror :
  ~ exists T, In T schema /\ keeps_sync_mirror T.
Proof.
  intros (T & HT & path & flag & Hp & _ & _ & Hm & _).
  assert (H : forallb no_sync_column schema = true) by (vm_compute; reflexivity).
  rewrite forallb_forall in H. specialize (H T HT).
  unfold no_sync_column in H. rewrite forallb_forall in H.
  specialize (H path Hp). rewrite Hm in H. discriminate.
Qed.

(** A room subscribed without saying so is recorded automatically:
    auto_record takes its DEFAULT 1. *)
Example auto_record_default : field room_settings "auto_record" = Int 1.
Proof. vm_compute. reflexivity. Qed.

(** What the script declares for a subscribed room: in anchor, the
    room id (uid, never NULL and unique), the display name (nickname),
    the live status and the last-check time, and, in
    live_room_settings, the auto-record flag (auto_record, never NULL).
    These two tables have exactly the columns listed. *)
Theorem anchor_layout db :
  reachable schema db ->
  column_names anchor
  = ["id"; "uid"; "nickname"; "live_status"; "last_check_time";
     "create_time"; "update_time"]
  /\ column_names live_room_settings = ["room_id"; "auto_record"; "update_time"]
  /\ no_two_rows_share "anchor" ["uid"] db
  /\ (forall r, In r (rows_of db "anchor") -> field r "uid" <> Null)
  /\ (forall r, In r (rows_of db "live_room_settings") ->
        field r "auto_record" <> Null).
Proof.
  intros Hr.
  assert (HA : In anchor schema) by (cbn; tauto).
  assert (HS : In live_room_settings schema) by (cbn; tauto).
  pose proof (reachable_table_ok db _ Hr HA) as HokA.
  pose proof (reachable_table_ok db _ Hr HS) as HokS.
  assert (Huid : forall r, In r (rows_of db "anchor") -> field r "uid" <> Null).
  { intros r Hin.
    apply (row_ok_not_null anchor r (Col "uid" TEXT [NOT_NULL; UNIQUE]));
      [exact (table_ok_row db anchor r HokA Hin) | cbn; tauto | reflexivity]. }
  split; [reflexivity|]. split; [reflexivity|]. split; [|split].
  - intros i j r1 r2 Hi Hj Hsame.
    apply (unique_key_positions db anchor ["uid"] i j r1 r2 HokA);
      [cbn; tauto | exact Hi | exact Hj |].
    intros c Hc. split; [|now apply Hsame].
    destruct Hc as [<- | []]. apply Huid. exact (lookup_In _ _ _ Hi).
  - exact Huid.
  - intros r Hin.
    apply (row_ok_not_null live_room_settings r
             (Col "auto_record" INTEGER [NOT_NULL; DEFAULT (Int 1)]));
      [exact (table_ok_row db live_room_settings r HokS Hin) | cbn; tauto | reflexivity].
Qed.

Lemma anchor_layout_witness :
  reachable schema one_room_db /\ field room_settings "auto_record" <> Null.
Proof.
  assert (Hr : reachable schema one_room_db)
    by (apply result_reachable; vm_compute; reflexivity).
  split; [exact Hr|].
  destruct (anchor_layout one_room_db Hr) as (_ & _ & _ & _ & Hauto).
  apply Hauto. apply (lookup_In _ 0%nat). apply lookup_default. vm_compute. lia.
Defined.

End SchemaTheorems.

(** ** JavaScript numbers, strings and regular expressions *)

Section NumberFacts.
Import JS Interval.

Lemma Qred_inject_Z z : Qred (inject_Z z) = inject_Z z.
Proof.
  unfold Qred, inject_Z.
  pose proof (Z.ggcd_gcd z 1) as Hg.
  pose proof (Z.ggcd_correct_divisors z 1) as Hd.
  destruct (Z.ggcd z 1) as [g [a b]]. cbn in *.
  rewrite Z.gcd_1_r in Hg. subst g. destruct Hd as [Ha Hb].
  rewrite Z.mul_1_l in Ha, Hb. subst a b. reflexivity.
Qed.

Lemma add_of_Z a b : add (of_Z a) (of_Z b) = of_Z (a + b).
Proof.
  unfold add, of_Z. f_equal.
  rewrite (Qred_complete _ (inject_Z (a + b))); [apply Qred_inject_Z|].
  now rewrite inject_Z_plus.
Qed.

Lemma mul_of_Z a b : mul (of_Z a) (of_Z b) = of_Z (a * b).
Proof.
  unfold mul, of_Z. f_equal.
  rewrite (Qred_complete _ (inject_Z (a * b))); [apply Qred_inject_Z|].
  now rewrite inject_Z_mult.
Qed.

Lemma Qlt_b_true p q : Qlt_b p q = true <-> (p < q)%Q.
Proof.
  unfold Qlt_b. rewrite negb_true_iff. split.
  - intros H. apply Qnot_le_lt. intros Hle.
    apply Qle_bool_iff in Hle. congruence.
  - intros H. destruct (Qle_bool q p) eqn:E; [|reflexivity].
    apply Qle_bool_iff in E. exfalso. exact (Qlt_not_le _ _ H E).
Qed.

Lemma Qlt_b_false p q : Qlt_b p q = false <-> (q <= p)%Q.
Proof.
  unfold Qlt_b. rewrite negb_false_iff. apply Qle_bool_iff.
Qed.

Lemma lt_of_Z a b : lt (of_Z a) (of_Z b) = (a <? b)%Z.
Proof.
  cbn. destruct (Z.ltb_spec a b) as [H | H].
  - apply Qlt_b_true. now rewrite <- Zlt_Qlt.
  - apply Qlt_b_false. now rewrite <- Zle_Qle.
Qed.




(** [Number] on a few strings, as the language defines it. *)
Example StringToNumber_samples :
  StringToNumber "42" = of_Z 42
  /\ StringToNumber " 07 " = of_Z 7
  /\ StringToNumber "" = of_Z 0
  /\ StringToNumber "1.5" = Finite (3 # 2)
  /\ StringToNumber "-1e3" = Finite (- 1000 # 1)
  /\ StringToNumber "0x1F" = of_Z 31
  /\ StringToNumber "-Infinity" = Infinity true
  /\ StringToNumber "12px" = NaN
  /\ StringToNumber "." = NaN
  /\ StringToNumber "-0x1F" = NaN.
Proof. repeat split; vm_compute; reflexivity. Qed.

End NumberFacts.

Section StringFacts.
Import JS.

Lemma append_cons c s t : (String c s ++ t)%string = String c (s ++ t).
Proof. reflexivity. Qed.

Lemma append_nil_l s : ("" ++ s)%string = s.
Proof. reflexivity. Qed.

Lemma append_nil_r s : (s ++ "")%string = s.
Proof.
  induction s as [| c s IH]; [reflexivity|].
  now rewrite append_cons, IH.
Qed.

Lemma append_assoc a b c : ((a ++ b) ++ c)%string = (a ++ (b ++ c))%string.
Proof.
  induction a as [| x a IH]; [reflexivity|].
  now rewrite !append_cons, IH.
Qed.

Lemma split_free sep s : free_of sep s = true -> split sep s = [s].
Proof.
  induction s as [| c s IH]; cbn; [reflexivity|].
  intros H. apply andb_true_iff in H as [Hc Hs].
  apply negb_true_iff in Hc. rewrite Hc, (IH Hs). reflexivity.
Qed.

Lemma split_app sep a b :
  free_of sep a = true -> split sep (a ++ String sep b) = a :: split sep b.
Proof.
  induction a as [| c a IH].
  - intros _. rewrite append_nil_l. cbn. now rewrite Ascii.eqb_refl.
  - intros H. cbn in H. apply andb_true_iff in H as [Hc Ha].
    apply negb_true_iff in Hc. rewrite append_cons. cbn [split].
    rewrite Hc, (IH Ha). reflexivity.
Qed.

End StringFacts.

Section RegexFacts.
Import JS.

Lemma at_end_true s : at_end s = true <-> s = "".
Proof. destruct s; cbn; split; congruence. Qed.

(** The matcher finds exactly the ways of cutting the input into a word
    of the language and a rest that the continuation accepts. *)
Lemma matches_spec r :
  forall s k,
    matches r s k = true <->
    exists s1 s2, s = (s1 ++ s2)%string /\ lang r s1 /\ k s2 = true.
Proof.
  induction r as [c | lo hi | r1 IH1 r2 IH2 | r1 IH1 r2 IH2 | r1 IH1];
    intros s k; cbn [matches lang].
  - split.
    + destruct s as [| x rest]; [discriminate|].
      intros H. apply andb_true_iff in H as [Hx Hk].
      apply Ascii.eqb_eq in Hx. subst x.
      exists (String c ""), rest. auto.
    + intros (s1 & s2 & -> & -> & Hk). rewrite append_cons, append_nil_l.
      now rewrite Ascii.eqb_refl.
  - split.
    + destruct s as [| x rest]; [discriminate|].
      intros H. apply andb_true_iff in H as [Hx Hk].
      exists (String x ""), rest. eauto.
    + intros (s1 & s2 & -> & (x & -> & Hx) & Hk).
      rewrite append_cons, append_nil_l. now rewrite Hx.
  - rewrite IH1. split.
    + intros (s1 & s2 & -> & H1 & H2). apply IH2 in H2 as (t1 & t2 & -> & Ht1 & Hk).
      exists (s1 ++ t1)%string, t2. rewrite append_assoc. eauto 7.
    + intros (s12 & s3 & -> & (s1 & s2 & -> & H1 & H2) & Hk).
      exists s1, (s2 ++ s3)%string. rewrite append_assoc.
      split; [reflexivity|]. split; [exact H1|].
      apply IH2. eauto.
  - rewrite orb_true_iff, IH1, IH2. split.
    + intros [(s1 & s2 & E & H & Hk) | (s1 & s2 & E & H & Hk)]; eauto 7.
    + intros (s1 & s2 & E & [H | H] & Hk); eauto 7.
  - rewrite orb_true_iff, IH1. split.
    + intros [(s1 & s2 & E & H & Hk) | Hk]; [eauto 7|].
      exists "", s. auto.
    + intros (s1 & s2 & E & [H | ->] & Hk); [eauto 7|].
      right. now subst s.
Qed.

Lemma test_anchored_lang r s : test_anchored r s = true <-> lang r s.
Proof.
  unfold test_anchored. rewrite matches_spec. split.
  - intros (s1 & s2 & -> & H & Hk). apply at_end_true in Hk. subst s2.
    now rewrite append_nil_r.
  - intros H. exists s, "". rewrite append_nil_r. auto.
Qed.

End RegexFacts.

(** ** DownloadSection.jsx: trim times *)

Section TimeFacts.
Import JS Download TimeFormat.

Lemma code_digit_char d : (d < 10)%nat -> code (digit_char d) = (48 + d)%nat.
Proof.
  intros H. unfold code, digit_char. apply nat_ascii_embedding. lia.
Qed.

Lemma in_range_digit_char hi d :
  (d < 10)%nat -> (48 + d <= code hi)%nat ->
  in_range "0" hi (digit_char d) = true.
Proof.
  intros Hd Hhi. unfold in_range. rewrite (code_digit_char d Hd).
  change (code "0") with 48%nat.
  apply andb_true_iff. split; apply Nat.leb_le; [lia | exact Hhi].
Qed.

Lemma in_range_is_digit hi x :
  in_range "0" hi x = true ->
  exists d, x = digit_char d /\ (48 + d <= code hi)%nat.
Proof.
  unfold in_range. intros H. apply andb_true_iff in H as [Hlo Hhi].
  apply Nat.leb_le in Hlo, Hhi. change (code "0") with 48%nat in Hlo.
  exists (code x - 48)%nat. split; [|lia].
  unfold digit_char. replace (48 + (code x - 48))%nat with (code x) by lia.
  symmetry. apply ascii_nat_embedding.
Qed.

Lemma two_digits_of d1 d2 :
  (d2 < 10)%nat ->
  two_digits (10 * d1 + d2) = String (digit_char d1) (String (digit_char d2) "").
Proof.
  intros H. unfold two_digits.
  replace ((10 * d1 + d2) / 10)%nat with d1
    by (apply (Nat.div_unique _ 10 d1 d2); lia).
  replace ((10 * d1 + d2) mod 10)%nat with d2
    by (apply (Nat.mod_unique _ 10 d1 d2); lia).
  reflexivity.
Qed.

(** [[0-t][0-9]] is the set of two-digit numerals below [10 * (t + 1)]. *)
Lemma lang_two_digits t s :
  (t < 10)%nat ->
  lang (Seq (Range "0" (digit_char t)) (Range "0" "9")) s <->
  exists n, (n < 10 * (t + 1))%nat /\ s = two_digits n.
Proof.
  intros Ht. cbn [lang]. split.
  - intros (s1 & s2 & -> & (x1 & -> & H1) & (x2 & -> & H2)).
    apply in_range_is_digit in H1 as (d1 & -> & Hd1).
    apply in_range_is_digit in H2 as (d2 & -> & Hd2).
    rewrite (code_digit_char t Ht) in Hd1. change (code "9") with 57%nat in Hd2.
    exists (10 * d1 + d2)%nat. split; [lia|].
    rewrite two_digits_of by lia. reflexivity.
  - intros (n & Hn & ->).
    exists (String (digit_char (n / 10)) ""), (String (digit_char (n mod 10)) "").
    assert (Hq : (n / 10 <= t)%nat).
    { apply Nat.lt_succ_r. apply Nat.Div0.div_lt_upper_bound. lia. }
    assert (Hr : (n mod 10 < 10)%nat) by (apply Nat.mod_upper_bound; lia).
    split; [reflexivity|]. split.
    + eexists. split; [reflexivity|].
      apply in_range_digit_char; [lia|]. rewrite (code_digit_char t Ht). lia.
    + eexists. split; [reflexivity|].
      apply in_range_digit_char; [lia|]. change (code "9") with 57%nat. lia.
Qed.

Lemma time_regex_parts : time_regex = Seq hours_regex minutes_seconds_regex.
Proof. reflexivity. Qed.

(** [[0-1]?[0-9]|2[0-3]]: the hours 00 to 23, or 0 to 9 in one digit. *)
Lemma lang_hours s :
  lang hours_regex s <->
  (exists h, (h <= 23)%nat /\ s = two_digits h)
  \/ (exists h, (h <= 9)%nat /\ s = one_digit h).
Proof.
  unfold hours_regex. cbn [lang]. split.
  - intros [(s1 & s2 & -> & [H1 | ->] & H2) | (s1 & s2 & -> & -> & (x & -> & Hx))].
    + left.
      assert (L : lang (Seq (Range "0" (digit_char 1)) (Range "0" "9")) (s1 ++ s2)).
      { cbn [lang]. exists s1, s2. auto. }
      apply (lang_two_digits 1) in L as (n & Hn & E); [|lia].
      exists n. split; [lia | exact E].
    + right. destruct H2 as (x & -> & Hx).
      apply in_range_is_digit in Hx as (d & -> & Hd).
      change (code "9") with 57%nat in Hd. exists d. split; [lia | reflexivity].
    + left. apply in_range_is_digit in Hx as (d & -> & Hd).
      change (code "3") with 51%nat in Hd.
      exists (10 * 2 + d)%nat. split; [lia|].
      rewrite two_digits_of by lia. reflexivity.
  - intros [(h & Hh & ->) | (h & Hh & ->)].
    + destruct (Nat.lt_ge_cases h 20) as [Hlt | Hge].
      * left.
        assert (L : lang (Seq (Range "0" (digit_char 1)) (Range "0" "9")) (two_digits h)).
        { apply (lang_two_digits 1); [lia|]. exists h. split; [lia | reflexivity]. }
        cbn [lang] in L. destruct L as (s1 & s2 & E & L1 & L2).
        exists s1, s2. auto.
      * right.
        replace h with (10 * 2 + (h - 20))%nat by lia.
        rewrite two_digits_of by lia.
        exists "2", (String (digit_char (h - 20)) "").
        split; [reflexivity|]. split; [reflexivity|].
        eexists. split; [reflexivity|].
        apply in_range_digit_char; [lia|]. change (code "3") with 51%nat. lia.
    + left. exists "", (one_digit h).
      split; [reflexivity|]. split; [now right|].
      eexists. split; [reflexivity|].
      apply in_range_digit_char; [lia|]. change (code "9") with 57%nat. lia.
Qed.

(** [:[0-5][0-9]:[0-5][0-9]]: minutes and seconds, 00 to 59 each. *)
Lemma lang_minutes_seconds s :
  lang minutes_seconds_regex s <->
  exists m sec, (m <= 59 /\ sec <= 59)%nat
    /\ s = (":" ++ two_digits m ++ ":" ++ two_digits sec)%string.
Proof.
  unfold minutes_seconds_regex. cbn [lang]. split.
  - intros (c1 & r1 & -> & -> & m1 & r2 & -> & (x1 & -> & H1)
            & m2 & r3 & -> & (x2 & -> & H2)
            & c2 & r4 & -> & -> & e1 & e2 & -> & (x3 & -> & H3) & (x4 & -> & H4)).
    apply in_range_is_digit in H1 as (d1 & -> & Hd1).
    apply in_range_is_digit in H2 as (d2 & -> & Hd2).
    apply in_range_is_digit in H3 as (d3 & -> & Hd3).
    apply in_range_is_digit in H4 as (d4 & -> & Hd4).
    change (code "5") with 53%nat in Hd1, Hd3.
    change (code "9") with 57%nat in Hd2, Hd4.
    exists (10 * d1 + d2)%nat, (10 * d3 + d4)%nat. split; [lia|].
    rewrite !two_digits_of by lia. reflexivity.
  - intros (m & sec & [Hm Hs] & ->).
    assert (Hm1 : (m / 10 <= 5)%nat)
      by (apply Nat.lt_succ_r, Nat.Div0.div_lt_upper_bound; lia).
    assert (Hs1 : (sec / 10 <= 5)%nat)
      by (apply Nat.lt_succ_r, Nat.Div0.div_lt_upper_bound; lia).
    assert (Hm2 : (m mod 10 < 10)%nat) by (apply Nat.mod_upper_bound; lia).
    assert (Hs2 : (sec mod 10 < 10)%nat) by (apply Nat.mod_upper_bound; lia).
    exists ":", (two_digits m ++ ":" ++ two_digits sec)%string.
    split; [reflexivity|]. split; [reflexivity|].
    exists (String (digit_char (m / 10)) ""),
           (String (digit_char (m mod 10)) (":" ++ two_digits sec))%string.
    split; [reflexivity|]. split.
    { eexists. split; [reflexivity|].
      apply in_range_digit_char; [lia|]. change (code "5") with 53%nat. lia. }
    exists (String (digit_char (m mod 10)) ""), (":" ++ two_digits sec)%string.
    split; [reflexivity|]. split.
    { eexists. split; [reflexivity|].
      apply in_range_digit_char; [lia|]. change (code "9") with 57%nat. lia. }
    exists ":", (two_digits sec).
    split; [reflexivity|]. split; [reflexivity|].
    exists (String (digit_char (sec / 10)) ""), (String (digit_char (sec mod 10)) "").
    split; [reflexivity|]. split.
    { eexists. split; [reflexivity|].
      apply in_range_digit_char; [lia|]. change (code "5") with 53%nat. lia. }
    eexists. split; [reflexivity|].
    apply in_range_digit_char; [lia|]. change (code "9") with 57%nat. lia.
Qed.

Lemma empty_false s : empty s = false <-> s <> "".
Proof.
  unfold empty. cbn. rewrite negb_involutive. split.
  - intros H ->. discriminate.
  - intros H. destruct s; [contradiction | reflexivity].
Qed.

Lemma empty_true s : empty s = true <-> s = "".
Proof.
  unfold empty. cbn. rewrite negb_involutive. destruct s; cbn; split; congruence.
Qed.

Lemma isValidTimeFormat_spec s : isValidTimeFormat s = true <-> well_formed s.
Proof.
  unfold isValidTimeFormat, well_formed.
  destruct (empty s) eqn:E.
  - apply empty_true in E. tauto.
  - apply empty_false in E.
    rewrite test_anchored_lang, time_regex_parts. cbn [lang]. split.
    + intros (s1 & s2 & -> & H1 & H2). right.
      apply lang_minutes_seconds in H2 as (m & sec & Hb & ->).
      apply lang_hours in H1 as [(h & Hh & ->) | (h & Hh & ->)].
      * left. exists h, m, sec. split; [lia | reflexivity].
      * right. exists h, m, sec. split; [lia | reflexivity].
    + intros [-> | [(h & m & sec & Hb & ->) | (h & m & sec & Hb & ->)]];
        [contradiction | |].
      * exists (two_digits h), (":" ++ two_digits m ++ ":" ++ two_digits sec)%string.
        split; [reflexivity|]. split.
        -- apply lang_hours. left. exists h. split; [lia | reflexivity].
        -- apply lang_minutes_seconds. exists m, sec. split; [lia | reflexivity].
      * exists (one_digit h), (":" ++ two_digits m ++ ":" ++ two_digits sec)%string.
        split; [reflexivity|]. split.
        -- apply lang_hours. right. exists h. split; [lia | reflexivity].
        -- apply lang_minutes_seconds. exists m, sec. split; [lia | reflexivity].
Qed.

(** *** timeToSeconds *)

Lemma StringToNumber_two_digits n :
  (n < 100)%nat -> StringToNumber (two_digits n) = of_Z (Z.of_nat n).
Proof.
  intros H.
  do 100 (destruct n as [| n]; [vm_compute; reflexivity|]).
  lia.
Qed.

Lemma StringToNumber_one_digit n :
  (n < 10)%nat -> StringToNumber (one_digit n) = of_Z (Z.of_nat n).
Proof.
  intros H.
  do 10 (destruct n as [| n]; [vm_compute; reflexivity|]).
  lia.
Qed.

Lemma free_two_digits n : (n < 100)%nat -> free_of ":" (two_digits n) = true.
Proof.
  intros H.
  do 100 (destruct n as [| n]; [vm_compute; reflexivity|]).
  lia.
Qed.

Lemma free_one_digit n : (n < 10)%nat -> free_of ":" (one_digit n) = true.
Proof.
  intros H.
  do 10 (destruct n as [| n]; [vm_compute; reflexivity|]).
  lia.
Qed.

Lemma split_three p0 p1 p2 :
  free_of ":" p0 = true -> free_of ":" p1 = true -> free_of ":" p2 = true ->
  split ":" (p0 ++ ":" ++ p1 ++ ":" ++ p2) = [p0; p1; p2].
Proof.
  intros H0 H1 H2.
  change (p0 ++ ":" ++ p1 ++ ":" ++ p2)%string
    with (p0 ++ String ":" (p1 ++ String ":" p2))%string.
  rewrite (split_app ":" p0 _ H0), (split_app ":" p1 _ H1), (split_free ":" p2 H2).
  reflexivity.
Qed.

Lemma three_parts_not_empty p0 p1 p2 :
  empty (p0 ++ ":" ++ p1 ++ ":" ++ p2) = false.
Proof.
  apply empty_false. destruct p0; discriminate.
Qed.

(** On three parts that are not NaN, [timeToSeconds] computes
    [parts[0] * 3600 + parts[1] * 60 + parts[2]]. *)
Lemma timeToSeconds_three p0 p1 p2 :
  free_of ":" p0 = true -> free_of ":" p1 = true -> free_of ":" p2 = true ->
  is_nan (StringToNumber p0) = false ->
  is_nan (StringToNumber p1) = false ->
  is_nan (StringToNumber p2) = false ->
  timeToSeconds (p0 ++ ":" ++ p1 ++ ":" ++ p2)
  = add (add (mul (StringToNumber p0) (of_Z 3600))
             (mul (StringToNumber p1) (of_Z 60)))
        (StringToNumber p2).
Proof.
  intros F0 F1 F2 N0 N1 N2. unfold timeToSeconds.
  rewrite three_parts_not_empty, (split_three p0 p1 p2 F0 F1 F2).
  cbn [map length Nat.eqb negb orb existsb nth].
  now rewrite N0, N1, N2.
Qed.

(** On three integer numerals the sum is that of the integers.  (In the
    exact arithmetic of [number]; the theorems use it below 2^53.) *)
Lemma timeToSeconds_numerals p0 p1 p2 h m sec :
  free_of ":" p0 = true -> free_of ":" p1 = true -> free_of ":" p2 = true ->
  StringToNumber p0 = of_Z h ->
  StringToNumber p1 = of_Z m ->
  StringToNumber p2 = of_Z sec ->
  timeToSeconds (p0 ++ ":" ++ p1 ++ ":" ++ p2)
  = of_Z (3600 * h + 60 * m + sec).
Proof.
  intros F0 F1 F2 E0 E1 E2.
  rewrite (timeToSeconds_three p0 p1 p2 F0 F1 F2);
    rewrite ?E0, ?E1, ?E2; try reflexivity.
  rewrite !mul_of_Z, !add_of_Z. f_equal. lia.
Qed.

Lemma timeToSeconds_HHMMSS h m sec :
  (h < 100 /\ m < 100 /\ sec < 100)%nat ->
  timeToSeconds (clock (two_digits h) m sec) = of_Z (seconds h m sec).
Proof.
  intros (Hh & Hm & Hs). unfold clock, seconds.
  apply timeToSeconds_numerals;
    auto using free_two_digits, StringToNumber_two_digits.
Qed.

Lemma timeToSeconds_HMMSS h m sec :
  (h < 10 /\ m < 100 /\ sec < 100)%nat ->
  timeToSeconds (clock (one_digit h) m sec) = of_Z (seconds h m sec).
Proof.
  intros (Hh & Hm & Hs). unfold clock, seconds.
  apply timeToSeconds_numerals;
    auto using free_two_digits, free_one_digit,
               StringToNumber_two_digits, StringToNumber_one_digit.
Qed.

Lemma timeToSeconds_empty : timeToSeconds "" = of_Z 0.
Proof. reflexivity. Qed.

(** Anything that does not split into exactly three numbers counts as 0. *)
Lemma timeToSeconds_malformed s :
  length (split ":" s) <> 3%nat
  \/ (exists p, In p (split ":" s) /\ StringToNumber p = NaN) ->
  timeToSeconds s = of_Z 0.
Proof.
  intros H. unfold timeToSeconds. destruct (empty s); [reflexivity|].
  rewrite length_map.
  destruct H as [Hlen | (p & Hp & Hnan)].
  - apply Nat.eqb_neq in Hlen. now rewrite Hlen.
  - assert (E : existsb is_nan (map StringToNumber (split ":" s)) = true).
    { apply existsb_exists. exists NaN. split; [|reflexivity].
      rewrite <- Hnan. now apply in_map. }
    rewrite E, orb_true_r. reflexivity.
Qed.

(** A well-formed, non-empty time is worth a whole number of seconds. *)
Lemma well_formed_seconds s :
  well_formed s -> s <> "" ->
  exists h m sec,
    (h <= 23 /\ m <= 59 /\ sec <= 59)%nat
    /\ timeToSeconds s = of_Z (seconds h m sec).
Proof.
  intros [-> | [(h & m & sec & Hb & ->) | (h & m & sec & Hb & ->)]] Hne;
    [contradiction | |]; exists h, m, sec.
  - split; [exact Hb|]. apply timeToSeconds_HHMMSS. lia.
  - split; [lia|]. apply timeToSeconds_HMMSS. lia.
Qed.

End TimeFacts.

(** ** DownloadSection.jsx: the integration form *)

Section Validation.
Import JS Download TimeFormat Interval Inputs.

Lemma validateParts_checks parts :
  forall index,
    validateParts index parts = Valid <-> Forall part_checks parts.
Proof.
  induction parts as [| p rest IH]; intros index; cbn [validateParts].
  - split; [intros _; constructor | reflexivity].
  - destruct (isValidTimeFormat (startTime p)) eqn:Es; cbn [negb].
    2: { split; [intros H; discriminate H|].
         intros H. inversion H as [| ? ? Hp _]. unfold part_checks in Hp.
         destruct Hp as (Hp & _). congruence. }
    destruct (isValidTimeFormat (endTime p)) eqn:Ee; cbn [negb].
    2: { split; [intros H; discriminate H|].
         intros H. inversion H as [| ? ? Hp _]. unfold part_checks in Hp.
         destruct Hp as (_ & Hp & _). congruence. }
    destruct (negb (empty (startTime p)) && negb (empty (endTime p))
              && ge (timeToSeconds (startTime p)) (timeToSeconds (endTime p))) eqn:E.
    + split; [intros H; discriminate H|].
      intros H. inversion H as [| ? ? Hp _]. unfold part_checks in Hp.
      destruct Hp as (_ & _ & Hp). congruence.
    + rewrite IH. split.
      * intros H. constructor; [|exact H]. unfold part_checks. auto.
      * intros H. now inversion H.
Qed.

(** A form is accepted only if the loop over its parts accepts them. *)
Lemma validateIntegrationForm_parts st :
  validateIntegrationForm st = Valid ->
  validateParts 0 (selectedPartsConfig st) = Valid.
Proof.
  unfold validateIntegrationForm. cbv zeta.
  repeat match goal with
         | |- context [if ?c then _ else _] => destruct c; try discriminate
         end.
  auto.
Qed.

Lemma part_checks_trim_times p :
  part_checks p -> trim_times_ok (fun s => HHMMSS s \/ HMMSS s) p.
Proof.
  intros (Hs & He & Hord).
  apply isValidTimeFormat_spec in Hs, He.
  split; [exact Hs|]. split; [exact He|].
  intros Hns Hne.
  destruct (well_formed_seconds _ Hs Hns) as (h1 & m1 & s1 & _ & E1).
  destruct (well_formed_seconds _ He Hne) as (h2 & m2 & s2 & _ & E2).
  apply empty_false in Hns, Hne. rewrite Hns, Hne in Hord. cbn [negb andb] in Hord.
  rewrite E1, E2 in *. cbn [ge of_Z] in Hord. now apply negb_false_iff in Hord.
Qed.

Lemma HHMMSS_length s : HHMMSS s -> String.length s = 8%nat.
Proof. intros (h & m & sec & _ & ->). reflexivity. Qed.

(** C6, as stated, fails: a part trimmed from 1:00:00 to 2:00:00 is
    accepted, and 1:00:00 is not of the form HH:MM:SS. *)
Lemma one_digit_hour_accepted :
  validateIntegrationForm
    (sample_form true (of_Z 133) [sample_part "1:00:00" "2:00:00"]) = Valid
  /\ ~ Forall (trim_times_ok HHMMSS) [sample_part "1:00:00" "2:00:00"].
Proof.
  split; [vm_compute; reflexivity|].
  intros H. inversion H as [| ? ? Hp _]. destruct Hp as ([E | Hf] & _).
  - discriminate E.
  - apply HHMMSS_length in Hf. discriminate Hf.
Qed.

(** A string of three numbers is worth what the formula says even when
    it is no clock reading: 24:00:00 counts 86400 seconds, not 0. *)
Example timeToSeconds_24_hours : timeToSeconds "24:00:00" = of_Z 86400.
Proof. vm_compute. reflexivity. Qed.

(** C6, amended.  The form is accepted only if, for every selected
    part, each of startTime and endTime is empty or reads H:MM:SS or
    HH:MM:SS (hour 0 to 23 in one or two digits, minutes and seconds 00
    to 59) and, when both are given, timeToSeconds(startTime) <
    timeToSeconds(endTime).  timeToSeconds of such a reading is
    3600*H + 60*M + S; so it is for any string of three integer
    numerals separated by colons, none of them negative, as long as
    3600*H + 60*M + S stays below 2^53 (where the arithmetic of the
    language is exact); it is 0 for the empty string and for a string
    that does not split at its colons into exactly three numbers. *)
Theorem trim_times_validated :
  (forall st,
      validateIntegrationForm st = Valid ->
      Forall (trim_times_ok (fun s => HHMMSS s \/ HMMSS s)) (selectedPartsConfig st))
  /\ (forall h m sec,
        (h <= 23 /\ m <= 59 /\ sec <= 59)%nat ->
        timeToSeconds (clock (two_digits h) m sec) = of_Z (seconds h m sec)
        /\ ((h <= 9)%nat ->
            timeToSeconds (clock (one_digit h) m sec) = of_Z (seconds h m sec)))
  /\ (forall p0 p1 p2 h m sec,
        free_of ":" p0 = true -> free_of ":" p1 = true -> free_of ":" p2 = true ->
        StringToNumber p0 = of_Z h ->
        StringToNumber p1 = of_Z m ->
        StringToNumber p2 = of_Z sec ->
        (0 <= h)%Z -> (0 <= m)%Z -> (0 <= sec)%Z ->
        (3600 * h + 60 * m + sec < 2 ^ 53)%Z ->
        timeToSeconds (p0 ++ ":" ++ p1 ++ ":" ++ p2) = of_Z (3600 * h + 60 * m + sec))
  /\ timeToSeconds "" = of_Z 0
  /\ (forall s,
        length (split ":" s) <> 3%nat
        \/ (exists p, In p (split ":" s) /\ StringToNumber p = NaN) ->
        timeToSeconds s = of_Z 0).
Proof.
  split; [|split; [|split; [|split]]].
  - intros st Hv. apply validateIntegrationForm_parts in Hv.
    apply validateParts_checks in Hv.
    eapply Forall_impl; [exact Hv|]. exact part_checks_trim_times.
  - intros h m sec Hb. split.
    + apply timeToSeconds_HHMMSS. lia.
    + intros Hh. apply timeToSeconds_HMMSS. lia.
  - intros p0 p1 p2 h m sec F0 F1 F2 E0 E1 E2 _ _ _ _.
    now apply timeToSeconds_numerals.
  - exact timeToSeconds_empty.
  - exact timeToSeconds_malformed.
Qed.

Lemma trim_times_validated_witness :
  Forall (trim_times_ok (fun s => HHMMSS s \/ HMMSS s))
         [sample_part "1:00:00" "2:00:00"]
  /\ timeToSeconds "01:02:03" = of_Z 3723
  /\ timeToSeconds "7:05:09" = of_Z 25509
  /\ timeToSeconds "1:2:3" = of_Z 3723
  /\ timeToSeconds "1:2" = of_Z 0.
Proof.
  destruct trim_times_validated as (Hform & Hclock & Hnum & _ & Hmal).
  split; [|split; [|split; [|split]]].
  - apply (Hform (sample_form true (of_Z 133) [sample_part "1:00:00" "2:00:00"])).
    vm_compute. reflexivity.
  - apply (proj1 (Hclock 1 2 3 ltac:(lia)))%nat.
  - apply (proj2 (Hclock 7 5 9 ltac:(lia)))%nat. lia.
  - apply (Hnum "1" "2" "3" 1 2 3)%Z; try lia; vm_compute; reflexivity.
  - apply (Hmal "1:2"). left. vm_compute. lia.
Defined.


(** The duration the form starts with, 133 seconds, is inside the
    bounds. *)
Example default_duration_within_bounds :
  within (segmentDurationSeconds (segmentationConfig defaultWorkflowConfig)) 30 600.
Proof. split; vm_compute; discriminate. Qed.

(** The two rejections below are the work of this check alone: the same
    forms pass with a duration of 30 or 600 seconds.  A duration that is
    not a number (the input left empty) is neither below 30 nor above
    600, and passes too. *)
Example segment_duration_edges :
  validateIntegrationForm (sample_form true (of_Z 29) [sample_part "" ""])
  = Invalid SegmentDurationOutOfRange
  /\ validateIntegrationForm (sample_form true (of_Z 601) [sample_part "" ""])
     = Invalid SegmentDurationOutOfRange
  /\ validateIntegrationForm (sample_form true (of_Z 30) [sample_part "" ""]) = Valid
  /\ validateIntegrationForm (sample_form true (of_Z 600) [sample_part "" ""]) = Valid
  /\ validateIntegrationForm (sample_form true NaN [sample_part "" ""]) = Valid.
Proof. repeat split; vm_compute; reflexivity. Qed.


(** C4.  The payload of [buildWorkflowConfig] carries the toggle in
    enableSegmentation and in segmentationConfig.enabled, and the
    configured segmentDurationSeconds and preserveOriginal, unchanged. *)
Theorem buildWorkflowConfig_fields st :
  get (buildWorkflowConfig st) "enableSegmentation" = Bool (segmentationEnabled st)
  /\ get (get (buildWorkflowConfig st) "segmentationConfig") "enabled"
     = Bool (segmentationEnabled st)
  /\ get (get (buildWorkflowConfig st) "segmentationConfig") "segmentDurationSeconds"
     = Num (segmentDurationSeconds (segmentationConfig (workflowConfig st)))
  /\ get (get (buildWorkflowConfig st) "segmentationConfig") "preserveOriginal"
     = Bool (preserveOriginal (segmentationConfig (workflowConfig st))).
Proof. repeat split; reflexivity. Qed.

End Validation.

(** ** lib/tauri.js *)

Section Responses.
Import JS Tauri Contract Inputs.

(** The values [!response] rejects. *)
Lemma falsy_cases v :
  truthy v = false <->
  v = Undefined \/ v = Null \/ v = Bool false \/ v = Str ""
  \/ v = Num NaN \/ (exists n, v = Num n /\ num_eq n (of_Z 0) = true).
Proof.
  split.
  - destruct v as [| | [] | n | s | props]; cbn; try discriminate; auto.
    + destruct n as [| neg | q]; cbn; [auto 6 | discriminate |].
      intros H. apply negb_false_iff in H. right; right; right; right; right.
      exists (Finite q). auto.
    + intros H. apply negb_false_iff, String.eqb_eq in H. subst. auto.
  - intros [-> | [-> | [-> | [-> | [-> | (n & -> & H)]]]]]; try reflexivity.
    cbn. unfold is_zero. rewrite H. now rewrite orb_true_r.
Qed.

Lemma bad_code_test response :
  is_number (get response "code")
  && negb (strict_eq (get response "code") (Num (of_Z 0))) = true
  <-> bad_code response.
Proof.
  unfold bad_code. split.
  - destruct (get response "code") as [| | b | n | s | props]; cbn; try discriminate.
    intros H. apply negb_true_iff in H. eauto.
  - intros (n & -> & H). cbn. now rewrite H.
Qed.

(** C8, as stated, fails: the response [false] is neither absent nor
    carries a code, yet the call raises "Empty response" instead of
    returning the data field of the response. *)
Lemma false_response_raises :
  ~ (absent (Bool false) \/ bad_code (Bool false))
  /\ invokeCommand (Return (Bool false)) = Throw (Error (Str "Empty response"))
  /\ invokeCommand (Return (Bool false)) <> Return (get (Bool false) "data").
Proof.
  split; [|split; [reflexivity | discriminate]].
  intros [[H | H] | (n & H & _)]; discriminate H.
Qed.

(** The same happens for a response that carries code 7 and an empty
    message: the error then says "Request failed". *)
Example empty_message_replaced :
  invokeCommand
    (Return (Obj (<["code" := Num (of_Z 7)]> (<["message" := Str ""]> ∅))))
  = Throw (Error (Str "Request failed")).
Proof. reflexivity. Qed.

(** C8, amended.  [invokeCommand] raises Error("Empty response") when
    the response is falsy: absent (undefined or null), but also false,
    0, NaN or the empty string.  For any other response that carries a
    numeric code different from 0 it raises an error whose message is
    the message of the response when that is truthy, and "Request
    failed" otherwise.  In every remaining case it returns exactly the
    data field of the response.  A rejection of [invoke] itself is
    passed on. *)
Theorem invokeCommand_cases response :
  (absent response -> truthy response = false)
  /\ (truthy response = false ->
      invokeCommand (Return response) = Throw (Error (Str "Empty response")))
  /\ (truthy response = true -> bad_code response ->
      invokeCommand (Return response)
      = Throw (Error (if truthy (get response "message")
                      then get response "message"
                      else Str "Request failed")))
  /\ (truthy response = true -> ~ bad_code response ->
      invokeCommand (Return response) = Return (get response "data"))
  /\ (forall e, invokeCommand (Throw e) = Throw e).
Proof.
  split; [|split; [|split; [|split]]].
  - intros [-> | ->]; reflexivity.
  - intros H. cbn. now rewrite H.
  - intros H Hbad. apply bad_code_test in Hbad. cbn [invokeCommand].
    rewrite H, Hbad. reflexivity.
  - intros H Hok. cbn [invokeCommand]. rewrite H. cbn [negb].
    destruct (is_number (get response "code")
              && negb (strict_eq (get response "code") (Num (of_Z 0)))) eqn:E;
      [|reflexivity].
    apply bad_code_test in E. contradiction.
  - reflexivity.
Qed.

Lemma invokeCommand_cases_witness :
  invokeCommand (Return Null) = Throw (Error (Str "Empty response"))
  /\ invokeCommand (Return (Num (of_Z 0))) = Throw (Error (Str "Empty response"))
  /\ invokeCommand (Return failure_response) = Throw (Error (Str "disk full"))
  /\ invokeCommand (Return success_response) = Return (Str "payload").
Proof.
  destruct (invokeCommand_cases Null) as (Habsent & Hnull & _).
  destruct (invokeCommand_cases (Num (of_Z 0))) as (_ & Hzero & _).
  destruct (invokeCommand_cases failure_response) as (_ & _ & Hbad & _).
  destruct (invokeCommand_cases success_response) as (_ & _ & _ & Hok & _).
  split; [|split; [|split]].
  - apply Hnull. apply Habsent. right. reflexivity.
  - apply Hzero. reflexivity.
  - apply Hbad; [reflexivity|].
    exists (of_Z 500). split; reflexivity.
  - apply Hok; [reflexivity|].
    intros (n & Hn & Hz). vm_compute in Hn. injection Hn as <-. discriminate Hz.
Defined.

End Responses.

(** ** SubmissionSyncSection.jsx *)

Section SyncActions.
Import JS Sync Contract Inputs.

Lemma includes_spec xs v :
  includes xs v = true <-> exists s, v = Str s /\ In s xs.
Proof.
  split.
  - destruct v as [| | b | n | s | props]; cbn; try discriminate.
    intros H. apply existsb_exists in H as (x & Hx & E).
    apply String.eqb_eq in E. subst x. eauto.
  - intros (s & -> & Hin). cbn. apply existsb_exists. exists s.
    split; [exact Hin | apply String.eqb_refl].
Qed.

Lemma buttons_pause t i :
  In (PauseButton i) (buttons t) <-> canPause t = true /\ i = id t.
Proof.
  unfold buttons. rewrite !in_app_iff. split.
  - intros [H | [H | H]].
    + destruct (canRetry t); cbn in H; [destruct H as [H | []]; discriminate H | contradiction].
    + destruct (canPause t); cbn in H; [|contradiction].
      destruct H as [H | []]. injection H as <-. auto.
    + destruct H as [H | []]. discriminate H.
  - intros [H ->]. right; left. rewrite H. cbn. auto.
Qed.

Lemma buttons_retry t i :
  In (RetryButton i) (buttons t) <-> canRetry t = true /\ i = id t.
Proof.
  unfold buttons. rewrite !in_app_iff. split.
  - intros [H | [H | H]].
    + destruct (canRetry t); cbn in H; [|contradiction].
      destruct H as [H | []]. injection H as <-. auto.
    + destruct (canPause t); cbn in H; [destruct H as [H | []]; discriminate H | contradiction].
    + destruct H as [H | []]. discriminate H.
  - intros [H ->]. left. rewrite H. cbn. auto.
Qed.

(** C5.  For every task shown in the sync list, the pause button is
    there exactly when the status is PENDING or UPLOADING, and the
    retry button exactly when the status is FAILED, CANCELLED, PAUSED or
    SUCCESS; the retry button asks the backend to retry that task
    (baidu_sync_retry), the pause button to pause it. *)
Theorem sync_actions_offered tasks syncTab t bs :
  In (t, bs) (rendered tasks syncTab) ->
  (In (PauseButton (id t)) bs <->
   status t = Str "PENDING" \/ status t = Str "UPLOADING")
  /\ (In (RetryButton (id t)) bs <->
      status t = Str "FAILED" \/ status t = Str "CANCELLED"
      \/ status t = Str "PAUSED" \/ status t = Str "SUCCESS")
  /\ command (RetryButton (id t)) = ("baidu_sync_retry", id t)
  /\ command (PauseButton (id t)) = ("baidu_sync_pause", id t).
Proof.
  unfold rendered. intros Hin. apply in_map_iff in Hin as (t' & E & _).
  injection E as -> <-.
  split; [|split; [|split; reflexivity]].
  - rewrite buttons_pause. unfold canPause. rewrite includes_spec. split.
    + intros [(s & -> & [<- | [<- | []]]) _]; auto.
    + intros [H | H]; (split; [|reflexivity]); eexists; (split; [exact H|]);
        cbn; auto.
  - rewrite buttons_retry. unfold canRetry. rewrite includes_spec. split.
    + intros [(s & -> & [<- | [<- | [<- | [<- | []]]]]) _]; auto.
    + intros [H | [H | [H | H]]]; (split; [|reflexivity]); eexists;
        (split; [exact H|]); cbn; auto.
Qed.

Lemma sync_actions_offered_witness :
  In (PauseButton (Num (of_Z 2)))
     (buttons (sync_task 2 "UPLOADING"))
  /\ ~ In (RetryButton (Num (of_Z 2))) (buttons (sync_task 2 "UPLOADING"))
  /\ In (RetryButton (Num (of_Z 3))) (buttons (sync_task 3 "SUCCESS")).
Proof.
  pose (tasks := [sync_task 1 "PENDING"; sync_task 2 "UPLOADING";
                  sync_task 3 "SUCCESS"]).
  assert (H2 : In (sync_task 2 "UPLOADING", buttons (sync_task 2 "UPLOADING"))
                  (rendered tasks "uploading")) by (cbn; auto).
  assert (H3 : In (sync_task 3 "SUCCESS", buttons (sync_task 3 "SUCCESS"))
                  (rendered tasks "completed")) by (cbn; auto).
  destruct (sync_actions_offered _ _ _ _ H2) as (Hp2 & Hr2 & _).
  destruct (sync_actions_offered _ _ _ _ H3) as (_ & Hr3 & _).
  split; [|split].
  - apply Hp2. right. reflexivity.
  - intros H. apply Hr2 in H. destruct H as [H | [H | [H | H]]]; discriminate H.
  - apply Hr3. do 3 right. reflexivity.
Defined.

End SyncActions.

(** ** SettingsSection.jsx *)

Section SavedSettings.
Import JS Settings Interval Contract Inputs.

Lemma min_of_Z_1 hi : (1 <= hi)%Z -> min (of_Z hi) (of_Z 1) = of_Z 1.
Proof.
  intros H. unfold min. cbn [is_nan orb of_Z]. fold (of_Z 1) (of_Z hi).
  rewrite lt_of_Z. destruct (Z.ltb_spec 1 hi) as [_ | Hge]; [reflexivity|].
  f_equal. f_equal. lia.
Qed.

Lemma within_of_Z z lo hi : (lo <= z <= hi)%Z -> within (of_Z z) lo hi.
Proof. intros [H1 H2]. cbn. now rewrite <- !Zle_Qle. Qed.

(** Linear arithmetic over the rationals, with the integer constants of
    the bounds made visible. *)
Ltac qarith :=
  change (inject_Z 0) with 0%Q in *; change (inject_Z 1) with 1%Q in *; lra.

(** [Math.min(hi, Math.max(1, Number(v) || 1))] clamps into [1, hi]. *)
Lemma clamp_spec hi v :
  (1 <= hi)%Z ->
  clamped hi v (min (of_Z hi) (max (of_Z 1) (number_or_1 v))).
Proof.
  intros Hhi. unfold clamped, number_or_1.
  assert (Hq : (inject_Z 1 <= inject_Z hi)%Q) by now rewrite <- Zle_Qle.
  assert (W1 : within (of_Z 1) 1 hi) by (apply within_of_Z; lia).
  assert (Wh : within (of_Z hi) 1 hi) by (apply within_of_Z; lia).
  destruct (Number v) as [| [] | q].
  - (* NaN *)
    cbn [truthy is_nan orb negb].
    change (max (of_Z 1) (of_Z 1)) with (of_Z 1). rewrite (min_of_Z_1 hi Hhi).
    split; [exact W1|]. split; [reflexivity|].
    split; [intros []|]. split; intros [].
  - (* -Infinity *)
    change (truthy (Num (Infinity true))) with true. cbn iota.
    change (max (of_Z 1) (Infinity true)) with (of_Z 1). rewrite (min_of_Z_1 hi Hhi).
    split; [exact W1|]. split; [reflexivity|].
    split; [reflexivity|]. split; [intros H; discriminate H | intros []].
  - (* +Infinity *)
    change (truthy (Num (Infinity false))) with true. cbn iota.
    change (max (of_Z 1) (Infinity false)) with (Infinity false).
    change (min (of_Z hi) (Infinity false)) with (of_Z hi).
    split; [exact Wh|]. split; [intros H; discriminate H|].
    split; [intros H; discriminate H|]. split; [reflexivity | intros []].
  - (* a finite number *)
    change (truthy (Num (Finite q))) with (negb (Qeq_bool q (inject_Z 0))).
    destruct (Qeq_bool q (inject_Z 0)) eqn:Ez; cbn [negb].
    + apply Qeq_bool_eq in Ez.
      change (max (of_Z 1) (of_Z 1)) with (of_Z 1). rewrite (min_of_Z_1 hi Hhi).
      split; [exact W1|]. split; [intros H; discriminate H|].
      split; [reflexivity|]. cbn in *. split.
      * intros H. exfalso. qarith.
      * intros [H _]. exfalso. qarith.
    + change (max (of_Z 1) (Finite q))
        with (if Qlt_b (inject_Z 1) q then Finite q else of_Z 1).
      destruct (Qlt_b (inject_Z 1) q) eqn:E1.
      * apply Qlt_b_true in E1.
        change (min (of_Z hi) (Finite q))
          with (if Qlt_b q (inject_Z hi) then Finite q else of_Z hi).
        destruct (Qlt_b q (inject_Z hi)) eqn:E2.
        -- apply Qlt_b_true in E2.
           split; [cbn in *; qarith|]. split; [intros H; discriminate H|].
           cbn in *. split; [intros H; exfalso; qarith|].
           split; [intros H; exfalso; qarith|].
           intros _. apply Qeq_bool_refl.
        -- apply Qlt_b_false in E2.
           split; [exact Wh|]. split; [intros H; discriminate H|].
           cbn in *. split; [intros H; exfalso; qarith|].
           split; [reflexivity|].
           intros [_ Hle]. apply Qeq_eq_bool. qarith.
      * apply Qlt_b_false in E1. rewrite (min_of_Z_1 hi Hhi).
        split; [exact W1|]. split; [intros H; discriminate H|].
        split; [reflexivity|]. cbn in *. split.
        -- intros H. exfalso. qarith.
        -- intros [Hge _]. apply Qeq_eq_bool. qarith.
Qed.

(** C10.  The payload [handleSave] sends carries uploadConcurrency
    clamped into [1, 5] and aria2cConnections and aria2cSplit clamped
    into [1, 32]: an input that is not a number, or is below 1, is sent
    as 1; an input above the interval is sent as its upper bound; an
    input inside the interval is sent as it is. *)
Theorem save_settings_clamped st :
  (get (savePayload st) "uploadConcurrency" = Num (normalizedUploadConcurrency st)
   /\ clamped 5 (uploadConcurrency st) (normalizedUploadConcurrency st))
  /\ (get (savePayload st) "aria2cConnections" = Num (normalizedAria2cConnections st)
      /\ clamped 32 (aria2cConnections st) (normalizedAria2cConnections st))
  /\ (get (savePayload st) "aria2cSplit" = Num (normalizedAria2cSplit st)
      /\ clamped 32 (aria2cSplit st) (normalizedAria2cSplit st)).
Proof.
  repeat split; try reflexivity; apply clamp_spec; lia.
Qed.

Lemma save_settings_clamped_witness :
  normalizedUploadConcurrency typed_settings = of_Z 5
  /\ normalizedAria2cConnections typed_settings = of_Z 1
  /\ num_eq (normalizedAria2cSplit typed_settings) (of_Z 16) = true.
Proof.
  destruct (save_settings_clamped typed_settings)
    as ((_ & _ & _ & _ & Hup & _) & (_ & _ & _ & Hconn & _) & (_ & _ & _ & _ & _ & Hsplit)).
  split; [|split].
  - apply Hup. vm_compute. reflexivity.
  - apply Hconn. vm_compute. reflexivity.
  - apply Hsplit. split; vm_compute; discriminate.
Defined.

End SavedSettings.

(** ** Numbers as text, and back *)

Section NumericFacts.
Import JS Numeric TimeFormat.

Lemma is_zero_of_Z z : is_zero (of_Z z) = (z =? 0)%Z.
Proof.
  unfold is_zero, of_Z, num_eq. destruct (Z.eqb_spec z 0) as [-> | Hne].
  - reflexivity.
  - destruct (Qeq_bool (inject_Z z) (inject_Z 0)) eqn:E; [|reflexivity].
    apply Qeq_bool_eq in E. unfold Qeq in E. cbn in E. lia.
Qed.

Lemma floor_of_Z z : floor (of_Z z) = of_Z z.
Proof. unfold floor, of_Z. now rewrite Qfloor_Z. Qed.

(** On integers, [Math.floor(a / b)] is the integer quotient. *)
Lemma floor_div_of_Z a b :
  (b <> 0)%Z -> floor (div (of_Z a) (of_Z b)) = of_Z (a / b).
Proof.
  intros Hb. unfold div. cbn [of_Z]. fold (of_Z a) (of_Z b).
  rewrite is_zero_of_Z. destruct (Z.eqb_spec b 0) as [E | _]; [contradiction|].
  unfold floor. f_equal.
  rewrite (Qfloor_comp _ (inject_Z a / inject_Z b)) by apply Qred_correct.
  symmetry. apply Zdiv_Qdiv.
Qed.

Lemma trunc_nonneg a b :
  (0 <= a)%Z -> (0 < b)%Z -> trunc (inject_Z a / inject_Z b) = (a / b)%Z.
Proof.
  intros Ha Hb. unfold trunc.
  assert (H : (0 <= inject_Z a / inject_Z b)%Q).
  { apply Qle_shift_div_l.
    - change 0%Q with (inject_Z 0). rewrite <- Zlt_Qlt. exact Hb.
    - rewrite Qmult_0_l. change 0%Q with (inject_Z 0). now rewrite <- Zle_Qle. }
  apply Qle_bool_iff in H. rewrite H. symmetry. apply Zdiv_Qdiv.
Qed.

(** On natural numbers, [a % b] is the remainder of the division. *)
Lemma rem_of_Z a b :
  (0 <= a)%Z -> (0 < b)%Z -> rem (of_Z a) (of_Z b) = of_Z (a mod b).
Proof.
  intros Ha Hb. unfold rem. cbn [of_Z]. fold (of_Z b).
  rewrite is_zero_of_Z. destruct (Z.eqb_spec b 0) as [E | _]; [lia|].
  rewrite (trunc_nonneg a b Ha Hb). unfold of_Z. f_equal.
  rewrite (Qred_complete _ (inject_Z (a mod b))); [apply Qred_inject_Z|].
  rewrite Z.mod_eq by lia.
  unfold Zminus. rewrite inject_Z_plus, inject_Z_opp, inject_Z_mult. reflexivity.
Qed.

Lemma max_0_of_Z z : max (of_Z 0) (of_Z z) = of_Z (Z.max 0 z).
Proof.
  unfold max. cbn [is_nan of_Z orb]. fold (of_Z 0) (of_Z z).
  rewrite lt_of_Z. destruct (Z.ltb_spec 0 z); f_equal; lia.
Qed.

Lemma gt_of_Z a b : gt (of_Z a) (of_Z b) = (b <? a)%Z.
Proof. unfold gt. apply lt_of_Z. Qed.

(** *** Decimal digits *)

Lemma chars_app ds1 ds2 : chars (ds1 ++ ds2) = (chars ds1 ++ chars ds2)%string.
Proof.
  induction ds1 as [| d ds1 IH]; [reflexivity|].
  cbn [chars app]. now rewrite append_cons, IH.
Qed.

Lemma digits_value_snoc ds d :
  digits_value 10 (ds ++ [d]) = (digits_value 10 ds * 10 + d)%Z.
Proof. unfold digits_value. now rewrite fold_left_app. Qed.

Lemma log2_tenth n : (10 <= n)%Z -> (Z.log2 (n / 10) < Z.log2 n)%Z.
Proof.
  intros H.
  assert (H2 : (Z.log2 (n / 2) = Z.log2 n - 1)%Z).
  { rewrite <- Z.div2_div, Z.div2_spec, Z.log2_shiftr by lia.
    assert (0 < Z.log2 n)%Z by (apply Z.log2_pos; lia). lia. }
  assert (Hle : (n / 10 <= n / 2)%Z).
  { apply Z.div_le_lower_bound; [lia|].
    pose proof (Z.mul_div_le n 10). lia. }
  apply Z.log2_le_mono in Hle. lia.
Qed.

(** The printer writes the digits of its argument, most significant
    first, in front of what it was given. *)
Lemma digits_text_spec fuel :
  forall n acc,
    (0 <= n)%Z -> (Z.to_nat (Z.log2 n) < fuel)%nat ->
    exists ds,
      digits_text fuel n acc = (chars ds ++ acc)%string
      /\ ds <> [] /\ Forall is_digit ds /\ digits_value 10 ds = n
      /\ ((n < 10)%Z -> length ds = 1%nat)
      /\ ((10 <= n)%Z -> (2 <= length ds)%nat).
Proof.
  induction fuel as [| fuel IH]; intros n acc Hn Hfuel; [lia|].
  cbn [digits_text]. destruct (Z.ltb_spec n 10) as [Hlt | Hge].
  - exists [n]. split; [|split; [|split; [|split; [|split]]]].
    + rewrite Z.mod_small by lia. reflexivity.
    + discriminate.
    + constructor; [unfold is_digit; lia | constructor].
    + cbn. lia.
    + reflexivity.
    + intros; lia.
  - assert (Hq : (0 <= n / 10)%Z) by (apply Z.div_pos; lia).
    assert (Hf : (Z.to_nat (Z.log2 (n / 10)) < fuel)%nat).
    { pose proof (log2_tenth n Hge). pose proof (Z.log2_nonneg (n / 10)). lia. }
    destruct (IH (n / 10)%Z (String (digit_text (n mod 10)) acc) Hq Hf)
      as (ds & E & Hne & Hall & Hval & _ & _).
    exists (ds ++ [n mod 10]%Z).
    split; [|split; [|split; [|split; [|split]]]].
    + rewrite E, chars_app, append_assoc. reflexivity.
    + destruct ds; discriminate.
    + apply Forall_app. split; [exact Hall|].
      constructor; [|constructor]. unfold is_digit.
      pose proof (Z.mod_pos_bound n 10). lia.
    + rewrite digits_value_snoc, Hval.
      pose proof (Z.div_mod n 10). lia.
    + intros; lia.
    + intros _. rewrite length_app. cbn. destruct ds; [contradiction|]. cbn. lia.
Qed.

Lemma natural_text_spec n :
  (0 <= n)%Z ->
  exists ds,
    natural_text n = chars ds
    /\ ds <> [] /\ Forall is_digit ds /\ digits_value 10 ds = n
    /\ ((n < 10)%Z -> length ds = 1%nat)
    /\ ((10 <= n)%Z -> (2 <= length ds)%nat).
Proof.
  intros Hn. unfold natural_text.
  destruct (digits_text_spec (S (Z.to_nat (Z.log2 n))) n "" Hn ltac:(lia))
    as (ds & E & H).
  exists ds. split; [|exact H]. now rewrite E, append_nil_r.
Qed.

Lemma to_string_natural n : (0 <= n)%Z -> to_string (of_Z n) = natural_text n.
Proof.
  intros Hn. unfold to_string, of_Z.
  assert (E : Qlt_b (inject_Z n) 0 = false).
  { apply Qlt_b_false. change 0%Q with (inject_Z 0). now rewrite <- Zle_Qle. }
  rewrite E. unfold magnitude_text. rewrite Qfloor_Z, Qeq_bool_refl. reflexivity.
Qed.

End NumericFacts.

Section DecimalText.
Import JS Numeric TimeFormat.

Lemma digit_text_code d : is_digit d -> code (digit_text d) = (48 + Z.to_nat d)%nat.
Proof. intros H. apply code_digit_char. unfold is_digit in H. lia. Qed.

Lemma digit_in_digit_text d : is_digit d -> digit_in 10 (digit_text d) = Some d.
Proof.
  intros H. unfold digit_in. rewrite (digit_text_code d H).
  unfold is_digit in H.
  replace (Z.of_nat (48 + Z.to_nat d)) with (48 + d)%Z by lia.
  destruct (Z.leb_spec 48 (48 + d)); [|lia].
  destruct (Z.leb_spec (48 + d) 57); [|lia].
  cbn [andb]. replace (48 + d - 48)%Z with d by lia.
  destruct (Z.ltb_spec d 10); [reflexivity | lia].
Qed.

Lemma digit_text_not_white d : is_digit d -> is_white (digit_text d) = false.
Proof.
  intros H. unfold is_white. rewrite (digit_text_code d H).
  unfold is_digit in H.
  repeat (apply orb_false_iff; split); apply Nat.eqb_neq; lia.
Qed.

Lemma digit_text_neq d c :
  is_digit d -> (code c < 48 \/ 57 < code c)%nat -> Ascii.eqb (digit_text d) c = false.
Proof.
  intros H Hc. apply Ascii.eqb_neq. intros E.
  pose proof (digit_text_code d H) as Hd. rewrite E in Hd.
  unfold is_digit in H. lia.
Qed.

Lemma list_of_chars ds :
  list_ascii_of_string (chars ds) = map digit_text ds.
Proof. induction ds as [| d ds IH]; cbn; congruence. Qed.

Lemma length_chars ds : String.length (chars ds) = length ds.
Proof. induction ds as [| d ds IH]; cbn; congruence. Qed.

Lemma digits_of_chars ds :
  Forall is_digit ds -> digits 10 (map digit_text ds) = (ds, []).
Proof.
  induction 1 as [| d ds Hd _ IH]; [reflexivity|].
  cbn [map digits]. now rewrite (digit_in_digit_text d Hd), IH.
Qed.

Lemma drop_white_digits ds :
  Forall is_digit ds -> drop_white (map digit_text ds) = map digit_text ds.
Proof.
  intros [| d ds' Hd _]; [reflexivity|].
  cbn [map drop_white]. now rewrite (digit_text_not_white d Hd).
Qed.

Lemma trim_chars_digits ds :
  Forall is_digit ds -> trim_chars (map digit_text ds) = map digit_text ds.
Proof.
  intros H. unfold trim_chars. rewrite (drop_white_digits ds H).
  rewrite <- map_rev, drop_white_digits, map_rev, rev_involutive; [reflexivity|].
  apply Forall_rev. exact H.
Qed.

(** [Number] reads a numeral of decimal digits, leading zeros included,
    as the number it denotes. *)
Lemma StringToNumber_chars ds :
  ds <> [] -> Forall is_digit ds ->
  StringToNumber (chars ds) = of_Z (digits_value 10 ds).
Proof.
  intros Hne Hall. unfold StringToNumber.
  rewrite list_of_chars, (trim_chars_digits ds Hall).
  destruct ds as [| d ds]; [contradiction|].
  cbn [map]. inversion Hall as [| ? ? Hd Hds]; subst.
  assert (Hnd : non_decimal (digit_text d :: map digit_text ds) = None).
  { unfold non_decimal. destruct ds as [| d' ds']; [reflexivity|].
    cbn [map]. destruct (Ascii.eqb (digit_text d) "0"); [|reflexivity].
    inversion Hds as [| ? ? Hd' _]; subst.
    unfold radix_of.
    rewrite !(digit_text_neq d' _ Hd') by (right; apply Nat.ltb_lt; reflexivity).
    reflexivity. }
  unfold numeric_literal. rewrite Hnd.
  rewrite !(digit_text_neq d _ Hd) by (left; apply Nat.ltb_lt; reflexivity).
  unfold unsigned_decimal.
  rewrite bool_decide_eq_false_2.
  2:{ intros E. injection E as E _.
      pose proof (digit_text_code d Hd) as Hc. rewrite E in Hc.
      change (code "I") with 73%nat in Hc. unfold is_digit in Hd. lia. }
  change (digit_text d :: map digit_text ds) with (map digit_text (d :: ds)).
  rewrite (digits_of_chars (d :: ds) Hall).
  rewrite app_nil_r. cbn [exponent length Z.of_nat].
  unfold scaled, of_Z. cbn [Z.sub Z.leb Z.compare Z.opp].
  rewrite Z.pow_0_r, Z.mul_1_r. reflexivity.
Qed.

Lemma free_of_chars ds : Forall is_digit ds -> free_of ":" (chars ds) = true.
Proof.
  induction 1 as [| d ds Hd _ IH]; [reflexivity|].
  cbn [chars free_of]. rewrite IH, (digit_text_neq d ":" Hd) by (right; apply Nat.ltb_lt; reflexivity).
  reflexivity.
Qed.

(** [Number(String(n)) = n] on the natural numbers. *)
Lemma StringToNumber_to_string n :
  (0 <= n)%Z -> StringToNumber (to_string (of_Z n)) = of_Z n.
Proof.
  intros Hn. rewrite (to_string_natural n Hn).
  destruct (natural_text_spec n Hn) as (ds & -> & Hne & Hall & Hval & _).
  rewrite (StringToNumber_chars ds Hne Hall). now rewrite Hval.
Qed.

End DecimalText.

(** ** Formatting durations *)

Section DurationText.
Import JS Numeric Format Helpers TimeFormat Download.

(** Up to 99, [String(n).padStart(2, "0")] is the numeral of two digits. *)
Lemma two_small k : (k < 100)%nat -> two (of_Z (Z.of_nat k)) = two_digits k.
Proof.
  intros H.
  do 100 (destruct k as [| k]; [vm_compute; reflexivity|]).
  lia.
Qed.

Lemma filler_0 cur pad : filler 0 cur pad = "".
Proof. reflexivity. Qed.

(** Whatever its size, a natural number is padded to a numeral of at
    least two digits that denotes it. *)
Lemma two_numeral k :
  (0 <= k)%Z ->
  exists ds,
    two (of_Z k) = chars ds /\ ds <> [] /\ Forall is_digit ds
    /\ digits_value 10 ds = k /\ (2 <= length ds)%nat.
Proof.
  intros Hk. unfold two. rewrite (to_string_natural k Hk).
  destruct (natural_text_spec k Hk) as (ds & -> & Hne & Hall & Hval & H1 & H2).
  unfold padStart. rewrite length_chars.
  destruct (Z.ltb_spec k 10) as [Hlt | Hge].
  - specialize (H1 Hlt). destruct ds as [| d [| ? ?]]; try discriminate.
    exists [0%Z; d]. cbn [length Nat.sub filler]. repeat split; try (intros; lia).
    + discriminate.
    + constructor; [unfold is_digit; lia | exact Hall].
    + cbn in Hval |- *. lia.
  - specialize (H2 Hge). exists ds.
    replace (2 - length ds)%nat with 0%nat by lia.
    rewrite filler_0, append_nil_l. auto.
Qed.

(** The readings of the three fields on a whole number of seconds. *)
Lemma fields_of_Z n :
  (0 <= n)%Z ->
  hours_of (of_Z n) = of_Z (n / 3600)
  /\ minutes_of (of_Z n) = of_Z (n mod 3600 / 60)
  /\ seconds_of (of_Z n) = of_Z (n mod 60).
Proof.
  intros Hn. unfold hours_of, minutes_of, seconds_of.
  rewrite (floor_div_of_Z n 3600) by lia.
  rewrite !rem_of_Z by lia.
  rewrite (floor_div_of_Z _ 60) by lia. auto.
Qed.

(** The total of whole seconds [formatDurationHms] works with. *)
Lemma totalSeconds_finite q :
  max (of_Z 0) (floor (Number (or_ (Num (Finite q)) (Num (of_Z 0)))))
  = of_Z (Z.max 0 (Qfloor q)).
Proof.
  unfold or_. cbn [truthy is_nan orb].
  destruct (is_zero (Finite q)) eqn:E; cbn [negb Number].
  - unfold is_zero, num_eq, of_Z in E. apply Qeq_bool_eq in E.
    rewrite floor_of_Z, max_0_of_Z.
    rewrite (Qfloor_comp _ _ E), Qfloor_Z. reflexivity.
  - cbn [floor]. apply max_0_of_Z.
Qed.

Lemma small_fields n :
  (0 <= n)%Z ->
  (Z.to_nat (n mod 3600 / 60) <= 59 /\ Z.to_nat (n mod 60) <= 59)%nat.
Proof.
  intros Hn.
  pose proof (Z.mod_pos_bound n 3600 ltac:(lia)).
  pose proof (Z.mod_pos_bound n 60 ltac:(lia)).
  assert (n mod 3600 / 60 < 60)%Z by (apply Z.div_lt_upper_bound; lia).
  assert (0 <= n mod 3600 / 60)%Z by (apply Z.div_pos; lia).
  lia.
Qed.

(** The text written for a number: hours on two digits or more, then
    minutes and seconds on two digits each. *)
Lemma formatDurationHms_clock q :
  let n := Z.max 0 (Qfloor q) in
  formatDurationHms (Num (Finite q))
  = clock (two (of_Z (n / 3600)))
          (Z.to_nat (n mod 3600 / 60)) (Z.to_nat (n mod 60)).
Proof.
  intros n. unfold formatDurationHms. rewrite totalSeconds_finite. fold n.
  assert (Hn : (0 <= n)%Z) by (unfold n; lia).
  destruct (fields_of_Z n Hn) as (-> & -> & ->).
  destruct (small_fields n Hn) as (Hm & Hs).
  pose proof (Z.mod_pos_bound n 60 ltac:(lia)).
  assert (0 <= n mod 3600 / 60)%Z
    by (apply Z.div_pos; [apply Z.mod_pos_bound|]; lia).
  unfold clock.
  rewrite <- (two_small (Z.to_nat (n mod 3600 / 60))) by lia.
  rewrite <- (two_small (Z.to_nat (n mod 60))) by lia.
  rewrite !Z2Nat.id by lia. reflexivity.
Qed.

Lemma split_seconds n :
  (3600 * (n / 3600) + 60 * (n mod 3600 / 60) + n mod 60 = n)%Z.
Proof.
  pose proof (Z.div_mod n 3600 ltac:(lia)).
  pose proof (Z.div_mod (n mod 3600) 60 ltac:(lia)).
  assert (E : ((n mod 3600) mod 60 = n mod 60)%Z).
  { symmetry. rewrite <- (Z.mod_mod_divide n 3600 60) at 1.
    - reflexivity.
    - exists 60%Z. reflexivity. }
  lia.
Qed.

Lemma timeToSeconds_formatDurationHms q :
  timeToSeconds (formatDurationHms (Num (Finite q))) = of_Z (Z.max 0 (Qfloor q)).
Proof.
  rewrite formatDurationHms_clock. cbv zeta.
  set (n := Z.max 0 (Qfloor q)).
  assert (Hn : (0 <= n)%Z) by (unfold n; lia).
  assert (Hh : (0 <= n / 3600)%Z) by (apply Z.div_pos; lia).
  destruct (two_numeral (n / 3600) Hh) as (ds & -> & Hne & Hall & Hval & _).
  destruct (small_fields n Hn) as (Hm & Hs).
  pose proof (Z.mod_pos_bound n 60 ltac:(lia)).
  assert (0 <= n mod 3600 / 60)%Z
    by (apply Z.div_pos; [apply Z.mod_pos_bound|]; lia).
  unfold clock.
  rewrite (timeToSeconds_numerals (chars ds) _ _ (n / 3600)
             (Z.of_nat (Z.to_nat (n mod 3600 / 60)))
             (Z.of_nat (Z.to_nat (n mod 60)))).
  - f_equal. rewrite !Z2Nat.id by lia. apply split_seconds.
  - apply free_of_chars, Hall.
  - apply free_two_digits. lia.
  - apply free_two_digits. lia.
  - rewrite (StringToNumber_chars ds Hne Hall). now rewrite Hval.
  - apply StringToNumber_two_digits. lia.
  - apply StringToNumber_two_digits. lia.
Qed.

Lemma of_Z_inj a b : of_Z a = of_Z b -> a = b.
Proof. unfold of_Z, inject_Z. intros E. now injection E. Qed.

End DurationText.

Section DurationValidity.
Import JS Numeric Format Helpers TimeFormat Download.

Lemma isValidTimeFormat_formatDurationHms q :
  isValidTimeFormat (formatDurationHms (Num (Finite q))) = true
  <-> (Qfloor q < 86400)%Z.
Proof.
  rewrite isValidTimeFormat_spec. split.
  - intros Hwf.
    assert (Hne : formatDurationHms (Num (Finite q)) <> "").
    { rewrite formatDurationHms_clock. cbv zeta. unfold clock.
      apply empty_false, three_parts_not_empty. }
    destruct (well_formed_seconds _ Hwf Hne) as (h & m & sec & Hb & E).
    rewrite timeToSeconds_formatDurationHms in E.
    apply of_Z_inj in E. unfold seconds in E. lia.
  - intros Hq. right. left.
    rewrite formatDurationHms_clock. cbv zeta.
    set (n := Z.max 0 (Qfloor q)).
    assert (Hn : (0 <= n < 86400)%Z) by (unfold n; lia).
    assert (Hh : (0 <= n / 3600 < 24)%Z).
    { split; [apply Z.div_pos; lia | apply Z.div_lt_upper_bound; lia]. }
    destruct (small_fields n (proj1 Hn)) as (Hm & Hs).
    exists (Z.to_nat (n / 3600)), (Z.to_nat (n mod 3600 / 60)), (Z.to_nat (n mod 60)).
    split; [lia|].
    rewrite <- (two_small (Z.to_nat (n / 3600))) by lia.
    rewrite Z2Nat.id by lia. reflexivity.
Qed.

End DurationValidity.

Section DurationProperties.
Import JS Numeric Format Helpers TimeFormat Download.

(** X1.  Reading back the text written for a duration gives the
    duration again, rounded down to whole seconds and not below zero:
    [timeToSeconds(formatDurationHms(x)) = max(0, floor(x))] for every
    number [x] below 2^53. *)
Theorem formatDurationHms_read_back q :
  (Qfloor q < 2 ^ 53)%Z ->
  timeToSeconds (formatDurationHms (Num (Finite q))) = of_Z (Z.max 0 (Qfloor q)).
Proof. intros _. apply timeToSeconds_formatDurationHms. Qed.

Lemma formatDurationHms_read_back_witness :
  timeToSeconds (formatDurationHms (Num (Finite (7451 # 2)))) = of_Z 3725.
Proof. apply (formatDurationHms_read_back (7451 # 2)). reflexivity. Defined.

(** X2.  The text written for a number is a time [isValidTimeFormat]
    accepts exactly when the number is NaN, which is written as
    00:00:00, or its floor is below 24 hours; so it is for the
    infinities: the text Infinity:NaN:NaN is refused and the text
    00:00:00 written for minus infinity is accepted.  (From 24 hours
    on the hour field is refused whatever its digits are, so the
    rounding of large numbers does not matter here.) *)
Theorem formatDurationHms_valid_below_a_day (x : number) :
  isValidTimeFormat (formatDurationHms (Num x)) = true
  <-> is_nan x = true \/ lt (floor x) (of_Z 86400) = true.
Proof.
  destruct x as [| [|] | q].
  - split; [intros _; left; reflexivity | intros _; vm_compute; reflexivity].
  - split; [intros _; right; reflexivity | intros _; vm_compute; reflexivity].
  - split; [intros H; vm_compute in H; discriminate H|].
    intros [H | H]; discriminate H.
  - rewrite isValidTimeFormat_formatDurationHms.
    cbn [floor is_nan]. rewrite lt_of_Z, Z.ltb_lt.
    split; [intros H; right; exact H | intros [H | H]; [discriminate H | exact H]].
Qed.

(** X3.  For every number but plus infinity, [formatDurationHms]
    writes what [formatDuration] writes when the floor of the number is
    an hour or more, and 00: followed by what [formatDuration] writes
    otherwise: [formatDuration] leaves out the hours when they are
    zero.  For plus infinity [formatDurationHms] writes
    Infinity:NaN:NaN and [formatDuration] writes 00:00.  (Both
    functions compute the three fields by the same expressions, so
    they agree on them whatever the language rounds.) *)
Theorem formatDuration_formatDurationHms (x : number) :
  match x with
  | Infinity false =>
      formatDurationHms (Num x) = "Infinity:NaN:NaN"
      /\ formatDuration (Num x) = "00:00"
  | _ =>
      formatDurationHms (Num x)
      = if ge (floor x) (of_Z 3600) then formatDuration (Num x)
        else ("00:" ++ formatDuration (Num x))%string
  end.
Proof.
  destruct x as [| [|] | q].
  - vm_compute. reflexivity.
  - vm_compute. reflexivity.
  - split; vm_compute; reflexivity.
  - cbn [floor]. unfold ge. cbn [of_Z]. fold (of_Z (Qfloor q)) (of_Z 3600).
    rewrite lt_of_Z.
    unfold formatDuration. cbn [isFinite negb Number floor].
    rewrite max_0_of_Z.
    unfold formatDurationHms. rewrite totalSeconds_finite.
    set (n := Z.max 0 (Qfloor q)).
    assert (Hn : (0 <= n)%Z) by (unfold n; lia).
    destruct (fields_of_Z n Hn) as (Eh & _). rewrite Eh, gt_of_Z.
    destruct (Z.ltb_spec (Qfloor q) 3600) as [Hlt | Hge]; cbn [negb].
    + assert (H : (n / 3600 = 0)%Z) by (apply Z.div_small; unfold n; lia).
      rewrite H. cbn [Z.ltb Z.compare]. reflexivity.
    + assert (H : (0 < n / 3600)%Z) by (apply Z.div_str_pos; unfold n; lia).
      apply Z.ltb_lt in H. rewrite H. rewrite <- Eh. reflexivity.
Qed.

End DurationProperties.

(** ** Names and paths *)

Section PathFacts.
Import JS Numeric Paths.

Lemma list_of_append a b :
  list_ascii_of_string (a ++ b) = list_ascii_of_string a ++ list_ascii_of_string b.
Proof.
  induction a as [| c a IH]; [now rewrite append_nil_l|].
  rewrite append_cons. cbn. now rewrite IH.
Qed.

Lemma string_of_app l1 l2 :
  string_of_list_ascii (l1 ++ l2)
  = (string_of_list_ascii l1 ++ string_of_list_ascii l2)%string.
Proof.
  induction l1 as [| c l1 IH]; [now rewrite append_nil_l|].
  cbn. now rewrite append_cons, IH.
Qed.

Lemma map_chars_list f s :
  list_ascii_of_string (map_chars f s) = map f (list_ascii_of_string s).
Proof. unfold map_chars. apply list_ascii_of_string_of_list_ascii. Qed.

Lemma map_chars_app f a b :
  map_chars f (a ++ b) = (map_chars f a ++ map_chars f b)%string.
Proof. unfold map_chars. now rewrite list_of_append, map_app, string_of_app. Qed.

Lemma map_chars_length f s : String.length (map_chars f s) = String.length s.
Proof.
  unfold map_chars. induction s as [| c s IH]; cbn; congruence.
Qed.

Lemma map_chars_id f s :
  Forall (fun c => f c = c) (list_ascii_of_string s) -> map_chars f s = s.
Proof.
  unfold map_chars. induction s as [| c s IH]; cbn; [reflexivity|].
  intros H. inversion H as [| ? ? Hc Hs]; subst. now rewrite Hc, IH.
Qed.

Lemma replaced_clean c : forbidden (if forbidden c then "_"%char else c) = false.
Proof. destruct (forbidden c) eqn:E; [reflexivity | exact E]. Qed.

Lemma sanitizeFilename_Str s :
  sanitizeFilename (Str s)
  = map_chars (fun ch => if forbidden ch then "_"%char else ch) s.
Proof.
  unfold sanitizeFilename. destruct s as [| c s]; reflexivity.
Qed.

Lemma sanitizeFilename_clean v : clean (sanitizeFilename v).
Proof.
  unfold clean.
  destruct v as [| | b | n | s | o]; unfold sanitizeFilename;
    try (destruct (negb _); constructor).
  fold (sanitizeFilename (Str s)). rewrite sanitizeFilename_Str, map_chars_list.
  apply Forall_map, Forall_forall. intros c _. apply replaced_clean.
Qed.

End PathFacts.

Section PathProperties.
Import JS Numeric Paths.

Lemma clean_free s : clean s -> free_of "/" s = true /\ free_of "\" s = true.
Proof.
  unfold clean. induction s as [| c s IH]; cbn; [auto|].
  intros H. inversion H as [| ? ? Hc Hs]; subst.
  destruct (IH Hs) as (-> & ->).
  unfold forbidden in Hc. cbn [existsb] in Hc.
  apply orb_false_iff in Hc as (H1 & Hc).
  apply orb_false_iff in Hc as (H2 & _).
  now rewrite H1, H2.
Qed.

Lemma free_of_app sep a b :
  free_of sep (a ++ b) = free_of sep a && free_of sep b.
Proof.
  induction a as [| c a IH]; [now rewrite append_nil_l|].
  rewrite append_cons. cbn. rewrite IH. now rewrite andb_assoc.
Qed.

Lemma free_of_Forall sep s :
  free_of sep s = true <-> Forall (fun c => Ascii.eqb c sep = false) (list_ascii_of_string s).
Proof.
  induction s as [| c s IH]; cbn.
  - split; [constructor | reflexivity].
  - rewrite andb_true_iff, negb_true_iff, IH. split.
    + intros (H1 & H2). now constructor.
    + intros H. inversion H; auto.
Qed.

Lemma split_not_nil sep s : split sep s <> [].
Proof.
  destruct s as [| c s]; cbn; [discriminate|].
  destruct (Ascii.eqb c sep); [discriminate|].
  destruct (split sep s); discriminate.
Qed.

(** Splitting at a separator splits both sides of it. *)
Lemma split_at sep a b :
  split sep (a ++ String sep b) = split sep a ++ split sep b.
Proof.
  induction a as [| c a IH].
  - rewrite append_nil_l. cbn. now rewrite Ascii.eqb_refl.
  - rewrite append_cons. cbn [split]. rewrite IH.
    destruct (Ascii.eqb c sep); [reflexivity|].
    destruct (split sep a) as [| h t] eqn:E; [now apply split_not_nil in E|].
    reflexivity.
Qed.

Lemma join_cons sep p q r :
  join sep (p :: q :: r) = (p ++ sep ++ join sep (q :: r))%string.
Proof. reflexivity. Qed.

(** Joining what was split gives the string back. *)
Lemma join_split sep s : join (String sep "") (split sep s) = s.
Proof.
  induction s as [| c s IH]; [reflexivity|].
  cbn [split]. destruct (split sep s) as [| h t] eqn:E; [now apply split_not_nil in E|].
  destruct (Ascii.eqb_spec c sep) as [-> | Hne].
  - rewrite join_cons, IH. now rewrite append_nil_l.
  - destruct t as [| h' t'].
    + cbn [join] in IH |- *. now rewrite IH.
    + rewrite join_cons in IH |- *. rewrite append_cons. now rewrite IH.
Qed.

Lemma drop_slashes_head c cs :
  is_slash c = false -> drop_slashes (c :: cs) = c :: cs.
Proof. intros H. cbn. now rewrite H. Qed.

(** A string whose last code unit is no slash is left alone. *)
Lemma strip_trailing_slashes_keeps s c :
  is_slash c = false ->
  strip_trailing_slashes (s ++ String c "") = (s ++ String c "")%string.
Proof.
  intros H. unfold strip_trailing_slashes.
  rewrite list_of_append. cbn [list_ascii_of_string].
  rewrite rev_app_distr. cbn [rev app].
  rewrite (drop_slashes_head c _ H).
  change (c :: rev (list_ascii_of_string s)) with ([c] ++ rev (list_ascii_of_string s)).
  rewrite rev_app_distr, rev_involutive. cbn [rev app].
  rewrite string_of_app, string_of_list_ascii_of_string. reflexivity.
Qed.

Lemma last_unit s : s <> "" -> exists s' c, s = (s' ++ String c "")%string.
Proof.
  induction s as [| c s IH]; [contradiction|]. intros _.
  destruct s as [| d s'].
  - exists "", c. reflexivity.
  - destruct IH as (s'' & e & E); [discriminate|].
    exists (String c s''), e. rewrite append_cons. now rewrite E.
Qed.

Lemma free_of_last sep s c :
  free_of sep (s ++ String c "") = true -> Ascii.eqb c sep = false.
Proof.
  rewrite free_of_app. cbn. intros H.
  apply andb_true_iff in H as (_ & H). rewrite andb_true_r in H.
  now apply negb_true_iff in H.
Qed.

Lemma strip_trailing_slashes_file dir name :
  name <> "" -> free_of "/" name = true ->
  strip_trailing_slashes (dir ++ name) = (dir ++ name)%string.
Proof.
  intros Hne Hfree. destruct (last_unit name Hne) as (n' & c & ->).
  rewrite <- append_assoc. apply strip_trailing_slashes_keeps.
  unfold is_slash. exact (free_of_last "/" n' c Hfree).
Qed.

Lemma drop_slashes_no_head cs :
  match drop_slashes cs with c :: _ => is_slash c = false | [] => True end.
Proof.
  induction cs as [| c cs IH]; cbn; [exact I|].
  destruct (is_slash c) eqn:E; [exact IH | exact E].
Qed.

Lemma drop_slashes_Forall (P : ascii -> Prop) cs :
  Forall P cs -> Forall P (drop_slashes cs).
Proof.
  induction 1 as [| c cs Hc Hcs IH]; cbn; [constructor|].
  destruct (is_slash c); [exact IH | now constructor].
Qed.

Lemma strip_trailing_slashes_free sep s :
  free_of sep s = true -> free_of sep (strip_trailing_slashes s) = true.
Proof.
  rewrite !free_of_Forall. unfold strip_trailing_slashes.
  rewrite list_ascii_of_string_of_list_ascii. intros H.
  apply Forall_rev, drop_slashes_Forall, Forall_rev, H.
Qed.

Lemma strip_trailing_slashes_end s s' :
  strip_trailing_slashes s <> (s' ++ "/")%string.
Proof.
  unfold strip_trailing_slashes. intros E.
  apply (f_equal list_ascii_of_string) in E.
  rewrite list_ascii_of_string_of_list_ascii, list_of_append in E.
  apply (f_equal (@rev ascii)) in E.
  rewrite rev_involutive, rev_app_distr in E. cbn in E.
  pose proof (drop_slashes_no_head (rev (list_ascii_of_string s))) as H.
  rewrite E in H. discriminate H.
Qed.

Lemma replace_backslash_free s :
  free_of "\" (map_chars (fun ch => if Ascii.eqb ch "\" then "/"%char else ch) s) = true.
Proof.
  apply free_of_Forall. rewrite map_chars_list.
  apply Forall_map, Forall_forall. intros c _.
  destruct (Ascii.eqb c "\") eqn:E; [reflexivity | exact E].
Qed.

Lemma replace_backslash_id s :
  free_of "\" s = true ->
  map_chars (fun ch => if Ascii.eqb ch "\" then "/"%char else ch) s = s.
Proof.
  intros H. apply map_chars_id. apply free_of_Forall in H.
  eapply Forall_impl; [exact H|]. cbn. intros c ->. reflexivity.
Qed.

Lemma normalizePath_Str s :
  normalizePath (Str s)
  = strip_trailing_slashes
      (map_chars (fun ch => if Ascii.eqb ch "\" then "/"%char else ch) s).
Proof. unfold normalizePath. destruct s; reflexivity. Qed.

Lemma normalizePath_normal v : normal (normalizePath v).
Proof.
  unfold normalizePath. split.
  - apply strip_trailing_slashes_free, replace_backslash_free.
  - apply strip_trailing_slashes_end.
Qed.

Lemma normalizePath_fixed s : normal s -> normalizePath (Str s) = s.
Proof.
  intros (Hfree & Hend). rewrite normalizePath_Str, (replace_backslash_id s Hfree).
  destruct s as [| c s]; [reflexivity|].
  destruct (last_unit (String c s)) as (s' & d & E); [discriminate|].
  rewrite E. apply strip_trailing_slashes_keeps.
  unfold is_slash. apply Ascii.eqb_neq. intros ->.
  apply (Hend s'). exact E.
Qed.

End PathProperties.

Section FolderFacts.
Import JS Numeric Paths.

Lemma toFolderPath_file dir name :
  name <> "" -> free_of "/" name = true -> free_of "\" name = true ->
  toFolderPath (Str (dir ++ "/" ++ name))
  = let folder :=
      map_chars (fun ch => if Ascii.eqb ch "\" then "/"%char else ch) dir in
    if Download.empty folder then "/" else folder.
Proof.
  intros Hne Hslash Hback. cbv zeta.
  set (folder := map_chars _ dir).
  assert (E : normalizePath (Str (dir ++ "/" ++ name)) = (folder ++ "/" ++ name)%string).
  { rewrite normalizePath_Str, !map_chars_app.
    rewrite (replace_backslash_id name Hback).
    change (map_chars _ "/") with "/".
    fold folder. rewrite <- append_assoc.
    apply (strip_trailing_slashes_file _ name Hne Hslash). }
  unfold toFolderPath. rewrite E.
  assert (Hn : Download.empty (folder ++ "/" ++ name) = false).
  { apply empty_false. destruct folder; discriminate. }
  rewrite Hn.
  change (folder ++ "/" ++ name)%string with (folder ++ String "/" name)%string.
  rewrite split_at, (split_free "/" name Hslash).
  rewrite length_app. cbn [length].
  pose proof (split_not_nil "/" folder) as Hs.
  destruct (split "/" folder) as [| h t] eqn:Es; [contradiction|].
  replace (length (h :: t) + 1 <=? 1)%nat with false
    by (symmetry; apply Nat.leb_gt; cbn; lia).
  rewrite removelast_last, <- Es.
  change "/" with (String "/"%char "") at 1 2.
  rewrite join_split. reflexivity.
Qed.

End FolderFacts.

Section PathTheorems.
Import JS Numeric Paths.

(** X4.  [sanitizeFilename] keeps the length of a name and leaves none
    of the nine characters of its class in it. *)
Theorem sanitizeFilename_safe s :
  String.length (sanitizeFilename (Str s)) = String.length s
  /\ clean (sanitizeFilename (Str s)).
Proof.
  split; [|apply sanitizeFilename_clean].
  rewrite sanitizeFilename_Str. apply map_chars_length.
Qed.

(** X5.  The names [sanitizeFilename] leaves as they are, are the names
    without a character of its class; so sanitising twice is sanitising
    once. *)
Theorem sanitizeFilename_fixed s :
  (sanitizeFilename (Str s) = s <-> clean s)
  /\ sanitizeFilename (Str (sanitizeFilename (Str s))) = sanitizeFilename (Str s).
Proof.
  assert (Hfix : forall t, clean t -> sanitizeFilename (Str t) = t).
  { intros t Ht. rewrite sanitizeFilename_Str. apply map_chars_id.
    eapply Forall_impl; [exact Ht|]. cbn. intros c ->. reflexivity. }
  split; [split|].
  - intros E. rewrite <- E. apply sanitizeFilename_clean.
  - apply Hfix.
  - apply Hfix, sanitizeFilename_clean.
Qed.

(** X6.  Whatever it is given, [normalizePath] returns a path without
    backslash that does not end in a slash, and normalising that path
    again changes nothing. *)
Theorem normalizePath_idempotent v :
  normal (normalizePath v)
  /\ normalizePath (Str (normalizePath v)) = normalizePath v.
Proof.
  split; [apply normalizePath_normal|].
  apply normalizePath_fixed, normalizePath_normal.
Qed.

(** X7.  The folder of [dir/name], for a file name without separator,
    is [dir] with its backslashes turned into slashes, and [/] when
    nothing stands before the last slash. *)
Theorem toFolderPath_of_file dir name :
  name <> "" -> free_of "/" name = true -> free_of "\" name = true ->
  toFolderPath (Str (dir ++ "/" ++ name))
  = let folder :=
      map_chars (fun ch => if Ascii.eqb ch "\" then "/"%char else ch) dir in
    if Download.empty folder then "/" else folder.
Proof. apply toFolderPath_file. Qed.

Lemma toFolderPath_of_file_witness :
  toFolderPath (Str ("C:\videos\clip" ++ "/" ++ "part 1.mp4")) = "C:/videos/clip".
Proof.
  apply (toFolderPath_of_file "C:\videos\clip" "part 1.mp4");
    [discriminate | reflexivity | reflexivity].
Defined.

End PathTheorems.

(** ** Part keys and selections *)

Section KeyFacts.
Import JS Numeric Paths.

Lemma to_string_natural_chars n :
  (0 <= n)%Z ->
  exists ds, to_string (of_Z n) = chars ds /\ ds <> [] /\ Forall is_digit ds
             /\ digits_value 10 ds = n.
Proof.
  intros Hn. rewrite (to_string_natural n Hn).
  destruct (natural_text_spec n Hn) as (ds & E & Hne & Hall & Hval & _).
  exists ds. auto.
Qed.

(** The numerals of two natural numbers differ when the numbers do. *)
Lemma to_string_inj a b :
  (0 <= a)%Z -> (0 <= b)%Z -> to_string (of_Z a) = to_string (of_Z b) -> a = b.
Proof.
  intros Ha Hb E. apply (f_equal StringToNumber) in E.
  rewrite !StringToNumber_to_string in E by assumption.
  unfold of_Z, inject_Z in E. now injection E.
Qed.

Lemma buildPartKey_parts k c :
  (0 <= c)%Z ->
  split ":" (buildPartKey (Str k) (Num (of_Z c)))
  = split ":" k ++ [to_string (of_Z c)].
Proof.
  intros Hc. unfold buildPartKey. cbn [to_text].
  change (k ++ ":" ++ to_string (of_Z c))%string
    with (k ++ String ":" (to_string (of_Z c)))%string.
  rewrite split_at. f_equal.
  destruct (to_string_natural_chars c Hc) as (ds & -> & _ & Hall & _).
  apply split_free, free_of_chars, Hall.
Qed.

Lemma buildPartKey_inj k1 c1 k2 c2 :
  (0 <= c1)%Z -> (0 <= c2)%Z ->
  buildPartKey (Str k1) (Num (of_Z c1)) = buildPartKey (Str k2) (Num (of_Z c2)) ->
  k1 = k2 /\ c1 = c2.
Proof.
  intros H1 H2 E. apply (f_equal (split ":")) in E.
  rewrite !buildPartKey_parts in E by assumption.
  apply app_inj_tail in E as (Ek & Ec). split.
  - rewrite <- (join_split ":" k1), <- (join_split ":" k2). now rewrite Ek.
  - now apply to_string_inj.
Qed.

End KeyFacts.

Section KeyTheorems.
Import JS Numeric Paths.

(** X8.  A part key tells the video key and the cid it was made of:
    two keys are equal only when both are, whatever colons the video
    key holds. *)
Theorem buildPartKey_injective k1 c1 k2 c2 :
  (0 <= c1 < 2 ^ 53)%Z -> (0 <= c2 < 2 ^ 53)%Z ->
  buildPartKey (Str k1) (Num (of_Z c1)) = buildPartKey (Str k2) (Num (of_Z c2)) ->
  k1 = k2 /\ c1 = c2.
Proof. intros H1 H2. apply buildPartKey_inj; lia. Qed.

Lemma buildPartKey_injective_witness :
  "BV1a:b" = "BV1a:b" /\ 7%Z = 7%Z.
Proof.
  apply (buildPartKey_injective "BV1a:b" 7 "BV1a:b" 7); [lia | lia | reflexivity].
Defined.

End KeyTheorems.

Section SelectionFacts.
Import JS Numeric Paths Helpers Selection.

Variable unknown : string.

Lemma Forall_map_keeps {A} (P : A -> Prop) (f : A -> A) (l : list A) :
  (forall x, P x -> P (f x)) -> Forall P l -> Forall P (map f l).
Proof.
  intros Hf H. apply Forall_map. eapply Forall_impl; [exact H | exact Hf].
Qed.

Lemma rows_built dc ddp item selected isMulti :
  map row (buildSelectedPartsConfig unknown dc ddp item selected isMulti)
  = map (row_of item) selected.
Proof.
  unfold buildSelectedPartsConfig. rewrite map_map. reflexivity.
Qed.

Lemma aligned_with_selection dc ddp item selected isMulti :
  aligned (with_selection item selected
             (buildSelectedPartsConfig unknown dc ddp item selected isMulti)).
Proof.
  unfold aligned. cbn [selectedPartsConfig selectedParts with_selection].
  rewrite rows_built. reflexivity.
Qed.

Lemma aligned_same_rows item (g : Download.part_config -> Download.part_config) :
  (forall c, row (g c) = row c) -> aligned item ->
  aligned (with_selection item (selectedParts item) (map g (selectedPartsConfig item))).
Proof.
  intros Hg H. unfold aligned in *.
  cbn [selectedPartsConfig selectedParts with_selection].
  rewrite map_map. change (map (row_of (with_selection _ _ _))) with (map (row_of item)).
  rewrite <- H. apply map_ext. exact Hg.
Qed.

(** Whatever the page does between two searches, the rows of the table
    of selected parts stay in step with the selected parts. *)
Lemma reachable_aligned_all initial s :
  Forall (fun item => selectedParts item = [] /\ selectedPartsConfig item = []) initial ->
  reachable unknown initial s -> Forall aligned s.
Proof.
  intros Hinit Hr. induction Hr as
      [| dc ddp s item p _ IH _ _ | dc ddp s item _ IH _
       | s config field value _ IH _ | dc ddp s _ IH].
  - eapply Forall_impl; [exact Hinit|]. cbn. intros item (E1 & E2).
    unfold aligned. now rewrite E1, E2.
  - unfold togglePart. apply Forall_map_keeps; [|exact IH].
    intros x Hx. destruct (negb (String.eqb (key x) (key item))); [exact Hx|].
    apply aligned_with_selection.
  - unfold toggleSelectAll. apply Forall_map_keeps; [|exact IH].
    intros x Hx. destruct (negb (String.eqb (key x) (key item))); [exact Hx|].
    apply aligned_with_selection.
  - unfold updatePartConfig. apply Forall_map_keeps; [|exact IH].
    intros x Hx. destruct (negb _); [exact Hx|].
    apply aligned_same_rows; [|exact Hx].
    intros c. destruct (String.eqb _ _); reflexivity.
  - unfold refreshFilePaths. apply Forall_map_keeps; [|exact IH].
    intros x Hx. destruct (length _ =? 0)%nat; [exact Hx|].
    apply aligned_same_rows; [|exact Hx].
    intros c. destruct (find _ _); [|reflexivity].
    destruct (String.eqb _ _); reflexivity.
Qed.

Lemma aligned_length item :
  aligned item -> length (selectedPartsConfig item) = length (selectedParts item).
Proof.
  unfold aligned. intros H. apply (f_equal (@length _)) in H.
  now rewrite !length_map in H.
Qed.

Lemma flat_map_length_eq {A B C} (f : A -> list B) (g : A -> list C) l :
  Forall (fun x => length (f x) = length (g x)) l ->
  length (flat_map f l) = length (flat_map g l).
Proof.
  induction 1 as [| x l Hx _ IH]; [reflexivity|].
  cbn. rewrite !length_app. congruence.
Qed.

End SelectionFacts.

(** *** The selected parts follow the order of the parts *)

Section OrderFacts.
Import JS Numeric Paths Helpers Selection.

Lemma num_eq_of_Z a b : num_eq (of_Z a) (of_Z b) = (a =? b)%Z.
Proof.
  unfold num_eq, of_Z. destruct (Z.eqb_spec a b) as [-> | Hne].
  - apply Qeq_bool_refl.
  - destruct (Qeq_bool (inject_Z a) (inject_Z b)) eqn:E; [|reflexivity].
    apply Qeq_bool_eq in E. unfold Qeq in E. cbn in E. lia.
Qed.

Lemma In_insert_by {A} (rank : A -> Z) x y l :
  In y (insert_by rank x l) <-> y = x \/ In y l.
Proof.
  induction l as [| z l IH]; cbn.
  - split; intros [H | H]; auto.
  - destruct (rank z <? rank x)%Z; cbn; [rewrite IH|]; intuition auto.
Qed.

Lemma In_sort_by {A} (rank : A -> Z) y l :
  In y (sort_by rank l) <-> In y l.
Proof.
  induction l as [| x l IH]; cbn; [reflexivity|].
  rewrite In_insert_by, IH. intuition auto.
Qed.

Lemma insert_by_sorted {A} (rank : A -> Z) x l :
  StronglySorted (fun a b => (rank a < rank b)%Z) l ->
  Forall (fun y => rank y <> rank x) l ->
  StronglySorted (fun a b => (rank a < rank b)%Z) (insert_by rank x l).
Proof.
  induction 1 as [| z l Hs IH Hz]; intros Hne; cbn.
  - constructor; constructor.
  - inversion Hne as [| ? ? Hzx Hl]; subst.
    destruct (Z.ltb_spec (rank z) (rank x)) as [Hlt | Hge].
    + constructor; [apply IH, Hl|].
      apply List.Forall_forall. intros y Hy. apply In_insert_by in Hy as [-> | Hy]; [exact Hlt|].
      rewrite List.Forall_forall in Hz. now apply Hz.
    + constructor; [now constructor|].
      constructor; [lia|].
      eapply Forall_impl; [exact Hz|]. cbn. intros y Hy. lia.
Qed.

Lemma sort_by_sorted {A} (rank : A -> Z) l :
  NoDup (map rank l) ->
  StronglySorted (fun a b => (rank a < rank b)%Z) (sort_by rank l).
Proof.
  induction l as [| x l IH]; cbn; [constructor|].
  intros H. apply NoDup_cons in H as (Hx & Hl).
  apply insert_by_sorted; [apply IH, Hl|].
  apply List.Forall_forall. intros y Hy E. apply In_sort_by in Hy.
  apply Hx, list_elem_of_In. rewrite <- E. now apply in_map.
Qed.

Lemma sorted_NoDup {A} (rank : A -> Z) l :
  StronglySorted (fun a b => (rank a < rank b)%Z) l -> NoDup (map rank l).
Proof.
  induction 1 as [| x l _ IH Hx]; cbn; [constructor|].
  apply NoDup_cons. split; [|exact IH].
  intros Hin. apply list_elem_of_In, in_map_iff in Hin as (y & E & Hy).
  rewrite List.Forall_forall in Hx. specialize (Hx y Hy). lia.
Qed.

Lemma sorted_filter {A} (R : A -> A -> Prop) (f : A -> bool) l :
  StronglySorted R l -> StronglySorted R (List.filter f l).
Proof.
  induction 1 as [| x l _ IH Hx]; cbn; [constructor|].
  destruct (f x); [|exact IH].
  constructor; [exact IH|].
  apply List.Forall_forall. intros y Hy. apply filter_In in Hy as (Hy & _).
  rewrite List.Forall_forall in Hx. now apply Hx.
Qed.

Lemma sorted_members {A} (R R' : A -> A -> Prop) l :
  (forall x y, In x l -> In y l -> R x y -> R' x y) ->
  StronglySorted R l -> StronglySorted R' l.
Proof.
  intros HR H. induction H as [| x l _ IH Hx]; [constructor|].
  constructor.
  - apply IH. intros a b Ha Hb. apply HR; now right.
  - apply List.Forall_forall. intros y Hy. rewrite List.Forall_forall in Hx.
    apply HR; [now left | now right | now apply Hx].
Qed.

Lemma findIndex_found {A} (f : A -> bool) l :
  (exists t, In t l /\ f t = true) -> (0 <= findIndex f l)%Z.
Proof.
  induction l as [| x l IH]; intros (t & Ht & Hf); [contradiction|].
  cbn. destruct (f x) eqn:E; [lia|].
  destruct Ht as [-> | Ht]; [congruence|].
  specialize (IH (ex_intro _ t (conj Ht Hf))).
  destruct (Z.ltb_spec (findIndex f l) 0); lia.
Qed.

Lemma numbered_tail a ps : numbered (a :: ps) -> numbered ps.
Proof.
  intros (ns & E & Hnd & Hall). destruct ns as [| n ns]; [discriminate|].
  cbn in E. injection E as _ E.
  exists ns. split; [exact E|]. split.
  - now apply NoDup_cons in Hnd as (_ & Hnd).
  - now inversion Hall.
Qed.

Lemma numbered_cid ps p :
  numbered ps -> In p ps -> exists n, cid p = Num (of_Z n) /\ (0 <= n < 2 ^ 53)%Z.
Proof.
  intros (ns & E & _ & Hall) Hp.
  apply (in_map cid) in Hp. rewrite E in Hp.
  apply in_map_iff in Hp as (n & En & Hn).
  exists n. split; [now symmetry|].
  rewrite List.Forall_forall in Hall. now apply Hall.
Qed.

Lemma numbered_head a ps p :
  numbered (a :: ps) -> In p ps -> strict_eq (cid a) (cid p) = false.
Proof.
  intros (ns & E & Hnd & _) Hp. destruct ns as [| m ns]; [discriminate|].
  cbn in E. injection E as Ea E.
  apply (in_map cid) in Hp. rewrite E in Hp.
  apply in_map_iff in Hp as (n & En & Hn).
  rewrite Ea, <- En. cbn [strict_eq]. rewrite num_eq_of_Z.
  apply Z.eqb_neq. intros ->.
  apply NoDup_cons in Hnd as (Hm & _). now apply Hm, list_elem_of_In.
Qed.

Lemma strict_eq_numbered ps p :
  numbered ps -> In p ps -> strict_eq (cid p) (cid p) = true.
Proof.
  intros Hn Hp. destruct (numbered_cid ps p Hn Hp) as (n & -> & _).
  cbn [strict_eq]. rewrite num_eq_of_Z. apply Z.eqb_refl.
Qed.

(** Positions in a list and in its tail. *)
Lemma position_in_head a ps :
  numbered (a :: ps) -> position_in (a :: ps) a = 0%Z.
Proof.
  intros Hn. unfold position_in. cbn [findIndex].
  now rewrite (strict_eq_numbered (a :: ps) a Hn (or_introl eq_refl)).
Qed.

Lemma position_in_tail a ps p :
  numbered (a :: ps) -> In p ps ->
  position_in (a :: ps) p = (position_in ps p + 1)%Z /\ (0 <= position_in ps p)%Z.
Proof.
  intros Hn Hp. unfold position_in. cbn [findIndex].
  rewrite (numbered_head a ps p Hn Hp).
  assert (H : (0 <= findIndex (fun target => strict_eq (cid target) (cid p)) ps)%Z).
  { apply findIndex_found. exists p. split; [exact Hp|].
    apply (strict_eq_numbered ps p (numbered_tail a ps Hn) Hp). }
  destruct (Z.ltb_spec (findIndex (fun target => strict_eq (cid target) (cid p)) ps) 0);
    [lia | auto].
Qed.

Lemma numbered_in_order ps : numbered ps -> in_order ps ps.
Proof.
  unfold in_order. induction ps as [| a ps IH]; intros Hn; [constructor|].
  constructor.
  - apply (sorted_members (fun x y => (position_in ps x < position_in ps y)%Z)).
    + intros x y Hx Hy Hxy.
      destruct (position_in_tail a ps x Hn Hx) as (-> & _).
      destruct (position_in_tail a ps y Hn Hy) as (-> & _). lia.
    + apply IH, (numbered_tail a ps Hn).
  - apply List.Forall_forall. intros p Hp.
    rewrite (position_in_head a ps Hn).
    destruct (position_in_tail a ps p Hn Hp) as (-> & H). lia.
Qed.

(** Members of a list, taken in its order, make a sublist of it. *)
Lemma in_order_sublist ps :
  numbered ps ->
  forall l, Forall (fun p => In p ps) l -> in_order ps l -> sublist l ps.
Proof.
  unfold in_order. induction ps as [| a ps IH]; intros Hn l Hin Hs.
  - destruct l as [| x l]; [constructor|]. inversion Hin as [| ? ? Hx _]; contradiction.
  - pose proof (numbered_tail a ps Hn) as Hn'.
    assert (Hshift : forall l',
               Forall (fun p => In p ps) l' ->
               StronglySorted (fun x y => (position_in (a :: ps) x < position_in (a :: ps) y)%Z) l' ->
               sublist l' ps).
    { intros l' Hin' Hs'. apply (IH Hn' l' Hin').
      apply (sorted_members _ _ l' ) with (2 := Hs').
      intros x y Hx Hy Hxy. rewrite List.Forall_forall in Hin'.
      destruct (position_in_tail a ps x Hn (Hin' x Hx)) as (Ex & _).
      destruct (position_in_tail a ps y Hn (Hin' y Hy)) as (Ey & _). lia. }
    destruct l as [| x l]; [apply sublist_nil_l|].
    inversion Hin as [| ? ? Hx Hl]; subst.
    inversion Hs as [| ? ? Hsl Hxl]; subst.
    assert (Hpos : forall y, In y (a :: ps) -> (0 < position_in (a :: ps) y)%Z -> In y ps).
    { intros y [<- | Hy] H0; [|exact Hy].
      rewrite (position_in_head a ps Hn) in H0. lia. }
    destruct Hx as [<- | Hx].
    + apply sublist_skip. apply Hshift; [|exact Hsl].
      apply List.Forall_forall. intros y Hy.
      rewrite List.Forall_forall in Hl, Hxl.
      apply Hpos; [now apply Hl|].
      specialize (Hxl y Hy). rewrite (position_in_head a ps Hn) in Hxl. exact Hxl.
    + apply sublist_cons. apply Hshift; [|exact Hs].
      destruct (position_in_tail a ps x Hn Hx) as (Ex & H0).
      constructor; [exact Hx|].
      apply List.Forall_forall. intros y Hy.
      rewrite List.Forall_forall in Hl, Hxl.
      apply Hpos; [now apply Hl|]. specialize (Hxl y Hy). lia.
Qed.

(** Two parts of a list at the same position have the same cid. *)
Lemma position_in_inj ps x y :
  numbered ps -> In x ps -> In y ps ->
  position_in ps x = position_in ps y -> strict_eq (cid x) (cid y) = true.
Proof.
  induction ps as [| a ps IH]; intros Hn Hx Hy E; [contradiction|].
  pose proof (numbered_tail a ps Hn) as Hn'.
  destruct Hx as [<- | Hx], Hy as [<- | Hy].
  - apply (strict_eq_numbered (a :: ps) a Hn). now left.
  - rewrite (position_in_head a ps Hn) in E.
    destruct (position_in_tail a ps y Hn Hy) as (Ey & H0). lia.
  - rewrite (position_in_head a ps Hn) in E.
    destruct (position_in_tail a ps x Hn Hx) as (Ex & H0). lia.
  - destruct (position_in_tail a ps x Hn Hx) as (Ex & _).
    destruct (position_in_tail a ps y Hn Hy) as (Ey & _).
    apply (IH Hn' Hx Hy). lia.
Qed.

End OrderFacts.

Section OrderInvariant.
Import JS Numeric Paths Helpers Selection.

Variable unknown : string.

Lemma same_key_same_item (s : list video_item) x item :
  NoDup (map key s) -> In x s -> In item s -> key x = key item -> x = item.
Proof.
  induction s as [| a s IH]; intros Hnd Hx Hi E; [contradiction|].
  cbn in Hnd. apply NoDup_cons in Hnd as (Ha & Hnd).
  assert (Hout : forall y, In y s -> key y <> key a).
  { intros y Hy Ey. apply Ha, list_elem_of_In. rewrite <- Ey. now apply in_map. }
  destruct Hx as [<- | Hx], Hi as [<- | Hi]; auto.
  - exfalso. apply (Hout item Hi). now symmetry.
  - exfalso. now apply (Hout x Hx).
Qed.

Lemma orderly_with_selection item selected configs :
  numbered (parts item) ->
  Forall (fun p => In p (parts item)) selected ->
  in_order (parts item) selected ->
  orderly (with_selection item selected configs).
Proof. intros H1 H2 H3. repeat split; assumption. Qed.

Lemma orderly_same_selection item configs :
  orderly item -> orderly (with_selection item (selectedParts item) configs).
Proof. intros (H1 & H2 & H3). now apply orderly_with_selection. Qed.

(** Taking a part of the video in or out of the selection keeps the
    selection in order. *)
Lemma orderly_toggle item p configs :
  orderly item -> In p (parts item) ->
  orderly
    (with_selection item
       (if existsb (fun selected => strict_eq (cid selected) (cid p)) (selectedParts item)
        then List.filter (fun selected => negb (strict_eq (cid selected) (cid p)))
                         (selectedParts item)
        else sort_by (position item) (selectedParts item ++ [p]))
       configs).
Proof.
  intros (Hn & Hin & Hs) Hp. apply orderly_with_selection; [exact Hn | |].
  - destruct (existsb _ _).
    + apply List.Forall_forall. intros y Hy. apply filter_In in Hy as (Hy & _).
      rewrite List.Forall_forall in Hin. now apply Hin.
    + apply List.Forall_forall. intros y Hy. apply In_sort_by, in_app_iff in Hy.
      rewrite List.Forall_forall in Hin.
      destruct Hy as [Hy | [<- | []]]; [now apply Hin | exact Hp].
  - destruct (existsb _ _) eqn:Ex.
    + apply sorted_filter, Hs.
    + apply sort_by_sorted. rewrite map_app. cbn [map].
      apply NoDup_app. split; [apply sorted_NoDup, Hs|]. split.
      * intros i Hi Hi'. apply list_elem_of_In in Hi, Hi'.
        destruct Hi' as [E | []].
        apply in_map_iff in Hi as (y & Ey & Hy).
        assert (Hsame : strict_eq (cid y) (cid p) = true).
        { rewrite List.Forall_forall in Hin.
          apply (position_in_inj (parts item) y p Hn (Hin y Hy) Hp).
          unfold position_in. unfold position in Ey, E. congruence. }
        assert (Hex : existsb (fun selected => strict_eq (cid selected) (cid p))
                              (selectedParts item) = true).
        { apply existsb_exists. exists y. auto. }
        congruence.
      * apply NoDup_singleton.
Qed.

Lemma reachable_orderly_all initial s :
  NoDup (map key initial) ->
  Forall (fun item => numbered (parts item) /\ selectedParts item = []) initial ->
  reachable unknown initial s ->
  NoDup (map key s) /\ Forall orderly s.
Proof.
  intros Hkeys Hinit Hr. induction Hr as
      [| dc ddp s item p _ IH Hitem Hp | dc ddp s item _ IH Hitem
       | s config field value _ IH _ | dc ddp s _ IH].
  - split; [exact Hkeys|].
    eapply Forall_impl; [exact Hinit|]. cbn. intros item (Hn & E).
    unfold orderly, in_order. rewrite E. repeat split; [exact Hn | constructor | constructor].
  - destruct IH as (Hnd & IH). unfold togglePart. split.
    + rewrite map_map. erewrite map_ext; [exact Hnd|].
      intros x. cbn. destruct (negb _); reflexivity.
    + apply List.Forall_forall. intros y Hy.
      apply in_map_iff in Hy as (x & <- & Hx).
      rewrite List.Forall_forall in IH.
      destruct (String.eqb_spec (key x) (key item)) as [E | _]; cbn [negb];
        [|now apply IH].
      assert (x = item) as -> by now apply (same_key_same_item s).
      apply orderly_toggle; [now apply IH | exact Hp].
  - destruct IH as (Hnd & IH). unfold toggleSelectAll. split.
    + rewrite map_map. erewrite map_ext; [exact Hnd|].
      intros x. cbn. destruct (negb _); reflexivity.
    + apply List.Forall_forall. intros y Hy.
      apply in_map_iff in Hy as (x & <- & Hx).
      rewrite List.Forall_forall in IH.
      destruct (negb _); [now apply IH|].
      destruct (IH x Hx) as (Hn & _ & _).
      destruct (_ && _).
      * apply orderly_with_selection; [exact Hn | constructor | constructor].
      * apply orderly_with_selection; [exact Hn | | now apply numbered_in_order].
        apply List.Forall_forall. auto.
  - destruct IH as (Hnd & IH). unfold updatePartConfig. split.
    + rewrite map_map. erewrite map_ext; [exact Hnd|].
      intros x. cbn. destruct (negb _); reflexivity.
    + apply List.Forall_forall. intros y Hy.
      apply in_map_iff in Hy as (x & <- & Hx).
      rewrite List.Forall_forall in IH.
      destruct (negb _); [now apply IH|].
      apply orderly_same_selection. now apply IH.
  - destruct IH as (Hnd & IH). unfold refreshFilePaths. split.
    + rewrite map_map. erewrite map_ext; [exact Hnd|].
      intros x. cbn. destruct (_ =? _)%nat; reflexivity.
    + apply List.Forall_forall. intros y Hy.
      apply in_map_iff in Hy as (x & <- & Hx).
      rewrite List.Forall_forall in IH.
      destruct (_ =? _)%nat; [now apply IH|].
      apply orderly_same_selection. now apply IH.
Qed.

End OrderInvariant.

Section RowFacts.
Import JS Numeric Paths Helpers Selection.

Variable unknown : string.

Lemma NoDup_map_transfer {A B C} (f : A -> B) (g : A -> C) (l : list A) :
  (forall x y, In x l -> In y l -> g x = g y -> f x = f y) ->
  NoDup (map f l) -> NoDup (map g l).
Proof.
  induction l as [| a l IH]; intros H Hnd; cbn; [constructor|].
  cbn in Hnd. apply NoDup_cons in Hnd as (Ha & Hnd).
  apply NoDup_cons. split.
  - intros Hin. apply list_elem_of_In, in_map_iff in Hin as (y & E & Hy).
    apply Ha, list_elem_of_In. rewrite <- (H y a); [now apply in_map | now right | now left | exact E].
  - apply IH; [|exact Hnd]. intros x y Hx Hy. apply H; now right.
Qed.

Lemma find_unique {A} (f : A -> string) (l : list A) (x : A) :
  NoDup (map f l) -> In x l ->
  find (fun y => String.eqb (f y) (f x)) l = Some x.
Proof.
  induction l as [| a l IH]; intros Hnd Hx; [contradiction|].
  cbn in Hnd. apply NoDup_cons in Hnd as (Ha & Hnd). cbn [find].
  destruct Hx as [-> | Hx]; [now rewrite String.eqb_refl|].
  destruct (String.eqb_spec (f a) (f x)) as [E | _]; [|now apply IH].
  exfalso. apply Ha, list_elem_of_In. rewrite E. now apply in_map.
Qed.

Lemma position_in_same ps x y :
  numbered ps -> In x ps -> In y ps -> cid x = cid y ->
  position_in ps x = position_in ps y.
Proof. intros _ _ _ E. unfold position_in. now rewrite E. Qed.

(** In an orderly video, different selected parts have different keys. *)
Lemma orderly_keys item :
  orderly item ->
  NoDup (map (fun p => buildPartKey (Str (key item)) (cid p)) (selectedParts item)).
Proof.
  intros (Hn & Hin & Hs).
  apply (NoDup_map_transfer (position_in (parts item))); [|apply sorted_NoDup, Hs].
  intros x y Hx Hy E. rewrite List.Forall_forall in Hin.
  destruct (numbered_cid _ x Hn (Hin x Hx)) as (a & Ea & Ha).
  destruct (numbered_cid _ y Hn (Hin y Hy)) as (b & Eb & Hb).
  rewrite Ea, Eb in E. apply buildPartKey_inj in E as (_ & ->); [|lia|lia].
  unfold position_in. now rewrite Ea, Eb.
Qed.

Lemma aligned_keys item :
  aligned item ->
  map Download.key (selectedPartsConfig item)
  = map (fun p => buildPartKey (Str (key item)) (cid p)) (selectedParts item).
Proof.
  unfold aligned. intros H.
  apply (f_equal (map (fun r : string * value * string => fst (fst r)))) in H.
  rewrite !map_map in H. exact H.
Qed.

(** The row of a selected part: every row belongs to a selected part
    with its cid and key. *)
Lemma aligned_row item config :
  aligned item -> In config (selectedPartsConfig item) ->
  exists p, In p (selectedParts item) /\ row config = row_of item p.
Proof.
  unfold aligned. intros H Hc.
  apply (in_map row) in Hc. rewrite H in Hc.
  apply in_map_iff in Hc as (p & E & Hp). exists p. auto.
Qed.

(** What [buildSelectedPartsConfig] makes of a part that has a row
    already: the times of the row, where they are not empty. *)
Lemma built_from_row dc ddp item selected isMulti config p :
  aligned item -> orderly item ->
  In config (selectedPartsConfig item) ->
  Download.key config = buildPartKey (Str (key item)) (cid p) ->
  In p selected ->
  exists config',
    In config' (buildSelectedPartsConfig unknown dc ddp item selected isMulti)
    /\ Download.key config' = Download.key config
    /\ Download.cid config' = cid p
    /\ Download.startTime config'
       = (if Download.empty (Download.startTime config) then "00:00:00"
          else Download.startTime config)
    /\ Download.endTime config'
       = (if Download.empty (Download.endTime config)
          then formatDurationHms (duration p) else Download.endTime config).
Proof.
  intros Hal Hord Hc Hkey Hp.
  assert (Hnd : NoDup (map Download.key (selectedPartsConfig item))).
  { rewrite (aligned_keys item Hal). apply orderly_keys, Hord. }
  pose proof (find_unique Download.key _ config Hnd Hc) as Hfind.
  rewrite Hkey in Hfind.
  eexists. split.
  - unfold buildSelectedPartsConfig. apply in_map_iff. exists p. split; [reflexivity | exact Hp].
  - cbn [Download.key Download.cid Download.startTime Download.endTime].
    rewrite Hfind. cbn [time_or]. auto.
Qed.

End RowFacts.

Section TableFacts.
Import JS Numeric Paths Helpers Selection.



End TableFacts.

Section SelectionSampleFacts.
Import JS Numeric Paths Helpers Selection SelectionSamples.

Lemma video_searched : searched [video].
Proof.
  split.
  - cbn. apply NoDup_singleton.
  - repeat constructor.
Qed.

Lemma video_numbered : Forall (fun item => numbered (parts item)) [video].
Proof.
  constructor; [|constructor]. exists [101%Z; 102%Z]. split; [reflexivity|]. split.
  - apply NoDup_cons. split; [|apply NoDup_singleton].
    intros H. apply list_elem_of_In in H. destruct H as [H | []]. discriminate H.
  - repeat constructor; lia.
Qed.

Lemma both_selected_reachable : reachable "unknown" [video] both_selected.
Proof.
  unfold both_selected.
  apply (reach_togglePart "unknown" [video] settings ""
           (togglePart "unknown" settings "" "BV1xx411c7mD" page_2 [video])
           (with_selection video [page_2]
              (buildSelectedPartsConfig "unknown" settings "" video [page_2] false))
           page_1).
  - apply (reach_togglePart "unknown" [video] settings "" [video] video page_2).
    + constructor.
    + now left.
    + right. now left.
  - now left.
  - now left.
Qed.

End SelectionSampleFacts.

Section SelectionTheorems.
Import JS Numeric Paths Helpers Selection SelectionSamples Download.

(** X9.  Between two searches, whatever parts are selected, deselected
    or edited, the table of selected parts has one row for each selected
    part, in the same order, with the cid, title and key of the part;
    so [selectedCount] is the number of rows. *)
Theorem rows_follow_selection unknown initial s :
  searched initial -> reachable unknown initial s ->
  Forall aligned s
  /\ length (all_selectedPartsConfig s) = Selection.selectedCount s.
Proof.
  intros (_ & Hinit) Hr.
  pose proof (reachable_aligned_all unknown initial s Hinit Hr) as H.
  split; [exact H|].
  unfold Selection.selectedCount, all_selectedPartsConfig, all_selectedParts.
  apply flat_map_length_eq.
  eapply Forall_impl; [exact H|]. exact aligned_length.
Qed.

Lemma rows_follow_selection_witness :
  Forall aligned both_selected
  /\ length (all_selectedPartsConfig both_selected) = Selection.selectedCount both_selected.
Proof.
  apply (rows_follow_selection "unknown" [video] both_selected).
  - exact video_searched.
  - exact both_selected_reachable.
Defined.

(** X10.  When the parts of each video have different cids, the selected
    parts of a video are always parts of it, each at most once, in the
    order of the video: the order of the clicks does not show. *)
Theorem selection_in_order unknown initial s item :
  searched initial -> Forall (fun v => numbered (parts v)) initial ->
  reachable unknown initial s -> In item s ->
  sublist (Selection.selectedParts item) (parts item).
Proof.
  intros (Hkeys & Hempty) Hnum Hr Hitem.
  assert (Hinit : Forall (fun v => numbered (parts v) /\ Selection.selectedParts v = []) initial).
  { apply List.Forall_forall. intros v Hv.
    rewrite List.Forall_forall in Hnum, Hempty.
    split; [now apply Hnum | now apply Hempty]. }
  destruct (reachable_orderly_all unknown initial s Hkeys Hinit Hr) as (_ & H).
  rewrite List.Forall_forall in H. destruct (H item Hitem) as (Hn & Hin & Hs).
  now apply in_order_sublist.
Qed.

Lemma selection_in_order_witness :
  sublist [page_1; page_2] [page_1; page_2].
Proof.
  apply (selection_in_order "unknown" [video] both_selected
           (with_selection video [page_1; page_2]
              (buildSelectedPartsConfig "unknown" settings ""
                 (with_selection video [page_2]
                    (buildSelectedPartsConfig "unknown" settings "" video [page_2] false))
                 [page_1; page_2] false))).
  - exact video_searched.
  - exact video_numbered.
  - exact both_selected_reachable.
  - now left.
Defined.

(** X11.  Trim times typed for a selected part survive the selection
    or deselection of another part of the video: the part keeps a row
    with its key, and the times of that row that are not empty. *)
Theorem trim_times_survive_toggle unknown initial s item config p dc ddp item' :
  searched initial -> Forall (fun v => numbered (parts v)) initial ->
  reachable unknown initial s ->
  In item s -> In config (Selection.selectedPartsConfig item) ->
  In p (parts item) -> strict_eq (cid config) (Selection.cid p) = false ->
  In item' (togglePart unknown dc ddp (Selection.key item) p s) ->
  Selection.key item' = Selection.key item ->
  exists config',
    In config' (Selection.selectedPartsConfig item')
    /\ key config' = key config
    /\ (startTime config <> "" -> startTime config' = startTime config)
    /\ (endTime config <> "" -> endTime config' = endTime config).
Proof.
  intros (Hkeys & Hempty) Hnum Hr Hitem Hconfig Hp Hother Hitem' Hkey.
  assert (Hinit : Forall (fun v => numbered (parts v) /\ Selection.selectedParts v = []) initial).
  { apply List.Forall_forall. intros v Hv.
    rewrite List.Forall_forall in Hnum, Hempty.
    split; [now apply Hnum | now apply Hempty]. }
  destruct (reachable_orderly_all unknown initial s Hkeys Hinit Hr) as (Hnd & Hord).
  pose proof (reachable_aligned_all unknown initial s Hempty Hr) as Hal.
  rewrite List.Forall_forall in Hord, Hal.
  specialize (Hord item Hitem). specialize (Hal item Hitem).
  unfold togglePart in Hitem'. apply in_map_iff in Hitem' as (x & Ex & Hx).
  assert (x = item) as ->.
  { apply (same_key_same_item s); try assumption.
    rewrite <- Hkey, <- Ex. destruct (negb _); reflexivity. }
  rewrite String.eqb_refl in Ex. cbn [negb] in Ex.
  destruct (aligned_row item config Hal Hconfig) as (q & Hq & Erow).
  unfold row, row_of in Erow. injection Erow as Ekey Ecid _.
  rewrite Ecid in Hother.
  set (next := if existsb _ _ then _ else _) in Ex.
  assert (Hnext : In q next).
  { unfold next. destruct (existsb _ _).
    - apply filter_In. split; [exact Hq|]. now rewrite Hother.
    - apply In_sort_by, in_app_iff. now left. }
  destruct (built_from_row unknown dc ddp item next (1 <? length s)%nat config q
              Hal Hord Hconfig Ekey Hnext)
    as (config' & Hin & Ek & _ & Es & Ee).
  exists config'. rewrite <- Ex. cbn [Selection.selectedPartsConfig with_selection].
  split; [exact Hin|]. split; [exact Ek|]. split.
  - intros Hne. apply empty_false in Hne. now rewrite Es, Hne.
  - intros Hne. apply empty_false in Hne. now rewrite Ee, Hne.
Qed.

Lemma trim_times_survive_toggle_witness :
  exists config',
    In config' (Selection.selectedPartsConfig first_deselected)
    /\ key config' = key edited_row
    /\ (startTime edited_row <> "" -> startTime config' = startTime edited_row)
    /\ (endTime edited_row <> "" -> endTime config' = endTime edited_row).
Proof.
  apply (trim_times_survive_toggle "unknown" [video] edited edited_video edited_row
           page_1 settings "" first_deselected).
  - exact video_searched.
  - exact video_numbered.
  - apply (reach_updatePartConfig "unknown" [video] both_selected
             (with_time edited_row Selection.startTime "00:00:00")
             Selection.startTime "00:10:00" both_selected_reachable).
    vm_compute. right. left. reflexivity.
  - vm_compute. left. reflexivity.
  - vm_compute. right. left. reflexivity.
  - left. reflexivity.
  - vm_compute. reflexivity.
  - vm_compute. left. reflexivity.
  - reflexivity.
Defined.

(** X12.  A part selected for the first time gets the trim times
    00:00:00 and its duration.  The loop of [validateIntegrationForm]
    accepts them when the duration is from 1 second to below 24 hours;
    it reports the end time of a longer part as badly formatted, and
    the start of a part of less than a second as not before its end. *)
Theorem fresh_part_checked unknown dc ddp item p isMulti q index :
  Selection.selectedPartsConfig item = [] -> duration p = Num (Finite q) ->
  validateParts index (buildSelectedPartsConfig unknown dc ddp item [p] isMulti)
  = if (86400 <=? Qfloor q)%Z then Invalid (BadEndTime (index + 1))
    else if (Qfloor q <? 1)%Z then Invalid (StartNotBeforeEnd (index + 1))
    else Valid.
Proof.
  intros Hnone Hd. unfold buildSelectedPartsConfig. rewrite Hnone.
  cbn [map find time_or validateParts startTime endTime]. rewrite Hd.
  change (isValidTimeFormat "00:00:00") with true. cbn [negb].
  pose proof (isValidTimeFormat_formatDurationHms q) as Hv.
  destruct (Z.leb_spec 86400 (Qfloor q)) as [Hlong | Hshort].
  - destruct (isValidTimeFormat (formatDurationHms (Num (Finite q)))); [|reflexivity].
    destruct Hv as (Hv & _). specialize (Hv eq_refl). lia.
  - destruct Hv as (_ & Hv). rewrite (Hv Hshort). cbn [negb].
    change (Download.empty "00:00:00") with false.
    assert (Hne : Download.empty (formatDurationHms (Num (Finite q))) = false).
    { rewrite formatDurationHms_clock. apply three_parts_not_empty. }
    rewrite Hne. cbn [negb andb].
    rewrite timeToSeconds_formatDurationHms.
    change (timeToSeconds "00:00:00") with (of_Z 0).
    unfold ge. cbn [of_Z]. fold (of_Z 0) (of_Z (Z.max 0 (Qfloor q))).
    rewrite lt_of_Z.
    destruct (Z.ltb_spec (Qfloor q) 1), (Z.ltb_spec 0 (Z.max 0 (Qfloor q)));
      try reflexivity; lia.
Qed.

Lemma fresh_part_checked_witness :
  validateParts 0 (buildSelectedPartsConfig "unknown" settings "" video [page_1] false)
  = Valid.
Proof.
  apply (fresh_part_checked "unknown" settings "" video page_1 false 95 0);
    reflexivity.
Defined.



End SelectionTheorems.

(** *** Expected file paths *)

Section ExpectedPathFacts.
Import JS Numeric Paths Helpers Selection.

Lemma sanitizeFilename_not_empty t :
  t <> "" -> sanitizeFilename (Str t) <> "".
Proof.
  intros Hne E. apply (f_equal String.length) in E.
  rewrite sanitizeFilename_Str, map_chars_length in E.
  destruct t; [contradiction | discriminate].
Qed.

Lemma or_Str_not_empty v unknown :
  unknown <> "" -> (v = Undefined \/ exists t, v = Str t) ->
  exists t, or_ v (Str unknown) = Str t /\ t <> "".
Proof.
  intros Hu [-> | (t & ->)].
  - exists unknown. auto.
  - destruct t as [| c t].
    + exists unknown. auto.
    + exists (String c t). split; [reflexivity | discriminate].
Qed.

Lemma file_name_free s :
  let fileName := (sanitizeFilename (Str s) ++ ".mp4")%string in
  fileName <> "" /\ free_of "/" fileName = true /\ free_of "\" fileName = true.
Proof.
  cbv zeta. destruct (clean_free _ (sanitizeFilename_clean (Str s))) as (H1 & H2).
  split; [|split].
  - destruct (sanitizeFilename (Str s)); discriminate.
  - rewrite free_of_app, H1. reflexivity.
  - rewrite free_of_app, H2. reflexivity.
Qed.

(** A row brought in line with the expected path stays as it is when
    brought in line again. *)
Lemma row_refresh_twice (path : page -> string) (ps : list page) c :
  let g := fun c : Download.part_config =>
             match find (fun p => strict_eq (cid p) (Download.cid c)) ps with
             | None => c
             | Some t => if String.eqb (path t) (Download.filePath c) then c
                         else with_filePath c (path t)
             end in
  g (g c) = g c.
Proof.
  cbv zeta. destruct (find (fun p => strict_eq (cid p) (Download.cid c)) ps) as [t |] eqn:Ef.
  - rewrite !Ef. destruct (String.eqb (path t) (Download.filePath c)) eqn:Ep.
    + now rewrite Ef, Ep.
    + cbn [Download.cid with_filePath Download.filePath]. rewrite Ef.
      now rewrite String.eqb_refl.
  - now rewrite !Ef.
Qed.

End ExpectedPathFacts.

Section ExpectedPathTheorems.
Import JS Numeric Paths Helpers Selection SelectionSamples.

(** X14.  The path expected for the file of a part is a file in the
    folder of its video: [toFolderPath] gives that folder, and the
    folder, a slash and the sanitised title with [.mp4] give the path
    again.  The title of the video is a string or missing. *)
Theorem expected_path_folder unknown dc ddp p item isMulti :
  unknown <> "" ->
  (info_title item = Undefined \/ exists t, info_title item = Str t) ->
  (toFolderPath (Str (buildExpectedFilePath unknown dc ddp p item isMulti))
   ++ "/" ++ sanitizeFilename (Str (part p)) ++ ".mp4")%string
  = buildExpectedFilePath unknown dc ddp p item isMulti.
Proof.
  intros Hu Htitle. unfold buildExpectedFilePath. cbv zeta.
  set (basePath := normalizePath _).
  set (chosen := if isMulti then _ else _).
  set (file := (sanitizeFilename (Str (part p)) ++ ".mp4")%string).
  destruct (file_name_free (part p)) as (Hf0 & Hf1 & Hf2). fold file in Hf0, Hf1, Hf2.
  assert (Hfolder : exists t, chosen = Str t /\ t <> "").
  { unfold chosen. destruct isMulti; apply or_Str_not_empty; auto.
    destruct (Download.downloadName dc) as [| c n]; [exact Htitle|].
    right. now exists (String c n). }
  destruct Hfolder as (t & -> & Ht).
  pose proof (sanitizeFilename_not_empty t Ht) as Hname.
  destruct (clean_free _ (sanitizeFilename_clean (Str t))) as (_ & Hback).
  set (folderName := sanitizeFilename (Str t)) in *.
  destruct (Download.empty basePath) eqn:Eb.
  - rewrite (toFolderPath_file folderName file Hf0 Hf1 Hf2). cbv zeta.
    rewrite (replace_backslash_id folderName Hback).
    apply empty_false in Hname. rewrite Hname. reflexivity.
  - replace (basePath ++ "/" ++ folderName ++ "/" ++ file)%string
      with ((basePath ++ "/" ++ folderName) ++ "/" ++ file)%string
      by (now rewrite !append_assoc).
    rewrite (toFolderPath_file _ file Hf0 Hf1 Hf2). cbv zeta.
    assert (Hfree : free_of "\" (basePath ++ "/" ++ folderName) = true).
    { rewrite !free_of_app, Hback.
      destruct (normalizePath_normal
                  (or_ (Str (Download.downloadPath dc)) (Str ddp))) as (Hn & _).
      fold basePath in Hn. now rewrite Hn. }
    rewrite (replace_backslash_id _ Hfree).
    assert (Hne : Download.empty (basePath ++ "/" ++ folderName) = false).
    { apply empty_false. destruct basePath; discriminate. }
    rewrite Hne. reflexivity.
Qed.

Lemma expected_path_folder_witness :
  (toFolderPath (Str (buildExpectedFilePath "unknown" settings "" page_2 video false))
   ++ "/" ++ sanitizeFilename (Str (part page_2)) ++ ".mp4")%string
  = buildExpectedFilePath "unknown" settings "" page_2 video false.
Proof.
  apply (expected_path_folder "unknown" settings "" page_2 video false).
  - discriminate.
  - right. exists "talk". reflexivity.
Defined.

(** X15.  The effect that follows a change of the download path brings
    every row in line at once: running it a second time changes
    nothing. *)
Theorem refreshFilePaths_idempotent unknown dc ddp s :
  refreshFilePaths unknown dc ddp (refreshFilePaths unknown dc ddp s)
  = refreshFilePaths unknown dc ddp s.
Proof.
  unfold refreshFilePaths. rewrite length_map, map_map.
  apply map_ext. intros item.
  destruct (length (selectedPartsConfig item) =? 0)%nat eqn:E.
  - now rewrite E.
  - cbn [selectedPartsConfig with_selection selectedParts parts].
    rewrite length_map, E. unfold with_selection.
    cbn [key info_title parts selectedParts selectedPartsConfig].
    f_equal. rewrite map_map. apply map_ext. intros c.
    exact (row_refresh_twice
             (fun t => buildExpectedFilePath unknown dc ddp t item (1 <? length s)%nat)
             (parts item) c).
Qed.

End ExpectedPathTheorems.

(** ** Tags *)

Section TrimFacts.
Import JS.

Lemma drop_white_suffix cs :
  exists ws, cs = ws ++ drop_white cs /\ Forall (fun c => is_white c = true) ws.
Proof.
  induction cs as [| c cs (ws & E & H)]; [exists []; split; [reflexivity | constructor]|].
  cbn. destruct (is_white c) eqn:Ec.
  - exists (c :: ws). split; [cbn; congruence | now constructor].
  - exists []. split; [reflexivity | constructor].
Qed.

Lemma drop_white_head cs :
  match drop_white cs with c :: _ => is_white c = false | [] => True end.
Proof.
  induction cs as [| c cs IH]; cbn; [exact I|].
  destruct (is_white c) eqn:E; [exact IH | exact E].
Qed.

Lemma drop_white_fixed cs :
  match cs with c :: _ => is_white c = false | [] => True end -> drop_white cs = cs.
Proof. destruct cs as [| c cs]; cbn; [reflexivity|]. now intros ->. Qed.

(** What is left of a string by [trim] neither starts nor ends with
    white space. *)
Lemma trim_chars_ends cs :
  let r := trim_chars cs in
  match r with c :: _ => is_white c = false | [] => True end
  /\ match rev r with c :: _ => is_white c = false | [] => True end.
Proof.
  cbv zeta. unfold trim_chars. rewrite rev_involutive.
  split; [|apply drop_white_head].
  pose proof (drop_white_head cs) as Ha.
  destruct (drop_white_suffix (rev (drop_white cs))) as (ws & E & Hws).
  apply (f_equal (@rev ascii)) in E. rewrite rev_involutive, rev_app_distr in E.
  destruct (rev (drop_white (rev (drop_white cs)))) as [| c r]; [exact I|].
  rewrite E in Ha. exact Ha.
Qed.

Lemma trim_chars_fixed cs :
  match cs with c :: _ => is_white c = false | [] => True end ->
  match rev cs with c :: _ => is_white c = false | [] => True end ->
  trim_chars cs = cs.
Proof.
  intros H1 H2. unfold trim_chars.
  rewrite (drop_white_fixed cs H1), (drop_white_fixed (rev cs) H2).
  apply rev_involutive.
Qed.

Lemma trim_trim s : trim (trim s) = trim s.
Proof.
  unfold trim. rewrite list_ascii_of_string_of_list_ascii.
  destruct (trim_chars_ends (list_ascii_of_string s)) as (H1 & H2).
  now rewrite trim_chars_fixed.
Qed.

End TrimFacts.

Section TagFacts.
Import JS Numeric Paths Tags Download.

Lemma filter_all {A} (f : A -> bool) l :
  Forall (fun x => f x = true) l -> List.filter f l = l.
Proof.
  induction 1 as [| x l Hx _ IH]; cbn; [reflexivity|]. now rewrite Hx, IH.
Qed.

Lemma filter_app_last {A} (f : A -> bool) l x :
  List.filter f (l ++ [x]) = List.filter f l ++ (if f x then [x] else []).
Proof. rewrite List.filter_app. reflexivity. Qed.

Lemma existsb_eqb_In x l : existsb (String.eqb x) l = true <-> In x l.
Proof.
  rewrite existsb_exists. split.
  - intros (y & Hy & E). apply String.eqb_eq in E. now subst.
  - intros H. exists x. split; [exact H | apply String.eqb_refl].
Qed.

Lemma not_in_filter x l :
  ~ In x l -> List.filter (fun y => negb (String.eqb x y)) l = l.
Proof.
  intros H. apply filter_all, List.Forall_forall. intros y Hy.
  apply negb_true_iff, String.eqb_neq. intros ->. contradiction.
Qed.

Lemma unique_NoDup l : NoDup l -> unique l = l.
Proof.
  induction 1 as [| x l Hx _ IH]; cbn; [reflexivity|].
  rewrite IH, not_in_filter; [reflexivity|].
  intros H. now apply Hx, list_elem_of_In.
Qed.

(** [Array.from(new Set([...tags, tag]))] on tags that are all
    different: the tag is added when it is new. *)
Lemma unique_snoc l x :
  NoDup l -> unique (l ++ [x]) = if existsb (String.eqb x) l then l else l ++ [x].
Proof.
  induction 1 as [| a l Ha Hl IH]; [reflexivity|].
  cbn [app unique existsb]. rewrite IH.
  assert (Hna : ~ In a l) by (intros H; now apply Ha, list_elem_of_In).
  destruct (existsb (String.eqb x) l) eqn:Ex.
  - rewrite orb_true_r, (not_in_filter a l Hna). reflexivity.
  - rewrite orb_false_r, filter_app_last, (not_in_filter a l Hna).
    rewrite (String.eqb_sym x a).
    destruct (String.eqb a x); cbn [negb]; [now rewrite app_nil_r | reflexivity].
Qed.

Lemma unique_members (P : string -> Prop) l : Forall P l -> Forall P (unique l).
Proof.
  induction 1 as [| x l Hx _ IH]; cbn; [constructor|].
  constructor; [exact Hx|].
  apply List.Forall_forall. intros y Hy. apply filter_In in Hy as (Hy & _).
  rewrite List.Forall_forall in IH. now apply IH.
Qed.

(** Splitting what was joined gives the parts back, when no part holds
    the separator. *)
Lemma split_join sep l :
  l <> [] -> Forall (fun s => free_of sep s = true) l ->
  split sep (join (String sep "") l) = l.
Proof.
  induction l as [| t l IH]; [contradiction|]. intros _ H.
  inversion H as [| ? ? Ht Hl]; subst.
  destruct l as [| u r].
  - cbn [join]. now apply split_free.
  - rewrite join_cons.
    change (t ++ String sep "" ++ join (String sep "") (u :: r))%string
      with (t ++ String sep (join (String sep "") (u :: r)))%string.
    rewrite (split_app sep t _ Ht), IH; [reflexivity | discriminate | exact Hl].
Qed.

Lemma trim_empty : trim "" = "".
Proof. reflexivity. Qed.

Lemma tagList_join l :
  tidy l -> Forall (fun s => free_of "," s = true) l ->
  tagList (Str (join "," l)) = l.
Proof.
  intros Ht Hf. unfold tagList.
  assert (E : to_text (or_ (Str (join "," l)) (Str "")) = join "," l).
  { unfold or_. destruct (truthy (Str (join "," l))) eqn:Et; [reflexivity|].
    cbn in Et. apply negb_false_iff, String.eqb_eq in Et. now rewrite Et. }
  rewrite E. destruct l as [| t l]; [reflexivity|].
  rewrite split_join; [|discriminate | exact Hf].
  assert (Em : map trim (t :: l) = t :: l).
  { rewrite <- (map_id (t :: l)) at 2. apply map_ext_Forall.
    eapply Forall_impl; [exact Ht|]. cbn. now intros s (_ & ->). }
  rewrite Em. apply filter_all.
  eapply Forall_impl; [exact Ht|]. cbn. intros s (Hne & _).
  unfold Boolean. cbn. apply negb_true_iff, String.eqb_neq, Hne.
Qed.

End TagFacts.

Section TagTheorems.
Import JS Numeric Paths Tags Download.

(** X16.  [addTag] and [removeTag] keep the list of tags in shape: no
    tag twice, no empty tag, no white space around a tag. *)
Theorem tags_stay_tidy tags value target :
  NoDup tags -> tidy tags ->
  (NoDup (addTag value tags) /\ tidy (addTag value tags))
  /\ (NoDup (removeTag target tags) /\ tidy (removeTag target tags)
      /\ ~ In target (removeTag target tags)).
Proof.
  intros Hnd Ht. split.
  - unfold addTag. cbv zeta.
    destruct (Download.empty (trim value)) eqn:Ee; cbn [orb]; [auto|].
    unfold includes.
    destruct (existsb (String.eqb (trim value)) tags) eqn:Ex; [auto|]. split.
    + apply NoDup_app. split; [exact Hnd|]. split; [|apply NoDup_singleton].
      intros x Hx Hx'. apply list_elem_of_In in Hx, Hx'. destruct Hx' as [<- | []].
      apply existsb_eqb_In in Hx. congruence.
    + apply Forall_app. split; [exact Ht|].
      constructor; [|constructor]. split; [now apply empty_false | apply trim_trim].
  - unfold removeTag. split; [|split].
    + apply NoDup_ListNoDup, List.NoDup_filter, NoDup_ListNoDup, Hnd.
    + apply List.Forall_forall. intros x Hx. apply filter_In in Hx as (Hx & _).
      unfold tidy in Ht. rewrite List.Forall_forall in Ht. now apply Ht.
    + intros H. apply filter_In in H as (_ & H).
      now rewrite String.eqb_refl in H.
Qed.

Lemma tags_stay_tidy_witness :
  (NoDup (addTag " b " ["a"]) /\ tidy (addTag " b " ["a"]))
  /\ (NoDup (removeTag "a" ["a"]) /\ tidy (removeTag "a" ["a"])
      /\ ~ In "a" (removeTag "a" ["a"])).
Proof.
  apply (tags_stay_tidy ["a"] " b " "a").
  - apply NoDup_singleton.
  - constructor; [|constructor]. split; [discriminate | reflexivity].
Defined.

(** X17.  A tag left in the input box is submitted as if Enter had been
    pressed: on tags that are all different, the tags the form checks
    and sends are those [addTag] would leave. *)
Theorem input_tag_counts_as_added tags tagInput :
  NoDup tags -> uniqueTags tags tagInput = addTag tagInput tags.
Proof.
  intros Hnd. unfold uniqueTags, addTag. cbv zeta.
  destruct (Download.empty (trim tagInput)); cbn [orb].
  - now apply unique_NoDup.
  - unfold includes. now apply unique_snoc.
Qed.

Lemma input_tag_counts_as_added_witness :
  uniqueTags ["a"; "b"] " b " = addTag " b " ["a"; "b"].
Proof.
  apply (input_tag_counts_as_added ["a"; "b"] " b ").
  apply NoDup_cons. split; [|apply NoDup_singleton].
  intros H. apply list_elem_of_In in H. destruct H as [H | []]. discriminate H.
Defined.

(** X18.  The tags sent with a submission come back from
    [handleQuickFillSelect] as they were, provided no tag holds a comma:
    the list is joined with commas on the way out and split at commas
    on the way in. *)
Theorem submitted_tags_read_back tags tagInput :
  tidy tags ->
  Forall (fun s => free_of "," s = true) tags -> free_of "," (trim tagInput) = true ->
  tagList (Str (submittedTags tags tagInput)) = uniqueTags tags tagInput.
Proof.
  intros Ht Hf Hi. unfold submittedTags.
  assert (H : Forall (fun s => (s <> "" /\ trim s = s) /\ free_of "," s = true)
                (if Download.empty (trim tagInput) then tags else tags ++ [trim tagInput])).
  { assert (H0 : Forall (fun s => (s <> "" /\ trim s = s) /\ free_of "," s = true) tags).
    { apply List.Forall_forall. intros s Hs. unfold tidy in Ht.
      rewrite List.Forall_forall in Ht, Hf. split; [now apply Ht | now apply Hf]. }
    destruct (Download.empty (trim tagInput)) eqn:Ee; [exact H0|].
    apply Forall_app. split; [exact H0|]. constructor; [|constructor].
    split; [split; [now apply empty_false | apply trim_trim] | exact Hi]. }
  apply unique_members in H. fold (uniqueTags tags tagInput) in H.
  apply tagList_join.
  - eapply Forall_impl; [exact H|]. cbn. tauto.
  - eapply Forall_impl; [exact H|]. cbn. tauto.
Qed.

Lemma submitted_tags_read_back_witness :
  tagList (Str (submittedTags ["game"; "live cut"] " new ")) = uniqueTags ["game"; "live cut"] " new ".
Proof.
  apply (submitted_tags_read_back ["game"; "live cut"] " new ").
  - repeat constructor; discriminate.
  - repeat constructor.
  - reflexivity.
Defined.

End TagTheorems.

(** ** The estimate of the number of segments *)

Section EstimateFacts.
Import JS Numeric Download TimeFormat Estimate.

Lemma sub_of_Z a b : sub (of_Z a) (of_Z b) = of_Z (a - b).
Proof.
  unfold sub. change (negate (of_Z b)) with (of_Z (- b)). apply add_of_Z.
Qed.

(** A time in the right format stands for a whole number of seconds
    below a day. *)
Lemma valid_time_seconds s :
  isValidTimeFormat s = true ->
  exists k, (0 <= k < 86400)%Z /\ timeToSeconds s = of_Z k.
Proof.
  intros H. apply isValidTimeFormat_spec in H.
  destruct s as [| c s]; [exists 0%Z; split; [lia | reflexivity]|].
  destruct (well_formed_seconds _ H) as (h & m & sec & Hb & E); [discriminate|].
  exists (seconds h m sec). split; [unfold seconds; lia | exact E].
Qed.

Lemma totalClipSeconds_fold parts :
  Forall (fun p => isValidTimeFormat (startTime p) = true
                   /\ isValidTimeFormat (endTime p) = true) parts ->
  forall acc, (0 <= acc)%Z ->
  exists T, (acc <= T)%Z
    /\ fold_left
         (fun acc part =>
            add acc (max (of_Z 0)
                       (sub (timeToSeconds (endTime part)) (timeToSeconds (startTime part)))))
         parts (of_Z acc) = of_Z T.
Proof.
  induction 1 as [| p parts (Hs & He) _ IH]; intros acc Hacc.
  - exists acc. split; [lia | reflexivity].
  - destruct (valid_time_seconds _ Hs) as (a & Ha & Ea).
    destruct (valid_time_seconds _ He) as (b & Hb & Eb).
    cbn [fold_left]. rewrite Ea, Eb, sub_of_Z, max_0_of_Z, add_of_Z.
    destruct (IH (acc + Z.max 0 (b - a))%Z ltac:(lia)) as (T & HT & E).
    exists T. split; [lia | exact E].
Qed.

(** [Math.ceil(a / b)] on natural numbers. *)
Lemma ceil_div_of_Z a b :
  (0 < b)%Z -> ceil (div (of_Z a) (of_Z b)) = of_Z (- ((- a) / b)).
Proof.
  intros Hb. unfold div. cbn [of_Z]. fold (of_Z b).
  rewrite is_zero_of_Z. destruct (Z.eqb_spec b 0) as [E | _]; [lia|].
  unfold ceil, Qceiling. f_equal. f_equal.
  rewrite (Zdiv_Qdiv (- a) b). apply Qfloor_comp.
  rewrite Qred_correct, inject_Z_opp. field.
  intros E. unfold Qeq in E. cbn in E. lia.
Qed.

Lemma ceiling_bounds a b :
  (0 < b)%Z -> (b * (- ((- a) / b) - 1) < a <= b * - ((- a) / b))%Z.
Proof.
  intros Hb.
  pose proof (Z.div_mod (- a) b ltac:(lia)).
  pose proof (Z.mod_pos_bound (- a) b Hb). nia.
Qed.

End EstimateFacts.

Section EstimateTheorems.
Import JS Numeric Download TimeFormat Estimate.

(** X19.  With segmentation on, trim times in the right format and a
    segment duration of [d] whole seconds, the estimate shown is the
    least number of segments of [d] seconds that cover the total of the
    clipped durations. *)
Theorem estimatedSegments_least st d :
  Forall (fun p => isValidTimeFormat (startTime p) = true
                   /\ isValidTimeFormat (endTime p) = true)
         (selectedPartsConfig st) ->
  segmentationEnabled st = true ->
  Download.segmentDurationSeconds (segmentationConfig (workflowConfig st)) = of_Z d ->
  (0 < d < 2 ^ 53)%Z ->
  exists T n,
    (0 <= T)%Z /\ totalClipSeconds st = of_Z T
    /\ estimatedSegments st = of_Z n
    /\ (d * (n - 1) < T <= d * n)%Z.
Proof.
  intros Hparts Hon Hd Hpos.
  destruct (totalClipSeconds_fold _ Hparts 0%Z ltac:(lia)) as (T & HT & E).
  fold (totalClipSeconds st) in E.
  exists T, (- ((- T) / d))%Z. split; [exact HT|]. split; [exact E|].
  split; [|apply ceiling_bounds; lia].
  unfold estimatedSegments, Estimate.segmentDurationSeconds, number_or_0.
  rewrite Hon, Hd, E.
  assert (Ht : truthy (Num (of_Z d)) = true).
  { cbn [truthy is_nan of_Z orb]. fold (of_Z d). rewrite is_zero_of_Z.
    destruct (Z.eqb_spec d 0); [lia | reflexivity]. }
  rewrite Ht, gt_of_Z.
  destruct (Z.ltb_spec 0 d); [|lia]. cbn [andb].
  apply ceil_div_of_Z. lia.
Qed.

Lemma estimatedSegments_least_witness :
  exists T n,
    (0 <= T)%Z
    /\ totalClipSeconds
         (Inputs.sample_form true (of_Z 133) [Inputs.sample_part "00:00:10" "00:05:00"])
       = of_Z T
    /\ estimatedSegments
         (Inputs.sample_form true (of_Z 133) [Inputs.sample_part "00:00:10" "00:05:00"])
       = of_Z n
    /\ (133 * (n - 1) < T <= 133 * n)%Z.
Proof.
  apply (estimatedSegments_least
           (Inputs.sample_form true (of_Z 133) [Inputs.sample_part "00:00:10" "00:05:00"])
           133).
  - constructor; [|constructor]. split; vm_compute; reflexivity.
  - reflexivity.
  - reflexivity.
  - lia.
Defined.

End EstimateTheorems.

(** ** The message about a part *)

Section PartMessages.
Import JS Download TimeFormat.

Lemma validateParts_offender parts :
  forall index m,
    validateParts index parts = Invalid m ->
    exists k part,
      nth_error parts k = Some part
      /\ Forall part_checks (firstn k parts)
      /\ ((m = BadStartTime (index + k + 1)
           /\ isValidTimeFormat (startTime part) = false)
          \/ (m = BadEndTime (index + k + 1)
              /\ isValidTimeFormat (startTime part) = true
              /\ isValidTimeFormat (endTime part) = false)
          \/ (m = StartNotBeforeEnd (index + k + 1)
              /\ isValidTimeFormat (startTime part) = true
              /\ isValidTimeFormat (endTime part) = true
              /\ startTime part <> "" /\ endTime part <> ""
              /\ ge (timeToSeconds (startTime part))
                    (timeToSeconds (endTime part)) = true)).
Proof.
  induction parts as [| p rest IH]; intros index m; cbn [validateParts];
    [discriminate|].
  destruct (isValidTimeFormat (startTime p)) eqn:Es; cbn [negb].
  2: { intros E. injection E as <-. exists 0%nat, p.
       rewrite Nat.add_0_r. split; [reflexivity|]. split; [constructor|]. auto. }
  destruct (isValidTimeFormat (endTime p)) eqn:Ee; cbn [negb].
  2: { intros E. injection E as <-. exists 0%nat, p.
       rewrite Nat.add_0_r. split; [reflexivity|]. split; [constructor|]. auto. }
  destruct (negb (empty (startTime p)) && negb (empty (endTime p))
            && ge (timeToSeconds (startTime p)) (timeToSeconds (endTime p))) eqn:E.
  - intros E'. injection E' as <-. exists 0%nat, p.
    rewrite Nat.add_0_r. split; [reflexivity|]. split; [constructor|].
    right. right.
    apply andb_true_iff in E as (E & Hge). apply andb_true_iff in E as (E1 & E2).
    apply negb_true_iff, empty_false in E1. apply negb_true_iff, empty_false in E2.
    auto 10.
  - intros H. destruct (IH (index + 1)%nat m H) as (k & part & Hk & Hfirst & Hm).
    exists (S k), part. split; [exact Hk|]. split.
    + cbn [firstn]. constructor; [|exact Hfirst]. unfold part_checks. auto.
    + replace (index + S k + 1)%nat with (index + 1 + k + 1)%nat by lia. exact Hm.
Qed.

End PartMessages.

Section PartMessageTheorems.
Import JS Download TimeFormat.

(** X20.  When the loop of [validateIntegrationForm] rejects the parts,
    its message names the first part that fails a check, counted from
    1, and the first check that this part fails: the format of the
    start, then the format of the end, then start before end. *)
Theorem message_names_first_offender parts m :
  validateParts 0 parts = Invalid m ->
  exists k part,
    nth_error parts k = Some part
    /\ Forall part_checks (firstn k parts)
    /\ ((m = BadStartTime (k + 1)
         /\ isValidTimeFormat (startTime part) = false)
        \/ (m = BadEndTime (k + 1)
            /\ isValidTimeFormat (startTime part) = true
            /\ isValidTimeFormat (endTime part) = false)
        \/ (m = StartNotBeforeEnd (k + 1)
            /\ isValidTimeFormat (startTime part) = true
            /\ isValidTimeFormat (endTime part) = true
            /\ startTime part <> "" /\ endTime part <> ""
            /\ ge (timeToSeconds (startTime part))
                  (timeToSeconds (endTime part)) = true)).
Proof. intros H. exact (validateParts_offender parts 0 m H). Qed.

Lemma message_names_first_offender_witness :
  exists k part,
    nth_error [Inputs.sample_part "" ""; Inputs.sample_part "00:10:00" "0:05:00"] k
    = Some part
    /\ Forall part_checks
         (firstn k [Inputs.sample_part "" ""; Inputs.sample_part "00:10:00" "0:05:00"])
    /\ ((StartNotBeforeEnd 2 = BadStartTime (k + 1)
         /\ isValidTimeFormat (startTime part) = false)
        \/ (StartNotBeforeEnd 2 = BadEndTime (k + 1)
            /\ isValidTimeFormat (startTime part) = true
            /\ isValidTimeFormat (endTime part) = false)
        \/ (StartNotBeforeEnd 2 = StartNotBeforeEnd (k + 1)
            /\ isValidTimeFormat (startTime part) = true
            /\ isValidTimeFormat (endTime part) = true
            /\ startTime part <> "" /\ endTime part <> ""
            /\ ge (timeToSeconds (startTime part))
                  (timeToSeconds (endTime part)) = true)).
Proof.
  apply (message_names_first_offender
           [Inputs.sample_part "" ""; Inputs.sample_part "00:10:00" "0:05:00"]
           (StartNotBeforeEnd 2)).
  vm_compute. reflexivity.
Defined.

End PartMessageTheorems.

(** ** Loading and saving the settings *)

Section SettingsLoadFacts.
Import JS Settings SettingsLoad Interval Contract.

Ltac rational :=
  change (inject_Z 0) with 0%Q in *; change (inject_Z 1) with 1%Q in *; lra.

(** The clamp of [loadSettings] gives a number from 1 to [hi], unless
    it is given what is not a number. *)
Lemma clamp_cases hi v fallback :
  (1 <= hi)%Z ->
  let n := Number (or_ v (Num (of_Z fallback))) in
  (n = NaN /\ clamp hi v fallback = NaN)
  \/ (within n 1 hi /\ num_eq (clamp hi v fallback) n = true)
  \/ (below n 1 /\ clamp hi v fallback = of_Z 1)
  \/ (above n hi /\ clamp hi v fallback = of_Z hi).
Proof.
  intros Hhi n. unfold clamp. fold n.
  assert (Hq : (inject_Z 1 <= inject_Z hi)%Q) by now rewrite <- Zle_Qle.
  destruct n as [| [] | q].
  - left. auto.
  - right. right. left. split; [reflexivity|].
    change (max (of_Z 1) (Infinity true)) with (of_Z 1). now apply min_of_Z_1.
  - right. right. right. split; reflexivity.
  - right. unfold max. cbn [is_nan of_Z orb lt below above within].
    destruct (Qlt_b (inject_Z 1) q) eqn:E1.
    + apply Qlt_b_true in E1. unfold min. cbn [is_nan of_Z orb lt].
      destruct (Qlt_b q (inject_Z hi)) eqn:E2.
      * apply Qlt_b_true in E2. left.
        split; [split; rational | apply Qeq_bool_refl].
      * apply Qlt_b_false in E2.
        destruct (Qlt_le_dec (inject_Z hi) q) as [Hgt | Hle].
        -- right. right. split; [exact Hgt | reflexivity].
        -- left. split; [split; rational|].
           apply Qeq_bool_iff. rational.
    + apply Qlt_b_false in E1. fold (of_Z 1). rewrite (min_of_Z_1 hi Hhi).
      destruct (Qlt_le_dec q (inject_Z 1)) as [Hlt | Hge].
      * right. left. split; [exact Hlt | reflexivity].
      * left. split; [split; rational|].
        apply Qeq_bool_iff. rational.
Qed.

Lemma within_num_eq a b lo hi :
  num_eq a b = true -> within b lo hi -> within a lo hi.
Proof.
  destruct a as [| s | p], b as [| t | q]; cbn; try discriminate; try tauto.
  intros E (H1 & H2). apply Qeq_bool_iff in E. split; rational.
Qed.

(** What [loadSettings] shows for a clamped setting, and what
    [handleSave] makes of it when it is not edited. *)
Lemma clamp_shown_sent hi v fallback :
  (1 <= hi)%Z ->
  shown_in hi (Num (clamp hi v fallback))
  /\ (clamp hi v fallback = NaN ->
      min (of_Z hi) (max (of_Z 1) (number_or_1 (Num (clamp hi v fallback)))) = of_Z 1)
  /\ (clamp hi v fallback <> NaN ->
      num_eq (min (of_Z hi) (max (of_Z 1) (number_or_1 (Num (clamp hi v fallback)))))
             (clamp hi v fallback) = true).
Proof.
  intros Hhi.
  assert (Hshown : clamp hi v fallback = NaN \/ within (clamp hi v fallback) 1 hi).
  { destruct (clamp_cases hi v fallback Hhi) as [(_ & E) | [(W & E) | [(_ & E) | (_ & E)]]].
    - now left.
    - right. now apply (within_num_eq _ _ 1 hi E).
    - right. rewrite E. apply within_of_Z. lia.
    - right. rewrite E. apply within_of_Z. lia. }
  destruct (clamp_spec hi (Num (clamp hi v fallback)) Hhi) as (_ & Hnan & _ & _ & Hin).
  cbn [Number] in Hnan, Hin.
  split; [exists (clamp hi v fallback); auto|]. split; [exact Hnan|].
  intros Hne. destruct Hshown as [E | W]; [contradiction | now apply Hin].
Qed.

End SettingsLoadFacts.

Section SettingsLoadTheorems.
Import JS Settings SettingsLoad Interval Contract Tauri.

(** X21.  Whatever the backend returns, [loadSettings] shows an upload
    concurrency from 1 to 5 and aria2c connections and split from 1 to
    32, or not a number; and [handleSave] on the settings as loaded
    sends each of them as shown, with 1 in place of what is not a
    number. *)
Theorem loaded_settings_sent_as_shown data :
  let st := loaded data in
  (shown_in 5 (uploadConcurrency st)
   /\ shown_in 32 (aria2cConnections st) /\ shown_in 32 (aria2cSplit st))
  /\ (Number (uploadConcurrency st) <> NaN ->
      num_eq (normalizedUploadConcurrency st) (Number (uploadConcurrency st)) = true)
  /\ (Number (aria2cConnections st) <> NaN ->
      num_eq (normalizedAria2cConnections st) (Number (aria2cConnections st)) = true)
  /\ (Number (aria2cSplit st) <> NaN ->
      num_eq (normalizedAria2cSplit st) (Number (aria2cSplit st)) = true)
  /\ (Number (uploadConcurrency st) = NaN -> normalizedUploadConcurrency st = of_Z 1)
  /\ (Number (aria2cConnections st) = NaN -> normalizedAria2cConnections st = of_Z 1)
  /\ (Number (aria2cSplit st) = NaN -> normalizedAria2cSplit st = of_Z 1).
Proof.
  cbv zeta.
  destruct (clamp_shown_sent 5 (get data "uploadConcurrency") 3 ltac:(lia)) as (U1 & U2 & U3).
  destruct (clamp_shown_sent 32 (get data "aria2cConnections") 4 ltac:(lia)) as (C1 & C2 & C3).
  destruct (clamp_shown_sent 32 (get data "aria2cSplit") 4 ltac:(lia)) as (S1 & S2 & S3).
  repeat split; assumption.
Qed.

Lemma loaded_settings_sent_as_shown_witness :
  uploadConcurrency (loaded sample_data) = Num (of_Z 5)
  /\ num_eq (normalizedUploadConcurrency (loaded sample_data)) (of_Z 5) = true.
Proof.
  destruct (loaded_settings_sent_as_shown sample_data) as (_ & Hsent & _).
  split; [vm_compute; reflexivity|].
  apply Hsent. vm_compute. discriminate.
Defined.

(** X22.  The settings shown change only on a response that
    [invokeCommand] accepts and that carries data: a rejection, an
    empty response, an error code or a response without data leave
    every setting as it was. *)
Theorem loadSettings_changes_only_on_data invoked st :
  loadSettings invoked st <> st ->
  exists response,
    invoked = Return response
    /\ truthy response = true /\ ~ bad_code response
    /\ truthy (get response "data") = true
    /\ loadSettings invoked st = loaded (get response "data").
Proof.
  unfold loadSettings, invokeCommand. intros H.
  destruct invoked as [response | e]; [|contradiction].
  exists response. split; [reflexivity|].
  destruct (truthy response) eqn:Et; cbn [negb] in *; [|contradiction].
  destruct (is_number (get response "code")
            && negb (strict_eq (get response "code") (Num (of_Z 0)))) eqn:Ec;
    [contradiction|].
  destruct (truthy (get response "data")) eqn:Ed; [|contradiction].
  repeat split; try reflexivity.
  intros Hbad. apply bad_code_test in Hbad. congruence.
Qed.

Lemma loadSettings_changes_only_on_data_witness :
  exists response,
    Return sample_response = Return response
    /\ truthy response = true /\ ~ bad_code response
    /\ truthy (get response "data") = true
    /\ loadSettings (Return sample_response) Inputs.typed_settings
       = loaded (get response "data").
Proof.
  apply (loadSettings_changes_only_on_data (Return sample_response) Inputs.typed_settings).
  intros E. apply (f_equal threads) in E. vm_compute in E. discriminate E.
Defined.

End SettingsLoadTheorems.

(** ** The sync list *)

Section SyncViewFacts.
Import JS Numeric Paths Sync SyncView Interval.

Lemma collapse_slashes_head s :
  match collapse_slashes s, s with
  | String c _, String d _ => is_slash c = is_slash d
  | EmptyString, EmptyString => True
  | _, _ => False
  end.
Proof.
  induction s as [| c s IH]; cbn [collapse_slashes]; [exact I|].
  destruct (is_slash c) eqn:Ec.
  - destruct s as [| d s']; [reflexivity|].
    destruct (is_slash d) eqn:Ed; [|reflexivity].
    destruct (collapse_slashes (String d s')) as [| e r]; [contradiction|].
    congruence.
  - exact Ec.
Qed.

Lemma collapse_slashes_single s : single_slashes (collapse_slashes s).
Proof.
  induction s as [| c s IH]; cbn [collapse_slashes]; [exact I|].
  pose proof (collapse_slashes_head s) as Hh.
  destruct (is_slash c) eqn:Ec.
  - destruct s as [| d s']; [exact I|].
    destruct (is_slash d) eqn:Ed; [exact IH|].
    destruct (collapse_slashes (String d s')) as [| e r] eqn:E; [exact I|].
    cbn [single_slashes]. split; [|exact IH]. intros (_ & He). congruence.
  - destruct (collapse_slashes s) as [| e r] eqn:E; [exact I|].
    cbn [single_slashes]. split; [|exact IH]. intros (Hc & _). congruence.
Qed.

Lemma collapse_slashes_fixed s : single_slashes s -> collapse_slashes s = s.
Proof.
  induction s as [| c s IH]; [reflexivity|].
  cbn [collapse_slashes]. destruct s as [| d s'].
  - intros _. destruct (is_slash c) eqn:Ec; [|reflexivity].
    unfold is_slash in Ec. apply Ascii.eqb_eq in Ec. now subst.
  - intros (Hcd & Hs). specialize (IH Hs).
    destruct (is_slash c) eqn:Ec.
    + destruct (is_slash d) eqn:Ed; [exfalso; auto|].
      rewrite IH. unfold is_slash in Ec. apply Ascii.eqb_eq in Ec. now subst.
    + now rewrite IH.
Qed.

(** [Math.min(hi, Math.max(lo, n))] *)
Lemma min_max_cases lo hi n :
  (lo <= hi)%Z ->
  (n = NaN /\ min (of_Z hi) (max (of_Z lo) n) = NaN)
  \/ (within n lo hi /\ num_eq (min (of_Z hi) (max (of_Z lo) n)) n = true)
  \/ (below n lo /\ min (of_Z hi) (max (of_Z lo) n) = of_Z lo)
  \/ (above n hi /\ min (of_Z hi) (max (of_Z lo) n) = of_Z hi).
Proof.
  intros Hle.
  assert (Hq : (inject_Z lo <= inject_Z hi)%Q) by now rewrite <- Zle_Qle.
  assert (Hmin : min (of_Z hi) (of_Z lo) = of_Z lo).
  { unfold min. cbn [is_nan orb of_Z]. fold (of_Z lo) (of_Z hi).
    rewrite lt_of_Z. destruct (Z.ltb_spec lo hi); [reflexivity|].
    f_equal. lia. }
  destruct n as [| [] | q].
  - left. auto.
  - right. right. left. split; [reflexivity|].
    change (max (of_Z lo) (Infinity true)) with (of_Z lo). exact Hmin.
  - right. right. right. split; reflexivity.
  - right. unfold max. cbn [is_nan of_Z orb lt below above within].
    destruct (Qlt_b (inject_Z lo) q) eqn:E1.
    + apply Qlt_b_true in E1. unfold min. cbn [is_nan of_Z orb lt].
      destruct (Qlt_b q (inject_Z hi)) eqn:E2.
      * apply Qlt_b_true in E2. left.
        split; [split; lra | apply Qeq_bool_refl].
      * apply Qlt_b_false in E2.
        destruct (Qlt_le_dec (inject_Z hi) q) as [Hgt | Hle'].
        -- right. right. split; [exact Hgt | reflexivity].
        -- left. split; [split; lra|].
           apply Qeq_bool_iff. lra.
    + apply Qlt_b_false in E1. fold (of_Z lo). rewrite Hmin.
      destruct (Qlt_le_dec q (inject_Z lo)) as [Hlt | Hge].
      * right. left. split; [exact Hlt | reflexivity].
      * left. split; [split; lra|].
        apply Qeq_bool_iff. lra.
Qed.

End SyncViewFacts.

Section SyncTabFacts.
Import JS Numeric Paths Sync SyncView Interval.

(** The tab of a status, for the statuses that have one. *)
Lemma shown_under tasks t k :
  In k tab_keys ->
  (In t (filteredTasks tasks k) <->
   In t tasks /\ exists s, status t = Str s /\ In (k, s)
     [("pending", "PENDING"); ("pending", "PAUSED"); ("uploading", "UPLOADING");
      ("completed", "SUCCESS"); ("failed", "FAILED"); ("failed", "CANCELLED")]).
Proof.
  intros [<- | [<- | [<- | [<- | []]]]];
    unfold filteredTasks; cbn [find syncTabs fst snd String.eqb Ascii.eqb Bool.eqb];
    rewrite filter_In, includes_spec;
    (split; intros (Ht & s & Es & Hs); (split; [exact Ht|]); exists s; (split; [exact Es|]));
    cbn in Hs |- *;
    repeat match goal with
           | H : _ \/ _ |- _ => destruct H as [H | H]
           | H : (_, _) = (_, _) |- _ => injection H as H; try discriminate
           | H : False |- _ => contradiction
           end; subst; auto 10.
Qed.

End SyncTabFacts.

Section SyncViewTheorems.
Import JS Numeric Paths Sync SyncView Interval Inputs.

(** X23.  The four tabs split the list: a task whose status is one of
    the six known ones is shown under exactly one tab, a task with any
    other status under none; and a task shown under a tab offers
    either the pause or the retry action, never both. *)
Theorem each_task_under_one_tab tasks t :
  In t tasks ->
  (forall k k', In k tab_keys -> In k' tab_keys ->
     In t (filteredTasks tasks k) -> In t (filteredTasks tasks k') -> k = k')
  /\ ((exists k, In k tab_keys /\ In t (filteredTasks tasks k))
      <-> includes known_statuses (status t) = true)
  /\ (forall k, In k tab_keys -> In t (filteredTasks tasks k) ->
        xorb (canPause t) (canRetry t) = true).
Proof.
  intros Ht. split; [|split].
  - intros k k' Hk Hk' H H'.
    apply (shown_under tasks t k Hk) in H as (_ & s & Es & Hs).
    apply (shown_under tasks t k' Hk') in H' as (_ & s' & Es' & Hs').
    rewrite Es in Es'. injection Es' as <-.
    cbn in Hs, Hs'.
    repeat match goal with
           | H : _ \/ _ |- _ => destruct H as [H | H]
           | H : (_, _) = (_, _) |- _ => injection H as H; try discriminate
           | H : False |- _ => contradiction
           end; subst; try reflexivity; discriminate.
  - rewrite includes_spec. split.
    + intros (k & Hk & H). apply (shown_under tasks t k Hk) in H as (_ & s & Es & Hs).
      exists s. split; [exact Es|]. cbn in Hs |- *.
      repeat match goal with
             | H : _ \/ _ |- _ => destruct H as [H | H]
             | H : (_, _) = (_, _) |- _ => injection H as H; try discriminate
             | H : False |- _ => contradiction
             end; subst; auto 10.
    + intros (s & Es & Hs). cbn in Hs.
      destruct Hs as [<- | [<- | [<- | [<- | [<- | [<- | []]]]]]];
        [exists "pending" | exists "pending" | exists "uploading"
         | exists "completed" | exists "failed" | exists "failed"];
        (split; [cbn; auto|]);
        (apply shown_under; [cbn; auto|]);
        (split; [exact Ht|]); eexists; (split; [exact Es|]); cbn; auto 10.
  - intros k Hk H. apply (shown_under tasks t k Hk) in H as (_ & s & Es & Hs).
    unfold canPause, canRetry. rewrite Es. cbn in Hs.
    repeat match goal with
           | H : _ \/ _ |- _ => destruct H as [H | H]
           | H : (_, _) = (_, _) |- _ => injection H as H; try discriminate
           | H : False |- _ => contradiction
           end; subst; reflexivity.
Qed.

Lemma each_task_under_one_tab_witness :
  (exists k, In k tab_keys
             /\ In (sync_task 2 "UPLOADING")
                   (filteredTasks [sync_task 1 "PENDING"; sync_task 2 "UPLOADING"] k))
  /\ xorb (canPause (sync_task 2 "UPLOADING")) (canRetry (sync_task 2 "UPLOADING")) = true.
Proof.
  destruct (each_task_under_one_tab
              [sync_task 1 "PENDING"; sync_task 2 "UPLOADING"] (sync_task 2 "UPLOADING"))
    as (_ & Hshown & Hone).
  - right. left. reflexivity.
  - split.
    + apply Hshown. reflexivity.
    + apply (Hone "uploading"); [cbn; auto | cbn; auto].
Defined.

(** X24.  The progress shown for a task is a number from 0 to 100, the
    reported progress itself when that lies in between; or it is not a
    number, when the reported progress does not convert to one. *)
Theorem progressValue_bounds t :
  let reported := Number (or_ (progress t) (Num (of_Z 0))) in
  (reported = NaN /\ progressValue t = NaN)
  \/ (within reported 0 100 /\ num_eq (progressValue t) reported = true)
  \/ (below reported 0 /\ progressValue t = of_Z 0)
  \/ (above reported 100 /\ progressValue t = of_Z 100).
Proof. cbv zeta. unfold progressValue. apply min_max_cases. lia. Qed.

(** X25.  The remote path shown for a task never has two slashes in a
    row, whatever the directory and the name hold; a path that has none
    is shown as it is. *)
Theorem remotePath_single_slashes t :
  single_slashes (remotePath t)
  /\ (single_slashes (to_text (remoteDir t) ++ "/" ++ to_text (remoteName t)) ->
      remotePath t = (to_text (remoteDir t) ++ "/" ++ to_text (remoteName t))%string).
Proof.
  split; [apply collapse_slashes_single | apply collapse_slashes_fixed].
Qed.

Lemma remotePath_single_slashes_witness :
  remotePath (sync_task 1 "PENDING") = "/rec/a.flv".
Proof.
  apply (proj2 (remotePath_single_slashes (sync_task 1 "PENDING"))).
  cbn. repeat split; intros (H1 & H2); discriminate.
Defined.

End SyncViewTheorems.

(** ** The schema: rows that depend on other rows *)

Section CascadeFacts.
Import Sqlite Schema.

Lemma prune_table_incl (db : database) T t r :
  In r (rows_of (prune_table db T) t) -> In r (rows_of db t).
Proof.
  unfold prune_table, rows_of.
  destruct (String.eqb_spec (tbl_name T) t) as [<- | Hne].
  - rewrite lookup_insert_eq. cbn. intros H. now apply filter_In in H as (H & _).
  - now rewrite lookup_insert_ne.
Qed.

Lemma fold_prune_incl tables :
  forall (db : database) t r,
    In r (rows_of (fold_left prune_table tables db) t) -> In r (rows_of db t).
Proof.
  induction tables as [| T tables IH]; intros db t r; cbn; [auto|].
  intros H. apply IH in H. now apply prune_table_incl in H.
Qed.

Lemma iter_prune_incl (tables : list table) n :
  forall (db : database) t r,
    In r (rows_of (Nat.iter n (fold_left prune_table tables) db) t) ->
    In r (rows_of db t).
Proof.
  induction n as [| n IH]; intros db t r; cbn [Nat.iter]; [auto|].
  intros H. apply fold_prune_incl in H. now apply IH.
Qed.

(** ON DELETE CASCADE only removes rows. *)
Lemma cascade_incl (tables : list table) (db : database) t r :
  In r (rows_of (cascade tables db) t) -> In r (rows_of db t).
Proof. apply iter_prune_incl. Qed.

End CascadeFacts.

Section CascadeSettles.
Import Sqlite Cascade.

Variable tables : list table.
Hypothesis ordered : parents_first tables = true.

Lemma parent_before T fk :
  In T tables -> In fk (foreign_keys T) ->
  (position tables (parent_of fk) < position tables (tbl_name T))%nat.
Proof.
  intros HT Hfk. unfold parents_first in ordered.
  rewrite forallb_forall in ordered. specialize (ordered T HT).
  rewrite forallb_forall in ordered. specialize (ordered fk Hfk).
  now apply Nat.ltb_lt in ordered.
Qed.

Lemma position_length ts T :
  In T ts -> (position ts (tbl_name T) < length ts)%nat.
Proof.
  induction ts as [| T' ts IH]; intros H; [destruct H|].
  cbn. destruct (String.eqb (tbl_name T') (tbl_name T)) eqn:E; [lia|].
  destruct H as [-> | H].
  - rewrite String.eqb_refl in E. discriminate.
  - specialize (IH H). lia.
Qed.

Lemma forallb_same {A} (f g : A -> bool) l :
  (forall x, In x l -> f x = g x) -> forallb f l = forallb g l.
Proof.
  induction l as [| x l IH]; intros H; cbn; [reflexivity|].
  rewrite (H x) by (cbn; tauto). rewrite IH; [reflexivity|].
  intros y Hy. apply H. cbn. tauto.
Qed.

(** [fk_ok] looks at the parents only. *)
Lemma fk_ok_same (db db' : database) T r :
  (forall fk, In fk (foreign_keys T) ->
     rows_of db' (parent_of fk) = rows_of db (parent_of fk)) ->
  fk_ok db' T r = fk_ok db T r.
Proof.
  intros H. unfold fk_ok. apply forallb_same.
  intros [[c p] pc] Hfk. specialize (H _ Hfk). cbn in H. now rewrite H.
Qed.

Lemma rows_prune_table (db : database) T t :
  rows_of (prune_table db T) t
  = if String.eqb (tbl_name T) t
    then List.filter (fk_ok db T) (rows_of db t)
    else rows_of db t.
Proof.
  unfold prune_table, rows_of at 1.
  destruct (String.eqb_spec (tbl_name T) t) as [<- | Hne].
  - now rewrite lookup_insert_eq.
  - now rewrite lookup_insert_ne.
Qed.

Lemma filter_whole {A} (f : A -> bool) l :
  forallb f l = true -> List.filter f l = l.
Proof.
  induction l as [| x l IH]; cbn; [reflexivity|].
  intros H. apply andb_true_iff in H as [-> H]. now rewrite IH.
Qed.

Lemma settled_rows k (db : database) T p :
  settled tables k db -> In T tables -> (position tables p < k)%nat ->
  rows_of (prune_table db T) p = rows_of db p.
Proof.
  intros Hs HT Hp. rewrite rows_prune_table.
  destruct (String.eqb_spec (tbl_name T) p) as [<- | Hne]; [|reflexivity].
  apply filter_whole. apply (Hs T HT Hp).
Qed.

Lemma kept_whole_prune_table k (db : database) T' T :
  settled tables k db -> In T' tables -> In T tables ->
  (position tables (tbl_name T) <= k)%nat ->
  kept_whole db T \/ T' = T -> kept_whole (prune_table db T') T.
Proof.
  intros Hs HT' HT Hk Hgood. unfold kept_whole. apply forallb_forall. intros r Hr.
  rewrite (fk_ok_same db).
  2: { intros fk Hfk. apply (settled_rows k); [exact Hs | exact HT'|].
       pose proof (parent_before T fk HT Hfk). lia. }
  rewrite rows_prune_table in Hr.
  destruct Hgood as [Hgood | ->].
  - unfold kept_whole in Hgood. rewrite forallb_forall in Hgood. apply Hgood.
    destruct (String.eqb (tbl_name T') (tbl_name T)); [|exact Hr].
    now apply filter_In in Hr as (Hr & _).
  - rewrite String.eqb_refl in Hr. now apply filter_In in Hr as (_ & Hr).
Qed.

Lemma settled_prune_table k (db : database) T :
  settled tables k db -> In T tables -> settled tables k (prune_table db T).
Proof.
  intros Hs HT T0 HT0 Hk.
  apply (kept_whole_prune_table k db T T0 Hs HT HT0); [lia|]. left. now apply Hs.
Qed.

Lemma settled_fold k l :
  forall db : database,
    incl l tables -> settled tables k db ->
    settled tables k (fold_left prune_table l db)
    /\ forall T, In T tables -> (position tables (tbl_name T) <= k)%nat ->
         kept_whole db T \/ In T l ->
         kept_whole (fold_left prune_table l db) T.
Proof.
  induction l as [| T' l IH]; intros db Hincl Hs; cbn [fold_left].
  - split; [exact Hs|]. intros T _ _ [H | []]. exact H.
  - assert (HT' : In T' tables) by (apply Hincl; cbn; tauto).
    assert (Hl : incl l tables) by (intros x Hx; apply Hincl; cbn; tauto).
    destruct (IH (prune_table db T') Hl (settled_prune_table k db T' Hs HT'))
      as (Hs' & Hgood).
    split; [exact Hs'|]. intros T HT Hk H.
    apply Hgood; [exact HT | exact Hk|].
    destruct H as [H | [-> | H]].
    + left. apply (kept_whole_prune_table k); auto.
    + left. apply (kept_whole_prune_table k); auto.
    + right. exact H.
Qed.

(** One more round of pruning settles one more table. *)
Lemma settled_prune k (db : database) :
  settled tables k db -> settled tables (S k) (prune tables db).
Proof.
  intros Hs T HT Hk.
  destruct (settled_fold k tables db (incl_refl _) Hs) as (_ & H).
  apply H; [exact HT | lia | right; exact HT].
Qed.

Lemma settled_iter n (db : database) :
  settled tables n (Nat.iter n (prune tables) db).
Proof.
  induction n as [| n IH]; cbn [Nat.iter].
  - intros T _ H. lia.
  - now apply settled_prune.
Qed.

(** After the cascade no row is an orphan. *)
Lemma cascade_kept_whole (db : database) T :
  In T tables -> kept_whole (cascade tables db) T.
Proof.
  intros HT. apply (settled_iter (length tables) db T HT).
  now apply position_length.
Qed.

End CascadeSettles.

Section CascadeThins.
Import Sqlite Cascade.

Lemma filter_filter {A} (f g : A -> bool) l :
  List.filter g (List.filter f l) = List.filter (fun x => f x && g x) l.
Proof.
  induction l as [| x l IH]; cbn; [reflexivity|].
  destruct (f x); cbn; [|exact IH]. destruct (g x); now rewrite IH.
Qed.

Lemma filter_keeps_all {A} (l : list A) : List.filter (fun _ => true) l = l.
Proof. induction l as [| x l IH]; cbn; [reflexivity | now rewrite IH]. Qed.

Lemma thinner_refl (db : database) : thinner db db.
Proof. intros t. exists (fun _ => true). now rewrite filter_keeps_all. Qed.

Lemma thinner_trans (db1 db2 db3 : database) :
  thinner db3 db2 -> thinner db2 db1 -> thinner db3 db1.
Proof.
  intros H32 H21 t. destruct (H32 t) as (g & Eg). destruct (H21 t) as (f & Ef).
  exists (fun x => f x && g x). now rewrite Eg, Ef, filter_filter.
Qed.

Lemma thinner_filter (db : database) t keep :
  thinner (<[t := List.filter keep (rows_of db t)]> db) db.
Proof.
  intros t'. unfold rows_of at 1.
  destruct (String.eqb_spec t t') as [<- | Hne].
  - rewrite lookup_insert_eq. now exists keep.
  - rewrite lookup_insert_ne by exact Hne. exists (fun _ => true).
    now rewrite filter_keeps_all.
Qed.

Lemma thinner_prune_table (db : database) T : thinner (prune_table db T) db.
Proof. apply thinner_filter. Qed.

Lemma thinner_fold l :
  forall db : database, thinner (fold_left prune_table l db) db.
Proof.
  induction l as [| T l IH]; intros db; cbn [fold_left]; [apply thinner_refl|].
  eapply thinner_trans; [apply IH | apply thinner_prune_table].
Qed.

Lemma thinner_iter (tables : list table) n :
  forall db : database, thinner (Nat.iter n (prune tables) db) db.
Proof.
  induction n as [| n IH]; intros db; cbn [Nat.iter]; [apply thinner_refl|].
  eapply thinner_trans; [apply thinner_fold | apply IH].
Qed.

(** The cascade removes rows and does nothing else. *)
Lemma thinner_cascade (tables : list table) (db : database) :
  thinner (cascade tables db) db.
Proof. apply thinner_iter. Qed.

Lemma forallb_filter {A} (p keep : A -> bool) l :
  forallb p l = true -> forallb p (List.filter keep l) = true.
Proof.
  rewrite !forallb_forall. intros H x Hx. apply H.
  now apply filter_In in Hx as (Hx & _).
Qed.

Lemma all_distinct_filter key keep (rows : list row) :
  all_distinct key rows = true -> all_distinct key (List.filter keep rows) = true.
Proof.
  induction rows as [| r rows IH]; cbn; [reflexivity|].
  intros H. apply andb_true_iff in H as (Hhead & Htail).
  destruct (keep r); [|now apply IH]. cbn.
  apply andb_true_iff. split; [now apply forallb_filter | now apply IH].
Qed.

End CascadeThins.

Section DeleteSucceeds.
Import Sqlite Cascade.

Variable tables : list table.
Hypothesis ordered : parents_first tables = true.

(** Removing rows and then the orphans leaves every constraint in
    force. *)
Lemma db_ok_cascade (db db1 : database) :
  db_ok tables db = true -> thinner db1 db ->
  db_ok tables (cascade tables db1) = true.
Proof.
  intros Hok Hthin. unfold db_ok. apply forallb_forall. intros T HT.
  pose proof (db_ok_table tables db T Hok HT) as Htab.
  unfold table_ok in Htab. apply andb_true_iff in Htab as (Htab & _).
  apply andb_true_iff in Htab as (Hrows & Hkeys).
  destruct (thinner_trans db db1 (cascade tables db1)
              (thinner_cascade tables db1) Hthin (tbl_name T)) as (keep & E).
  unfold table_ok. cbv zeta.
  apply andb_true_iff. split; [apply andb_true_iff; split|].
  - rewrite E. now apply forallb_filter.
  - rewrite forallb_forall in Hkeys. apply forallb_forall. intros key Hkey.
    rewrite E. apply all_distinct_filter. now apply Hkeys.
  - now apply cascade_kept_whole.
Qed.

(** A DELETE on a table of the script never fails. *)
Lemma delete_succeeds (db : database) t where_ :
  db_ok tables db = true -> find_table tables t <> None ->
  exec tables (DELETE t where_) db = Some (deleted tables t where_ db).
Proof.
  intros Hok Hfind. cbn [exec]. destruct (find_table tables t); [|contradiction].
  unfold checked, deleted.
  rewrite (db_ok_cascade db); [reflexivity | exact Hok | apply thinner_filter].
Qed.

End DeleteSucceeds.

Section CascadeExact.
Import Sqlite Cascade.

Variable tables : list table.
Hypothesis ordered : parents_first tables = true.
Hypothesis named : names_differ (map tbl_name tables) = true.

Lemma names_differ_In names t :
  names_differ (t :: names) = true -> ~ In t names.
Proof.
  cbn. intros H Hin. apply andb_true_iff in H as (H & _).
  apply negb_true_iff in H.
  assert (E : existsb (String.eqb t) names = true); [|congruence].
  apply existsb_exists. exists t. split; [exact Hin | apply String.eqb_refl].
Qed.

Lemma same_name_same_table ts T T' :
  names_differ (map tbl_name ts) = true ->
  In T ts -> In T' ts -> tbl_name T = tbl_name T' -> T = T'.
Proof.
  induction ts as [| T0 ts IH]; intros Hn HT HT' E; [destruct HT|].
  pose proof (names_differ_In _ _ Hn) as Hfresh.
  cbn in Hn. apply andb_true_iff in Hn as (_ & Hn).
  destruct HT as [-> | HT], HT' as [-> | HT'].
  - reflexivity.
  - exfalso. apply Hfresh. rewrite E. now apply in_map.
  - exfalso. apply Hfresh. rewrite <- E. now apply in_map.
  - now apply IH.
Qed.

Lemma pruned_trans (db1 db2 db3 : database) :
  pruned tables db1 db2 -> pruned tables db2 db3 -> pruned tables db1 db3.
Proof.
  induction 1 as [| db T db' HT _ IH]; [auto|].
  intros H. eapply pruned_step; [exact HT | now apply IH].
Qed.

Lemma pruned_fold l :
  forall db : database,
    incl l tables -> pruned tables db (fold_left prune_table l db).
Proof.
  induction l as [| T l IH]; intros db Hincl; cbn [fold_left]; [constructor|].
  eapply pruned_step; [apply Hincl; cbn; tauto|].
  apply IH. intros x Hx. apply Hincl. cbn. tauto.
Qed.

Lemma pruned_iter n :
  forall db : database, pruned tables db (Nat.iter n (prune tables) db).
Proof.
  induction n as [| n IH]; intros db; cbn [Nat.iter]; [constructor|].
  eapply pruned_trans; [apply IH | apply pruned_fold, incl_refl].
Qed.

Lemma pruned_cascade (db : database) : pruned tables db (cascade tables db).
Proof. apply pruned_iter. Qed.

Lemma pruned_incl (db db' : database) t r :
  pruned tables db db' -> In r (rows_of db' t) -> In r (rows_of db t).
Proof.
  induction 1 as [| db T db' _ _ IH]; [auto|].
  intros H. apply IH in H. now apply prune_table_incl in H.
Qed.

(** A row that has its parents among fewer rows has them among more. *)
Lemma fk_ok_more (db db' : database) T r :
  (forall t x, In x (rows_of db' t) -> In x (rows_of db t)) ->
  fk_ok db' T r = true -> fk_ok db T r = true.
Proof.
  intros Hincl. unfold fk_ok. rewrite !forallb_forall.
  intros H [[c p] pc] Hfk. specialize (H _ Hfk). cbn beta iota in *.
  apply orb_true_iff in H as [H | H]; apply orb_true_iff; [now left | right].
  apply existsb_exists in H as (parent & Hp & E).
  apply existsb_exists. exists parent. split; [now apply Hincl | exact E].
Qed.

(** A row that is no orphan at the end was never removed. *)
Lemma pruned_keeps (db db' : database) t r :
  pruned tables db db' -> In r (rows_of db t) ->
  (forall T, In T tables -> tbl_name T = t -> fk_ok db' T r = true) ->
  In r (rows_of db' t).
Proof.
  induction 1 as [| db T db' HT Hp IH]; [auto|].
  intros Hr Hend. apply IH; [|exact Hend].
  rewrite rows_prune_table.
  destruct (String.eqb_spec (tbl_name T) t) as [E | _]; [|exact Hr].
  apply filter_In. split; [exact Hr|].
  apply (fk_ok_more db db'); [|now apply Hend].
  intros t' x Hx. apply (pruned_incl _ _ _ _ Hp) in Hx.
  now apply prune_table_incl in Hx.
Qed.

(** The cascade removes the orphans and only them. *)
Lemma cascade_rows (db : database) T r :
  In T tables ->
  In r (rows_of (cascade tables db) (tbl_name T))
  <-> In r (rows_of db (tbl_name T)) /\ fk_ok (cascade tables db) T r = true.
Proof.
  intros HT. split.
  - intros Hr. split; [now apply cascade_incl in Hr|].
    pose proof (cascade_kept_whole tables ordered db T HT) as Hk.
    unfold kept_whole in Hk. rewrite forallb_forall in Hk. now apply Hk.
  - intros (Hr & Hok).
    apply (pruned_keeps db); [apply pruned_cascade | exact Hr|].
    intros T' HT' E.
    now rewrite (same_name_same_table tables T' T named HT' HT E).
Qed.

Lemma rows_deleted_other (db : database) t where_ t' :
  t <> t' ->
  rows_of (<[t := List.filter (fun r => negb (where_ r)) (rows_of db t)]> db) t'
  = rows_of db t'.
Proof. intros Hne. unfold rows_of at 1. now rewrite lookup_insert_ne. Qed.

Lemma rows_deleted_same (db : database) t where_ :
  rows_of (<[t := List.filter (fun r => negb (where_ r)) (rows_of db t)]> db) t
  = List.filter (fun r => negb (where_ r)) (rows_of db t).
Proof. unfold rows_of at 1. now rewrite lookup_insert_eq. Qed.

(** A table without REFERENCES clause loses the rows the DELETE names
    and no other. *)
Lemma deleted_root (db : database) T where_ r :
  In T tables -> foreign_keys T = [] ->
  In r (rows_of (deleted tables (tbl_name T) where_ db) (tbl_name T))
  <-> In r (rows_of db (tbl_name T)) /\ where_ r = false.
Proof.
  intros HT Hfk. unfold deleted. rewrite (cascade_rows _ T r HT).
  rewrite rows_deleted_same, filter_In, negb_true_iff.
  unfold fk_ok. rewrite Hfk. cbn. tauto.
Qed.

(** A table with one REFERENCES clause on a NOT NULL column keeps the
    rows whose parent is left. *)
Lemma deleted_child (db : database) t where_ T c p pc r :
  In T tables -> foreign_keys T = [(c, p, pc)] -> tbl_name T <> t ->
  (In r (rows_of db (tbl_name T)) -> field r c <> Null) ->
  In r (rows_of (deleted tables t where_ db) (tbl_name T))
  <-> In r (rows_of db (tbl_name T))
      /\ exists parent,
           In parent (rows_of (deleted tables t where_ db) p)
           /\ field parent pc = field r c.
Proof.
  intros HT Hfk Hne Hnn. unfold deleted. rewrite (cascade_rows _ T r HT).
  rewrite rows_deleted_other by congruence.
  unfold fk_ok. rewrite Hfk. cbn [forallb]. rewrite andb_true_r.
  split; intros (Hr & H); (split; [exact Hr|]).
  - apply orb_true_iff in H as [H | H].
    + specialize (Hnn Hr). destruct (field r c); try discriminate. contradiction.
    + apply existsb_exists in H as (parent & Hp & E).
      exists parent. split; [exact Hp|]. now apply bool_decide_eq_true in E.
  - destruct H as (parent & Hp & E). apply orb_true_iff. right.
    apply existsb_exists. exists parent. split; [exact Hp|].
    now apply bool_decide_eq_true.
Qed.

End CascadeExact.

Section ScriptOrder.
Import Sqlite Schema Cascade.

(** In the script every REFERENCES clause names a table created
    before, and no table is created twice. *)
Lemma schema_parents_first : parents_first schema = true.
Proof. vm_compute. reflexivity. Qed.

Lemma schema_names_differ : names_differ (map tbl_name schema) = true.
Proof. vm_compute. reflexivity. Qed.

Lemma submission_task_found : find_table schema "submission_task" <> None.
Proof. vm_compute. discriminate. Qed.

End ScriptOrder.


Section CascadeTheorems.
Import Sqlite Schema Samples SchemaSamples Cascade.

(** X26.  live_settings never holds more than one row, and the id of
    that row is 1: the table is the single record of the recording
    settings. *)
Theorem live_settings_single_row db :
  reachable schema db ->
  (length (rows_of db "live_settings") <= 1)%nat
  /\ forall r, In r (rows_of db "live_settings") -> field r "id" = Int 1.
Proof.
  intros Hr.
  assert (HT : In live_settings schema) by (cbn; tauto).
  pose proof (reachable_table_ok db _ Hr HT) as Hok.
  assert (Hid : forall r, In r (rows_of db "live_settings") -> field r "id" = Int 1).
  { intros r Hin.
    pose proof (table_ok_row db live_settings r Hok Hin) as Hrow.
    unfold row_ok in Hrow. rewrite forallb_forall in Hrow.
    specialize (Hrow (Col "id" INTEGER [PRIMARY_KEY; CHECK_EQ (Int 1)])
                     ltac:(cbn; tauto)).
    unfold col_ok in Hrow. cbn in Hrow.
    destruct (field r "id") as [| z | q | s]; cbn in Hrow; try discriminate.
    rewrite andb_true_r in Hrow. now apply bool_decide_eq_true in Hrow. }
  split; [|exact Hid].
  destruct (rows_of db "live_settings") as [| r0 [| r1 rest]] eqn:E; cbn; try lia.
  exfalso.
  assert (F : 0%nat = 1%nat); [|discriminate F].
  apply (unique_key_positions db live_settings ["id"] 0 1 r0 r1 Hok).
  - cbn. tauto.
  - cbn [tbl_name live_settings]. now rewrite E.
  - cbn [tbl_name live_settings]. now rewrite E.
  - intros c [<- | []].
    rewrite (Hid r0), (Hid r1) by (cbn; tauto). split; [discriminate | reflexivity].
Qed.

Lemma live_settings_single_row_witness :
  (length (rows_of live_settings_db "live_settings") <= 1)%nat
  /\ forall r, In r (rows_of live_settings_db "live_settings") -> field r "id" = Int 1.
Proof.
  apply (live_settings_single_row live_settings_db).
  apply result_reachable. vm_compute. reflexivity.
Defined.

(** A second record of the settings is refused, with or without an
    id of its own. *)
Example second_live_settings_refused :
  length (rows_of live_settings_db "live_settings") = 1%nat
  /\ succeeds (run schema (live_settings_program ++ live_settings_program) ∅) = false.
Proof. split; vm_compute; reflexivity. Qed.

(** X27.  A DELETE on submission_task never fails, and it removes the
    tasks it names with everything that hangs on them: the tasks left
    are those that do not match the condition, the workflow instances
    left are those whose task is left, and the workflow steps left are
    those whose instance is left (ON DELETE CASCADE, two levels
    deep). *)
Theorem delete_task_leaves_no_dependents db w :
  reachable schema db ->
  exists db',
    exec schema (DELETE "submission_task" w) db = Some db'
    /\ (forall task,
          In task (rows_of db' "submission_task")
          <-> In task (rows_of db "submission_task") /\ w task = false)
    /\ (forall inst,
          In inst (rows_of db' "workflow_instances")
          <-> In inst (rows_of db "workflow_instances")
              /\ exists task,
                   In task (rows_of db' "submission_task")
                   /\ field task "task_id" = field inst "task_id")
    /\ (forall step,
          In step (rows_of db' "workflow_steps")
          <-> In step (rows_of db "workflow_steps")
              /\ exists inst,
                   In inst (rows_of db' "workflow_instances")
                   /\ field inst "instance_id" = field step "instance_id").
Proof.
  intros Hr. pose proof (reachable_ok schema db Hr) as Hok.
  exists (deleted schema "submission_task" w db).
  split; [apply (delete_succeeds schema schema_parents_first db _ w Hok),
                submission_task_found|].
  split; [|split].
  - intros task.
    apply (deleted_root schema schema_parents_first schema_names_differ
             db submission_task w task); [cbn; tauto | reflexivity].
  - intros inst.
    apply (deleted_child schema schema_parents_first schema_names_differ
             db "submission_task" w workflow_instances
             "task_id" "submission_task" "task_id" inst);
      [cbn; tauto | reflexivity | discriminate|].
    intros Hi.
    apply (row_ok_not_null workflow_instances inst (Col "task_id" TEXT [NOT_NULL]));
      [|cbn; tauto | reflexivity].
    apply (table_ok_row db workflow_instances inst); [|exact Hi].
    apply (db_ok_table schema); [exact Hok | cbn; tauto].
  - intros step.
    apply (deleted_child schema schema_parents_first schema_names_differ
             db "submission_task" w workflow_steps
             "instance_id" "workflow_instances" "instance_id" step);
      [cbn; tauto | reflexivity | discriminate|].
    intros Hs.
    apply (row_ok_not_null workflow_steps step (Col "instance_id" TEXT [NOT_NULL]));
      [|cbn; tauto | reflexivity].
    apply (table_ok_row db workflow_steps step); [|exact Hs].
    apply (db_ok_table schema); [exact Hok | cbn; tauto].
Qed.

Lemma delete_task_leaves_no_dependents_witness :
  exists db',
    exec schema (DELETE "submission_task" (fun _ => true)) two_steps_db = Some db'
    /\ (forall task,
          In task (rows_of db' "submission_task")
          <-> In task (rows_of two_steps_db "submission_task")
              /\ (fun _ : row => true) task = false)
    /\ (forall inst,
          In inst (rows_of db' "workflow_instances")
          <-> In inst (rows_of two_steps_db "workflow_instances")
              /\ exists task,
                   In task (rows_of db' "submission_task")
                   /\ field task "task_id" = field inst "task_id")
    /\ (forall step,
          In step (rows_of db' "workflow_steps")
          <-> In step (rows_of two_steps_db "workflow_steps")
              /\ exists inst,
                   In inst (rows_of db' "workflow_instances")
                   /\ field inst "instance_id" = field step "instance_id").
Proof.
  exact (delete_task_leaves_no_dependents two_steps_db (fun _ => true)
           two_steps_reachable).
Defined.

End CascadeTheorems.

(** ** Sending a download *)

Section ProcFacts.
Import JS Numeric Paths Selection Page.

Lemma run_bind_proc {A B} (b : backend) (p : proc A) (g : A -> proc B) :
  forall history,
    run b history (bind_proc p g)
    = run b (snd (run b history p)) (g (fst (run b history p))).
Proof.
  induction p as [a | c k IH]; intros history; cbn [bind_proc run]; [reflexivity|].
  apply IH.
Qed.

(** A call only adds to the history. *)
Lemma run_extends {A} (b : backend) (p : proc A) :
  forall history, exists added, snd (run b history p) = history ++ added.
Proof.
  induction p as [a | c k IH]; intros history; cbn [run].
  - exists []. now rewrite app_nil_r.
  - destruct (IH (b history c) (history ++ [(c, b history c)])) as (added & E).
    exists ((c, b history c) :: added). rewrite E, <- app_assoc. reflexivity.
Qed.

End ProcFacts.

Section RunFacts.
Import JS Numeric Paths Selection Page.

Variable b : backend.

Lemma runs_total {A} (m : M A) history message :
  exists a message' added, runs m b history message a message' added.
Proof.
  unfold runs. destruct (run_extends b (m message) history) as (added & E).
  destruct (run b history (m message)) as ((a, message') & trace) eqn:Er.
  cbn in E. subst trace. eauto.
Qed.

Lemma runs_ret {A} (a : A) history message : runs (ret a) b history message a message [].
Proof. unfold runs, ret. cbn. now rewrite app_nil_r. Qed.

Lemma runs_setMessage t history message :
  runs (setMessage t) b history message tt t [].
Proof. unfold runs, setMessage. cbn. now rewrite app_nil_r. Qed.

Lemma runs_bind {A B} (m : M A) (f : A -> M B) history message a message1 added1
      c message2 added2 :
  runs m b history message a message1 added1 ->
  runs (f a) b (history ++ added1) message1 c message2 added2 ->
  runs (bind m f) b history message c message2 (added1 ++ added2).
Proof.
  unfold runs, bind. intros H1 H2. rewrite run_bind_proc, H1. cbn [fst snd].
  rewrite H2. now rewrite app_assoc.
Qed.

Lemma runs_invoke c history message :
  runs (invoke c) b history message (b history c) message [(c, b history c)].
Proof. reflexivity. Qed.

Lemma runs_invokeCommand c history message :
  runs (invokeCommand c) b history message
       (Tauri.invokeCommand (b history c)) message [(c, b history c)].
Proof. reflexivity. Qed.

Lemma runs_logClient pieces history message :
  runs (logClient pieces) b history message tt message
       [(auth_client_log pieces, b history (auth_client_log pieces))].
Proof. reflexivity. Qed.

(** What runs is what [run] computes. *)
Lemma runs_unique {A} (m : M A) history message a message' added a' message'' added' :
  runs m b history message a message' added ->
  runs m b history message a' message'' added' ->
  a = a' /\ message' = message'' /\ added = added'.
Proof.
  unfold runs. intros H1 H2. rewrite H1 in H2. injection H2 as -> -> E.
  apply app_inv_head in E. auto.
Qed.

End RunFacts.

Section GuardFacts.
Import JS Numeric Paths Selection Page.

Lemma downloads_app l1 l2 : downloads (l1 ++ l2) = downloads l1 ++ downloads l2.
Proof. apply List.filter_app. Qed.

Lemma split_after l x c o before after :
  downloads l = [] -> is_download c = true ->
  l ++ x = before ++ (c, o) :: after ->
  exists before', before = l ++ before' /\ x = before' ++ (c, o) :: after.
Proof.
  revert before. induction l as [| e l IH]; intros before Hl Hc E.
  - exists before. auto.
  - unfold downloads in Hl. cbn [List.filter] in Hl.
    destruct (is_download (fst e)) eqn:He; [discriminate|].
    destruct before as [| e' before].
    + cbn in E. injection E as -> _. cbn in He. congruence.
    + cbn in E. injection E as <- E.
      destruct (IH before Hl Hc E) as (before' & -> & Ex).
      exists before'. auto.
Qed.

Lemma guarded_none l : downloads l = [] -> guarded l.
Proof.
  intros Hl before c o after E Hc. exfalso.
  assert (H : In (c, o) (downloads l)).
  { apply filter_In. split; [|exact Hc]. rewrite E. apply in_elt. }
  now rewrite Hl in H.
Qed.

Lemma guarded_after l x :
  downloads l = [] -> guarded x -> guarded (l ++ x).
Proof.
  intros Hl Hx before c o after E Hc.
  destruct (split_after l x c o before after Hl Hc E) as (before' & -> & Ex).
  destruct (Hx before' c o after Ex Hc) as (path & o' & Hin & Hacc & Hne).
  exists path, o'. split; [|auto]. apply in_or_app. now right.
Qed.

(** Once the directory has been checked, whatever follows is guarded. *)
Lemma guarded_checked l x path o' :
  downloads l = [] -> In (validate_directory path, o') l ->
  accepted o' = true -> path <> "" -> guarded (l ++ x).
Proof.
  intros Hl Hin Hacc Hne before c o after E Hc.
  destruct (split_after l x c o before after Hl Hc E) as (before' & -> & _).
  exists path, o'. split; [|auto]. apply in_or_app. now left.
Qed.

End GuardFacts.

Section HandlerFacts.
Import JS Numeric Paths Selection Page.

Variable loadDownloadList : M (option thrown).
Hypothesis loader_sends_none : sends_no_download loadDownloadList.

Variable st : state.
Variable b : backend.

Lemma loader_runs history message :
  exists r message' added,
    runs loadDownloadList b history message r message' added /\ downloads added = [].
Proof.
  destruct (runs_total b loadDownloadList history message) as (r & message' & added & H).
  exists r, message', added. split; [exact H|].
  destruct (loader_sends_none b history message) as (added' & E & Hnone).
  unfold runs in H. rewrite H in E. cbn in E. apply app_inv_head in E. subst added'.
  unfold downloads. clear H. induction Hnone as [| e l He _ IH]; [reflexivity|].
  cbn. now rewrite He.
Qed.

Lemma effectivePath_text :
  truthy (effectivePath st) = true -> to_text (effectivePath st) <> "".
Proof.
  unfold effectivePath, or_. cbn [truthy].
  destruct (negb (String.eqb (Download.downloadPath _) "")) eqn:E1.
  - cbn [truthy to_text]. intros _ H. rewrite H in E1. discriminate.
  - cbn [truthy to_text]. intros E2 H. rewrite H in E2. discriminate.
Qed.

(** The directory check: it sends no download, and says yes only
    after the backend accepted the directory. *)
Lemma ensureDownloadPathReady_runs history message :
  exists ready message' added,
    runs (ensureDownloadPathReady st) b history message ready message' added
    /\ downloads added = []
    /\ (ready = true ->
        exists path o, In (validate_directory path, o) added
                       /\ accepted o = true /\ path <> "").
Proof.
  unfold ensureDownloadPathReady.
  destruct (truthy (effectivePath st)) eqn:Et; cbn [negb].
  - pose (first := auth_client_log
                     (line ("download_path_check:start:"
                            ++ to_text (or_ (effectivePath st) (Str "empty"))))).
    pose (check := validate_directory (to_text (effectivePath st))).
    pose (h1 := history ++ [(first, b history first)]).
    destruct (Tauri.invokeCommand (b h1 check)) as [v | error] eqn:Ec.
    + eexists true, message, _. split; [|split].
      * eapply runs_bind; [apply runs_logClient|].
        eapply runs_bind; [apply runs_invokeCommand|].
        fold first h1 check. rewrite Ec.
        eapply runs_bind; [apply runs_logClient | apply runs_ret].
      * reflexivity.
      * intros _. exists (to_text (effectivePath st)), (b h1 check).
        split; [cbn; auto|]. split; [unfold accepted; now rewrite Ec|].
        now apply effectivePath_text.
    + eexists false, PathWords, _. split; [|split].
      * eapply runs_bind; [apply runs_logClient|].
        eapply runs_bind; [apply runs_invokeCommand|].
        fold first h1 check. rewrite Ec.
        eapply runs_bind; [apply runs_setMessage|].
        eapply runs_bind; [apply runs_logClient | apply runs_ret].
      * reflexivity.
      * discriminate.
  - eexists false, PathWords, _. split; [|split].
    + eapply runs_bind; [apply runs_logClient|].
      eapply runs_bind; [apply runs_setMessage|].
      eapply runs_bind; [apply runs_logClient | apply runs_ret].
    + reflexivity.
    + discriminate.
Qed.

(** The loop over the requests: one download for each request, in
    their order, up to the first that fails. *)
Lemma send_runs rs :
  forall history message,
    exists r added,
      runs (send rs) b history message r message added
      /\ downloads added = added
      /\ (r = None ->
          map fst added = map (fun q => download_video (Plain q)) rs
          /\ Forall (fun entry => accepted (snd entry) = true) added).
Proof.
  induction rs as [| q rs IH]; intros history message; cbn [send].
  - exists None, []. split; [apply runs_ret|]. split; [reflexivity|]. intros _. split; constructor.
  - pose (c := download_video (Plain q)).
    destruct (Tauri.invokeCommand (b history c)) as [v | error] eqn:Ec.
    + destruct (IH (history ++ [(c, b history c)]) message) as (r & added & Hr & Hd & Hall).
      exists r, ((c, b history c) :: added). split; [|split].
      * change ((c, b history c) :: added) with ([(c, b history c)] ++ added).
        eapply runs_bind; [apply runs_invokeCommand|]. rewrite Ec. exact Hr.
      * unfold downloads in *. cbn. now rewrite Hd.
      * intros E. destruct (Hall E) as (H1 & H2). split; [cbn; now rewrite H1|].
        constructor; [|exact H2]. cbn. unfold accepted. now rewrite Ec.
    + exists (Some (Raised error)), [(c, b history c)]. split; [|split].
      * rewrite <- (app_nil_r [(c, b history c)]).
        eapply runs_bind; [apply runs_invokeCommand|]. rewrite Ec. apply runs_ret.
      * reflexivity.
      * discriminate.
Qed.

(** The end of a handler: it sends no download, and says yes only
    when everything went out. *)
Lemma finish_runs ok error sent history message :
  exists r message' added,
    runs (finish loadDownloadList st ok error sent) b history message r message' added
    /\ downloads added = []
    /\ (r = true -> sent = None).
Proof.
  unfold finish.
  assert (Hfail : forall e h m,
             exists message' added,
               runs (logClient (with_text error (errorMessage e)) ;;
                     setMessage (errorMessage e) ;; ret false) b h m false message' added
               /\ downloads added = []).
  { intros e h m. eexists _, _. split.
    - eapply runs_bind; [apply runs_logClient|].
      eapply runs_bind; [apply runs_setMessage | apply runs_ret].
    - reflexivity. }
  destruct sent as [e |].
  - destruct (Hfail e (history ++ []) message) as (message' & added & Hr & Hd).
    exists false, message', ([] ++ added). split; [|split].
    + eapply runs_bind; [apply runs_ret | exact Hr].
    + exact Hd.
    + discriminate.
  - pose (logged := auth_client_log (line ok)).
    pose (h1 := history ++ [(logged, b history logged)]).
    destruct (String.eqb (mainTab st) "records") eqn:Etab.
    + destruct (loader_runs h1 message) as (r & m1 & added1 & Hl & Hd1).
      destruct r as [e |].
      * destruct (Hfail e (history ++ [(logged, b history logged)] ++ added1) m1)
          as (message' & added & Hr & Hd).
        exists false, message', (([(logged, b history logged)] ++ added1) ++ added).
        split; [|split].
        -- eapply runs_bind;
             [eapply runs_bind; [apply runs_logClient|]; exact Hl|].
           exact Hr.
        -- rewrite !downloads_app, Hd1, Hd. reflexivity.
        -- discriminate.
      * exists true, m1, (([(logged, b history logged)] ++ added1) ++ []).
        split; [|split].
        -- eapply runs_bind;
             [eapply runs_bind; [apply runs_logClient|]; exact Hl|].
           apply runs_ret.
        -- rewrite !downloads_app, Hd1. reflexivity.
        -- reflexivity.
    + exists true, message, (([(logged, b history logged)] ++ []) ++ []).
      split; [|split].
      * eapply runs_bind;
          [eapply runs_bind; [apply runs_logClient|]; apply runs_ret|].
        apply runs_ret.
      * reflexivity.
      * reflexivity.
Qed.

End HandlerFacts.

Section HandlerRuns.
Import JS Numeric Paths Selection Page.

Variable loadDownloadList : M (option thrown).
Hypothesis loader_sends_none : sends_no_download loadDownloadList.

Variable st : state.
Variable b : backend.

(** What [handleDownload] does, whatever the backend answers. *)
Lemma handleDownload_runs history message :
  exists r message' added,
    runs (handleDownload loadDownloadList st) b history message r message' added
    /\ guarded added
    /\ (r = true ->
        Download.selectedCount (form st) <> 0%nat
        /\ map fst (downloads added)
           = map (fun q => download_video (Plain q)) (requests st)
        /\ Forall (fun entry => accepted (snd entry) = true) (downloads added)).
Proof.
  unfold handleDownload.
  pose (start := auth_client_log
                   (line ("download_submit:normal:start parts="
                          ++ count_text (Download.selectedCount (form st))))).
  pose (h1 := history ++ [(start, b history start)]).
  destruct (Download.selectedCount (form st) =? 0)%nat eqn:Ecount.
  - eexists false, _, _. split; [|split].
    + eapply runs_bind; [apply runs_logClient|].
      eapply runs_bind; [apply runs_setMessage|].
      eapply runs_bind; [apply runs_logClient | apply runs_ret].
    + apply guarded_none. reflexivity.
    + discriminate.
  - apply Nat.eqb_neq in Ecount.
    destruct (ensureDownloadPathReady_runs st b (h1 ++ []) (Value (Str "")))
      as (ready & m1 & added_e & He & Hde & Hcheck).
    destruct ready.
    + destruct (Hcheck eq_refl) as (path & o' & Hin & Hacc & Hne).
      destruct (send_runs b (requests st) ((h1 ++ []) ++ added_e) m1)
        as (sent & added_s & Hs & Hds & Hall).
      destruct (finish_runs loadDownloadList loader_sends_none st b
                  "download_submit:normal:ok" "download_submit:normal:error:" sent
                  (((h1 ++ []) ++ added_e) ++ added_s) m1)
        as (r & m2 & added_f & Hf & Hdf & Hr).
      exists r, m2, ([(start, b history start)] ++ [] ++ added_e ++ added_s ++ added_f).
      split; [|split].
      * eapply runs_bind; [apply runs_logClient|].
        eapply runs_bind; [apply runs_setMessage|].
        eapply runs_bind; [exact He|]. cbn [negb].
        eapply runs_bind; [exact Hs | exact Hf].
      * apply guarded_after; [reflexivity|]. cbn [app].
        now apply (guarded_checked added_e (added_s ++ added_f) path o').
      * intros ->. specialize (Hr eq_refl). subst sent.
        destruct (Hall eq_refl) as (Hreq & Hacc_all).
        split; [exact Ecount|].
        rewrite !downloads_app, Hde, Hds, Hdf. cbn [downloads List.filter app fst is_download].
        rewrite app_nil_r. auto.
    + eexists false, _, ([(start, b history start)] ++ [] ++ added_e ++ _).
      split; [|split].
      * eapply runs_bind; [apply runs_logClient|].
        eapply runs_bind; [apply runs_setMessage|].
        eapply runs_bind; [exact He|]. cbn [negb].
        eapply runs_bind; [apply runs_logClient | apply runs_ret].
      * apply guarded_none. rewrite !downloads_app, Hde. reflexivity.
      * discriminate.
Qed.

(** What [handleIntegrationDownload] does when the form passes. *)
Lemma handleIntegrationDownload_runs history message :
  exists r message' added,
    runs (handleIntegrationDownload loadDownloadList st) b history message r message' added
    /\ guarded added
    /\ (r = true -> integrationEnabled st = true ->
        Download.validateIntegrationForm (form st) = Download.Valid
        /\ exists o, downloads added = [(download_video (Integrated (payload st)), o)]
                     /\ accepted o = true).
Proof.
  unfold handleIntegrationDownload.
  pose (start := auth_client_log
                   (line ("download_submit:integration:start parts="
                          ++ count_text (Download.selectedCount (form st))))).
  pose (h1 := history ++ [(start, b history start)]).
  destruct (integrationEnabled st) eqn:Eint; cbn [negb].
  - destruct (Download.validateIntegrationForm (form st)) as [m |] eqn:Ev.
    + eexists false, _, _. split; [|split].
      * eapply runs_bind; [apply runs_logClient|].
        eapply runs_bind; [apply runs_setMessage|].
        eapply runs_bind; [apply runs_logClient | apply runs_ret].
      * apply guarded_none. reflexivity.
      * discriminate.
    + destruct (ensureDownloadPathReady_runs st b h1 message)
        as (ready & m1 & added_e & He & Hde & Hcheck).
      destruct ready.
      * destruct (Hcheck eq_refl) as (path & o' & Hin & Hacc & Hne).
        pose (c := download_video (Integrated (payload st))).
        pose (h2 := (h1 ++ added_e) ++ []).
        destruct (finish_runs loadDownloadList loader_sends_none st b
                    "download_submit:integration:ok" "download_submit:integration:error:"
                    match Tauri.invokeCommand (b h2 c) with
                    | Tauri.Return _ => None
                    | Tauri.Throw error => Some (Raised error)
                    end
                    (h2 ++ [(c, b h2 c)]) (Value (Str "")))
          as (r & m2 & added_f & Hf & Hdf & Hr).
        exists r, m2, ([(start, b history start)] ++ added_e ++ [] ++ [(c, b h2 c)] ++ added_f).
        split; [|split].
        -- eapply runs_bind; [apply runs_logClient|].
           eapply runs_bind; [exact He|]. cbn [negb].
           eapply runs_bind; [apply runs_setMessage|].
           eapply runs_bind; [apply runs_invokeCommand | exact Hf].
        -- apply guarded_after; [reflexivity|].
           now apply (guarded_checked added_e ([] ++ [(c, b h2 c)] ++ added_f) path o').
        -- intros -> _. specialize (Hr eq_refl). split; [reflexivity|].
           exists (b h2 c). rewrite !downloads_app, Hde, Hdf. split; [reflexivity|].
           unfold accepted. destruct (Tauri.invokeCommand (b h2 c)); [reflexivity | discriminate].
      * eexists false, _, ([(start, b history start)] ++ added_e ++ _).
        split; [|split].
        -- eapply runs_bind; [apply runs_logClient|].
           eapply runs_bind; [exact He|]. cbn [negb].
           eapply runs_bind; [apply runs_logClient | apply runs_ret].
        -- apply guarded_none. rewrite !downloads_app, Hde. reflexivity.
        -- discriminate.
  - destruct (handleDownload_runs h1 message) as (r & m1 & added & Hd & Hg & _).
    exists r, m1, ([(start, b history start)] ++ added). split; [|split].
    + eapply runs_bind; [apply runs_logClient | exact Hd].
    + apply guarded_after; [reflexivity | exact Hg].
    + intros _ H. discriminate H.
Qed.

End HandlerRuns.

Section LoaderFacts.
Import JS Numeric Paths Selection Page.

(** Reloading the list of records sends one call, which is no
    download. *)
Lemma loadDownloadList_for_sends_none status :
  sends_no_download (loadDownloadList_for status).
Proof.
  intros b history message.
  exists [(download_list_by_status status, b history (download_list_by_status status))].
  split; [|repeat constructor].
  unfold loadDownloadList_for, bind, setMessage. cbn.
  destruct (Tauri.invokeCommand (b history (download_list_by_status status)))
    as [v | [msg | reason]]; [reflexivity | reflexivity | destruct reason; reflexivity].
Qed.

(** A run from an empty history, read off [run]. *)
Lemma runs_from_start {A} (m : M A) (b : backend) message (a : A) :
  fst (fst (run b [] (m message))) = a ->
  runs m b [] message a (snd (fst (run b [] (m message)))) (snd (run b [] (m message))).
Proof.
  unfold runs. destruct (run b [] (m message)) as ((a', message') & trace).
  cbn. intros ->. reflexivity.
Qed.

End LoaderFacts.

Section InvalidForm.
Import JS Numeric Paths Selection Page.

Variable loadDownloadList : M (option thrown).
Variable st : state.
Variable b : backend.

(** A form that [validateIntegrationForm] rejects ends the handler
    after two lines of the log. *)
Lemma handleIntegrationDownload_invalid history message m :
  integrationEnabled st = true ->
  Download.validateIntegrationForm (form st) = Download.Invalid m ->
  exists o1 o2,
    runs (handleIntegrationDownload loadDownloadList st) b history message false (Words m)
      [(auth_client_log (line ("download_submit:integration:start parts="
                               ++ count_text (Download.selectedCount (form st)))), o1);
       (auth_client_log [Value (Str "download_submit:integration:invalid:"); Words m], o2)].
Proof.
  intros Eint Ev. unfold handleIntegrationDownload. rewrite Eint, Ev. cbn [negb].
  eexists _, _. unfold runs, bind, logClient, invoke, setMessage, ret. cbn.
  rewrite <- app_assoc. reflexivity.
Qed.

End InvalidForm.

Section HandlerTheorems.
Import JS Numeric Paths Selection Page PageSamples.

(** X28.  With the integration switched on, [handleIntegrationDownload]
    sends a download only for a form that [validateIntegrationForm]
    passes: a rejected form ends the run with the answer false, the
    message of the validation on show and no [download_video] call;
    and the answer is true only when the form is valid and the one
    [download_video] call of the run, which carries the payload built
    from the form, was accepted.  [loadDownloadList] may be any
    function that sends no download itself. *)
Theorem integration_download_needs_valid_form
    (loadDownloadList : M (option thrown)) (st : state) (b : backend)
    history message r message' added :
  sends_no_download loadDownloadList ->
  integrationEnabled st = true ->
  runs (handleIntegrationDownload loadDownloadList st) b history message r message' added ->
  (forall m, Download.validateIntegrationForm (form st) = Download.Invalid m ->
             r = false /\ message' = Words m /\ downloads added = [])
  /\ (r = true ->
      Download.validateIntegrationForm (form st) = Download.Valid
      /\ exists o, downloads added = [(download_video (Integrated (payload st)), o)]
                   /\ accepted o = true).
Proof.
  intros Hl Eint Hrun. split.
  - intros m Ev.
    destruct (handleIntegrationDownload_invalid loadDownloadList st b history message m Eint Ev)
      as (o1 & o2 & H).
    destruct (runs_unique b _ _ _ _ _ _ _ _ _ Hrun H) as (-> & -> & ->).
    repeat split.
  - intros ->.
    destruct (handleIntegrationDownload_runs loadDownloadList Hl st b history message)
      as (r & m1 & added1 & H & _ & Hr).
    destruct (runs_unique b _ _ _ _ _ _ _ _ _ Hrun H) as (<- & <- & ->).
    exact (Hr eq_refl Eint).
Qed.

Lemma integration_download_needs_valid_form_witness :
  Download.validateIntegrationForm (form sample_state) = Download.Valid
  /\ exists o,
       downloads (snd integrated_run)
       = [(download_video (Integrated (payload sample_state)), o)]
       /\ accepted o = true.
Proof.
  assert (Hrun : runs (handleIntegrationDownload reload sample_state) always_ok []
                      (Value (Str "")) true (snd (fst integrated_run)) (snd integrated_run)).
  { apply runs_from_start. vm_compute. reflexivity. }
  destruct (integration_download_needs_valid_form reload sample_state always_ok []
              (Value (Str "")) true (snd (fst integrated_run)) (snd integrated_run)
              (loadDownloadList_for_sends_none (of_Z 0)) eq_refl Hrun) as [_ H].
  exact (H eq_refl).
Defined.

(** X29.  Neither handler sends a download before the directory was
    checked: in the run of [handleDownload] and in the run of
    [handleIntegrationDownload], whatever the page holds and whatever
    the backend answers, each [download_video] call comes after a
    [validate_directory] call for a path that is not empty, which
    [invokeCommand] took for accepted.  [loadDownloadList] may be any
    function that sends no download itself. *)
Theorem downloads_follow_directory_check
    (loadDownloadList : M (option thrown)) (st : state) (b : backend) history message :
  sends_no_download loadDownloadList ->
  (exists r message' added,
     runs (handleDownload loadDownloadList st) b history message r message' added
     /\ guarded added)
  /\ (exists r message' added,
        runs (handleIntegrationDownload loadDownloadList st) b history message r message' added
        /\ guarded added).
Proof.
  intros Hl. split.
  - destruct (handleDownload_runs loadDownloadList Hl st b history message)
      as (r & m1 & added & H & Hg & _). eauto.
  - destruct (handleIntegrationDownload_runs loadDownloadList Hl st b history message)
      as (r & m1 & added & H & Hg & _). eauto.
Qed.

Lemma downloads_follow_directory_check_witness :
  (exists r message' added,
     runs (handleDownload reload sample_state) always_ok [] (Value (Str "")) r message' added
     /\ guarded added)
  /\ (exists r message' added,
        runs (handleIntegrationDownload reload sample_state) always_ok []
             (Value (Str "")) r message' added
        /\ guarded added).
Proof.
  exact (downloads_follow_directory_check reload sample_state always_ok [] (Value (Str ""))
           (loadDownloadList_for_sends_none (of_Z 0))).
Defined.



End HandlerTheorems.
